(** * SN73 micro-grid bot: position ledger, DCA gate, slippage guard, state file

    Shallow embedding of [sn73_micro_grid_bot.py] (class [SN73MicroGridBot]).

    Modelling conventions.
    - Python floats are modelled by exact rationals [Q]; rounding of binary
      floating point is outside the model.  Numeric equality is [Qeq] ([==]).
      A division whose divisor is zero raises [ZeroDivisionError] in Python;
      every such division is guarded explicitly in the model.
    - Python ints are [Z].
    - A position is a Python dict with a fixed set of keys; it is a record here.
      The five keys added when a position is sold form the optional [sale].
    - The outside world (subtensor calls, clocks) is a [Gateway] of scripted
      answers indexed by a logical step counter [tick]; every external call
      advances the counter.  Calls that move funds are logged in [calls].
    - Exceptions are the [Exn] result of the monad [M]; mutations made before
      the exception are kept, as in Python.
    - The state file is [disk]: the JSON value last written by [save_state].
      Writing the file is assumed to succeed; the keys [start_time] and
      [last_save_time], which [load_state] never reads, are left out.
    - Console output is not modelled. *)

From Stdlib Require Import QArith Qabs Qround ZArith NArith List String Ascii Bool Lia Lqa Arith.
Import ListNotations.

Open Scope Q_scope.

(** ** Numbers *)

Definition Qltb (a b : Q) : bool := negb (Qle_bool b a).

(** Python's [max(0, x)]. *)
Definition py_max0 (x : Q) : Q := if Qltb 0 x then x else 0.

(** ** [datetime], [str(datetime)] and [datetime.fromisoformat] *)

Record datetime := mkDatetime {
  year : N; month : N; day : N;
  hour : N; minute : N; second : N; microsecond : N
}.

Definition is_leap (y : N) : bool :=
  ((y mod 4 =? 0) && negb (y mod 100 =? 0) || (y mod 400 =? 0))%N.

Definition days_in_month (y m : N) : N :=
  (if m =? 2 then (if is_leap y then 29 else 28)
   else if (m =? 4) || (m =? 6) || (m =? 9) || (m =? 11) then 30
   else 31)%N.

(** The range invariant every Python [datetime] object satisfies. *)
Definition valid_datetimeb (d : datetime) : bool :=
  ((1 <=? year d) && (year d <=? 9999) &&
   (1 <=? month d) && (month d <=? 12) &&
   (1 <=? day d) && (day d <=? days_in_month (year d) (month d)) &&
   (hour d <? 24) && (minute d <? 60) && (second d <? 60) &&
   (microsecond d <? 1000000))%N.

Definition digit_char (d : N) : ascii := ascii_of_N (48 + d).

Definition digit_val (c : ascii) : option N :=
  let n := N_of_ascii c in
  if ((48 <=? n) && (n <=? 57))%N then Some (n - 48)%N else None.

(** [zpad w n]: the [w] low decimal digits of [n], zero padded ([%0wd]). *)
Fixpoint zpad (w : nat) (n : N) : string :=
  match w with
  | O => EmptyString
  | S w' => (zpad w' (n / 10) ++ String (digit_char (n mod 10)) EmptyString)%string
  end.

(** [str(d)], that is [d.isoformat(sep=' ')]: the fraction is printed only
    when the microsecond field is not zero. *)
Definition datetime_str (d : datetime) : string :=
  (zpad 4 (year d) ++ "-" ++ zpad 2 (month d) ++ "-" ++ zpad 2 (day d) ++ " " ++
   zpad 2 (hour d) ++ ":" ++ zpad 2 (minute d) ++ ":" ++ zpad 2 (second d) ++
   (if (microsecond d =? 0)%N then EmptyString
    else "." ++ zpad 6 (microsecond d)))%string.

(** Read exactly [w] decimal digits. *)
Fixpoint take_num (w : nat) (acc : N) (s : string) : option (N * string) :=
  match w with
  | O => Some (acc, s)
  | S w' =>
      match s with
      | EmptyString => None
      | String c s' =>
          match digit_val c with
          | Some d => take_num w' (10 * acc + d)%N s'
          | None => None
          end
      end
  end.

Definition expect (c : ascii) (s : string) : option string :=
  match s with
  | String c' s' => if Ascii.eqb c c' then Some s' else None
  | EmptyString => None
  end.

Definition skip_char (s : string) : option string :=
  match s with
  | String _ s' => Some s'
  | EmptyString => None
  end.

Definition parse_fraction (s : string) : option N :=
  match s with
  | EmptyString => Some 0%N
  | _ =>
      match expect "." s with
      | Some s1 =>
          match take_num 6 0 s1 with
          | Some (us, EmptyString) => Some us
          | _ => None
          end
      | None => None
      end
  end.

(** [datetime.fromisoformat] on the two shapes [str] produces
    ([YYYY-MM-DD?HH:MM:SS] and the same followed by [.ffffff]); [None] is the
    [ValueError].  Other ISO shapes are reported as errors here. *)
Definition fromisoformat (s : string) : option datetime :=
  match take_num 4 0 s with
  | Some (y, s) =>
    match expect "-" s with
    | Some s =>
      match take_num 2 0 s with
      | Some (mo, s) =>
        match expect "-" s with
        | Some s =>
          match take_num 2 0 s with
          | Some (d, s) =>
            match skip_char s with
            | Some s =>
              match take_num 2 0 s with
              | Some (h, s) =>
                match expect ":" s with
                | Some s =>
                  match take_num 2 0 s with
                  | Some (mi, s) =>
                    match expect ":" s with
                    | Some s =>
                      match take_num 2 0 s with
                      | Some (se, s) =>
                        match parse_fraction s with
                        | Some us =>
                            let r := mkDatetime y mo d h mi se us in
                            if valid_datetimeb r then Some r else None
                        | None => None
                        end
                      | None => None
                      end
                    | None => None
                    end
                  | None => None
                  end
                | None => None
                end
              | None => None
              end
            | None => None
            end
          | None => None
          end
        | None => None
        end
      | None => None
      end
    | None => None
    end
  | None => None
  end.

(** ** Configuration (the attributes of [self.config] the bot reads) *)

Record Config := mkConfig {
  dca_amount : Q;
  dca_interval_hours : Q;
  max_investment : Q;
  cap_tolerance : Q;
  profit_target_percent : Q;
  max_positions : Z;
  min_balance : Q;
  max_entry_price : option Q;        (* read under [hasattr] *)
  stop_loss_percent : option Q;      (* read under [hasattr] *)
  max_slippage_percent : option Q;   (* [getattr], default 2.0 *)
  price_check_tolerance : option Q;  (* [getattr], default 1.0 *)
  fee_reserve_enabled : option bool; (* [getattr], default True *)
  auto_fee_reserve : option Q        (* [getattr], default 0.04 *)
}.

Definition getattr {A : Type} (o : option A) (default : A) : A :=
  match o with Some a => a | None => default end.

(** ** Positions and the bot's ledger fields *)

Inductive pos_status := Active | Sold.

(** A timestamp value is a [datetime] object in memory and a string in the
    JSON file. *)
Inductive timestamp :=
| Datetime (d : datetime)
| IsoString (s : string).

Record sale := mkSale {
  sell_price : Q;
  tao_received : Q;
  profit_tao : Q;
  profit_percent_actual : Q;
  sell_timestamp : timestamp
}.

Record position := mkPosition {
  pos_id : Z;
  buy_price : Q;
  sell_target_price : Q;
  alpha_amount : Q;
  tao_invested : Q;
  created_timestamp : timestamp;
  status : pos_status;
  profit_percent : Q;
  sale_info : option sale
}.

Record Bot := mkBot {
  total_invested : Q;
  active_positions : list position;
  completed_trades : list position;
  position_counter : Z;
  total_profit_realized : Q;
  successful_sells : Z;
  failed_sells : Z;
  last_dca_time : Q
}.

(** [__init__]. *)
Definition init_bot : Bot := mkBot 0 [] [] 0 0 0 0 0.

(** The JSON object written to the state file. *)
Record Snapshot := mkSnapshot {
  s_total_invested : Q;
  s_active_positions : list position;
  s_completed_trades : list position;
  s_position_counter : Z;
  s_total_profit_realized : Q;
  s_successful_sells : Z;
  s_failed_sells : Z;
  s_last_dca_time : Q
}.

(** ** The outside world *)

Inductive failure := Transient | Definitive.

Inductive outcome (A : Type) :=
| Returned (a : A)
| Raised (e : failure).
Arguments Returned {A} a.
Arguments Raised {A} e.

(** Scripted behaviour of the subtensor client and the clocks at each step.
    [all_subnets] answers with the price of the target subnet, or [None] when
    the subnet is not listed.  [add_stake] and [unstake] answer with the
    boolean the client returns. *)
Record Gateway := mkGateway {
  all_subnets : nat -> outcome (option Q);
  get_balance : nat -> outcome Q;
  add_stake : nat -> outcome bool;
  unstake : nat -> outcome bool;
  clock : nat -> Q;
  wall_clock : nat -> datetime
}.

Inductive Call :=
| CallAddStake (amount : Q)
| CallUnstake (amount : Q)
| CallSleep (seconds : Z).

Record World := mkWorld {
  bot : Bot;
  disk : option Snapshot;
  tick : nat;
  calls : list Call
}.

(** ** State and exception monad *)

Inductive result (A : Type) :=
| Ok (a : A)
| Exn.
Arguments Ok {A} a.
Arguments Exn {A}.

Definition M (A : Type) : Type := World -> result A * World.

Definition ret {A : Type} (a : A) : M A := fun w => (Ok a, w).

Definition raise {A : Type} : M A := fun w => (Exn, w).

Definition bind {A B : Type} (m : M A) (k : A -> M B) : M B :=
  fun w =>
    match m w with
    | (Ok a, w') => k a w'
    | (Exn, w') => (Exn, w')
    end.

(** [try: m except Exception: h]. *)
Definition try_except {A : Type} (m : M A) (h : M A) : M A :=
  fun w =>
    match m w with
    | (Ok a, w') => (Ok a, w')
    | (Exn, w') => h w'
    end.

Declare Scope monad_scope.
Delimit Scope monad_scope with monad.
Notation "x <- m ;; k" := (bind m (fun x => k))
  (at level 61, m at next level, right associativity) : monad_scope.
Notation "m ;;; k" := (bind m (fun _ => k))
  (at level 61, right associativity) : monad_scope.
Open Scope monad_scope.

Definition get_bot : M Bot := fun w => (Ok (bot w), w).

Definition modify_bot (f : Bot -> Bot) : M unit :=
  fun w => (Ok tt, mkWorld (f (bot w)) (disk w) (tick w) (calls w)).

Definition step (w : World) : World :=
  mkWorld (bot w) (disk w) (S (tick w)) (calls w).

Definition log_call (c : Call) : M unit :=
  fun w => (Ok tt, mkWorld (bot w) (disk w) (tick w) (calls w ++ [c])).

(** One external call answering from the script. *)
Definition ask {A : Type} (script : nat -> outcome A) : M A :=
  fun w =>
    match script (tick w) with
    | Returned a => (Ok a, step w)
    | Raised _ => (Exn, step w)
    end.

Definition observe {A : Type} (script : nat -> A) : M A :=
  fun w => (Ok (script (tick w)), step w).

(** [await asyncio.sleep(seconds)]. *)
Definition sleep (seconds : Z) : M unit := log_call (CallSleep seconds).

(** ** Record updates on the ledger *)

Definition set_active_positions (l : list position) (b : Bot) : Bot :=
  mkBot (total_invested b) l (completed_trades b) (position_counter b)
        (total_profit_realized b) (successful_sells b) (failed_sells b)
        (last_dca_time b).

Definition set_completed_trades (l : list position) (b : Bot) : Bot :=
  mkBot (total_invested b) (active_positions b) l (position_counter b)
        (total_profit_realized b) (successful_sells b) (failed_sells b)
        (last_dca_time b).

Definition set_failed_sells (n : Z) (b : Bot) : Bot :=
  mkBot (total_invested b) (active_positions b) (completed_trades b)
        (position_counter b) (total_profit_realized b) (successful_sells b) n
        (last_dca_time b).

Definition set_created_timestamp (t : timestamp) (p : position) : position :=
  mkPosition (pos_id p) (buy_price p) (sell_target_price p) (alpha_amount p)
             (tao_invested p) t (status p) (profit_percent p) (sale_info p).

Definition set_sale_info (s : option sale) (p : position) : position :=
  mkPosition (pos_id p) (buy_price p) (sell_target_price p) (alpha_amount p)
             (tao_invested p) (created_timestamp p) (status p)
             (profit_percent p) s.

Definition set_sell_timestamp (t : timestamp) (s : sale) : sale :=
  mkSale (sell_price s) (tao_received s) (profit_tao s)
         (profit_percent_actual s) t.

(** [l[i] = x]; the index is always in range where the bot uses it. *)
Fixpoint list_set {A : Type} (i : nat) (x : A) (l : list A) : list A :=
  match l, i with
  | [], _ => []
  | _ :: r, O => x :: r
  | y :: r, S i' => y :: list_set i' x r
  end.

(** ** Equality of Python values, as [==] computes it *)

Definition N_eqb_datetime (a b : datetime) : bool :=
  ((year a =? year b) && (month a =? month b) && (day a =? day b) &&
   (hour a =? hour b) && (minute a =? minute b) && (second a =? second b) &&
   (microsecond a =? microsecond b))%N.

Definition timestamp_eqb (a b : timestamp) : bool :=
  match a, b with
  | Datetime x, Datetime y => N_eqb_datetime x y
  | IsoString x, IsoString y => String.eqb x y
  | _, _ => false
  end.

Definition status_eqb (a b : pos_status) : bool :=
  match a, b with
  | Active, Active | Sold, Sold => true
  | _, _ => false
  end.

Definition sale_eqb (a b : sale) : bool :=
  Qeq_bool (sell_price a) (sell_price b) &&
  Qeq_bool (tao_received a) (tao_received b) &&
  Qeq_bool (profit_tao a) (profit_tao b) &&
  Qeq_bool (profit_percent_actual a) (profit_percent_actual b) &&
  timestamp_eqb (sell_timestamp a) (sell_timestamp b).

Definition position_eqb (a b : position) : bool :=
  (pos_id a =? pos_id b)%Z &&
  Qeq_bool (buy_price a) (buy_price b) &&
  Qeq_bool (sell_target_price a) (sell_target_price b) &&
  Qeq_bool (alpha_amount a) (alpha_amount b) &&
  Qeq_bool (tao_invested a) (tao_invested b) &&
  timestamp_eqb (created_timestamp a) (created_timestamp b) &&
  status_eqb (status a) (status b) &&
  Qeq_bool (profit_percent a) (profit_percent b) &&
  match sale_info a, sale_info b with
  | Some x, Some y => sale_eqb x y
  | None, None => true
  | _, _ => false
  end.

(** [list.remove(x)]: drops the first element equal to [x]; [None] is the
    [ValueError] raised when there is none. *)
Fixpoint list_remove (x : position) (l : list position) : option (list position) :=
  match l with
  | [] => None
  | y :: r =>
      if position_eqb y x then Some r
      else match list_remove x r with
           | Some r' => Some (y :: r')
           | None => None
           end
  end.

(** ** The state file: [json.dump(state, f, default=str)] and [json.load] *)

(** [default=str] turns a [datetime] into its string; a string stays. *)
Definition json_timestamp (t : timestamp) : timestamp :=
  match t with
  | Datetime d => IsoString (datetime_str d)
  | IsoString s => IsoString s
  end.

Definition json_sale (s : sale) : sale :=
  set_sell_timestamp (json_timestamp (sell_timestamp s)) s.

Definition json_position (p : position) : position :=
  mkPosition (pos_id p) (buy_price p) (sell_target_price p) (alpha_amount p)
             (tao_invested p) (json_timestamp (created_timestamp p)) (status p)
             (profit_percent p) (option_map json_sale (sale_info p)).

(** The [state] dict of [save_state], as stored. *)
Definition snapshot (b : Bot) : Snapshot :=
  mkSnapshot (total_invested b)
             (map json_position (active_positions b))
             (map json_position (completed_trades b))
             (position_counter b) (total_profit_realized b)
             (successful_sells b) (failed_sells b) (last_dca_time b).

Definition save_state : M unit :=
  fun w => (Ok tt, mkWorld (bot w) (Some (snapshot (bot w))) (tick w) (calls w)).

(** [if isinstance(v, str): v = datetime.fromisoformat(v)]; [None] is the
    exception of [fromisoformat]. *)
Definition revive (t : timestamp) : option timestamp :=
  match t with
  | Datetime d => Some (Datetime d)
  | IsoString s =>
      match fromisoformat s with
      | Some d => Some (Datetime d)
      | None => None
      end
  end.

(** Loop body for an active position: the dict after the body, and whether
    the body completed without raising. *)
Definition revive_active (p : position) : position * bool :=
  match revive (created_timestamp p) with
  | Some t => (set_created_timestamp t p, true)
  | None => (p, false)
  end.

(** Loop body for a completed trade. *)
Definition revive_trade (p : position) : position * bool :=
  match revive (created_timestamp p) with
  | None => (p, false)
  | Some t =>
      let p1 := set_created_timestamp t p in
      match sale_info p1 with
      | None => (p1, true)
      | Some s =>
          match revive (sell_timestamp s) with
          | Some t' => (set_sale_info (Some (set_sell_timestamp t' s)) p1, true)
          | None => (p1, false)
          end
      end
  end.

(** A [for] loop mutating the dicts of a list in place, stopped by the
    first exception. *)
Fixpoint revive_all (body : position -> position * bool) (l : list position)
  : list position * bool :=
  match l with
  | [] => ([], true)
  | p :: r =>
      let (p', ok) := body p in
      if ok then
        let (r', ok') := revive_all body r in (p' :: r', ok')
      else (p' :: r, false)
  end.

(** The assignments of [load_state] from the parsed file; the [except]
    clause keeps whatever was assigned before an exception. *)
Definition restore (s : Snapshot) : Bot :=
  let (act, ok) := revive_all revive_active (s_active_positions s) in
  let done :=
    if ok then fst (revive_all revive_trade (s_completed_trades s))
    else s_completed_trades s in
  mkBot (s_total_invested s) act done (s_position_counter s)
        (s_total_profit_realized s) (s_successful_sells s) (s_failed_sells s)
        (s_last_dca_time s).

Definition load_state : M unit :=
  fun w =>
    match disk w with
    | Some s => (Ok tt, mkWorld (restore s) (disk w) (tick w) (calls w))
    | None => (Ok tt, w)
    end.

(** ** The bot's methods *)

Inductive trade_type := Buy | Sell.

Inductive slip_reason :=
| NoCurrentPrice        (* "Could not get current price" *)
| SlippageTooHigh       (* "Slippage too high" *)
| PriceIncreased        (* "Price increased beyond tolerance" *)
| PriceDecreased        (* "Price decreased beyond tolerance" *)
| SlippageError.        (* "Error checking slippage" *)

(** The pair returned by [check_price_slippage]: [(True, current_price)] or
    [(False, message)]. *)
Inductive slip_result :=
| SlipOk (price : Q)
| SlipNo (reason : slip_reason).

Section Methods.

Variable cfg : Config.
Variable gw : Gateway.

(** The retry loops all have the shape
    [for attempt in range(max_retries): try: return call() except: ...]
    with [remaining] the attempts left; the last attempt ends the loop in its
    [except] clause, so the case [remaining = 0] is never entered from
    [max_retries = 3]. *)
Fixpoint get_wallet_balance_loop (remaining : nat) : M Q :=
  match remaining with
  | O => raise
  | S r =>
      try_except (ask (get_balance gw))
        (match r with
         | O => raise
         | S _ => sleep 5 ;;; get_wallet_balance_loop r
         end)
  end.

Definition get_wallet_balance : M Q := get_wallet_balance_loop 3.

Fixpoint get_subnet_info_loop (remaining : nat) : M (option Q) :=
  match remaining with
  | O => ret None
  | S r =>
      try_except (ask (all_subnets gw))
        (match r with
         | O => raise
         | S _ => sleep 5 ;;; get_subnet_info_loop r
         end)
  end.

(** The subnet's price, or [None] when the subnet is not listed. *)
Definition get_subnet_info : M (option Q) := get_subnet_info_loop 3.

Definition is_at_investment_cap (b : Bot) : bool :=
  let upper_limit := max_investment cfg + cap_tolerance cfg in
  Qle_bool upper_limit (total_invested b).

Definition can_resume_dca (b : Bot) : bool :=
  let lower_limit := max_investment cfg - cap_tolerance cfg in
  Qltb (total_invested b) lower_limit.

Definition get_available_balance_for_trading (wallet_balance : Q) : Q :=
  if getattr (fee_reserve_enabled cfg) true then
    let fee_reserve := getattr (auto_fee_reserve cfg) (4 # 100) in
    py_max0 (wallet_balance - fee_reserve)
  else py_max0 (wallet_balance - min_balance cfg).

Definition is_time_for_dca : M bool :=
  current_time <- observe (clock gw) ;;
  let dca_interval_seconds := dca_interval_hours cfg * 3600 in
  b <- get_bot ;;
  if Qeq_bool (last_dca_time b) 0 then ret true
  else
    let time_since_last_dca := current_time - last_dca_time b in
    ret (Qle_bool dca_interval_seconds time_since_last_dca).

Definition get_time_until_next_dca : M Q :=
  b <- get_bot ;;
  if Qeq_bool (last_dca_time b) 0 then ret 0
  else
    current_time <- observe (clock gw) ;;
    let dca_interval_seconds := dca_interval_hours cfg * 3600 in
    let time_since_last := current_time - last_dca_time b in
    let time_until_next := dca_interval_seconds - time_since_last in
    ret (py_max0 (time_until_next / 60)).

Definition check_price_slippage (expected_price : Q) (trade : trade_type)
  : M slip_result :=
  try_except
    (subnet_info <- get_subnet_info ;;
     match subnet_info with
     | None => ret (SlipNo NoCurrentPrice)
     | Some current_price =>
         if Qeq_bool expected_price 0 then raise
         else
           let slippage_percent :=
             Qabs ((current_price - expected_price) / expected_price) * 100 in
           let max_slippage := getattr (max_slippage_percent cfg) 2 in
           if Qltb max_slippage slippage_percent then ret (SlipNo SlippageTooHigh)
           else
             let price_tolerance := getattr (price_check_tolerance cfg) 1 in
             match trade with
             | Buy =>
                 if Qltb (expected_price * (1 + price_tolerance / 100)) current_price
                 then ret (SlipNo PriceIncreased)
                 else ret (SlipOk current_price)
             | Sell =>
                 if Qltb current_price (expected_price * (1 - price_tolerance / 100))
                 then ret (SlipNo PriceDecreased)
                 else ret (SlipOk current_price)
             end
     end)
    (ret (SlipNo SlippageError)).

(** [stake_sn73]: the value returned by [add_stake] is bound to [result] and
    never read; any exception is retried after a 10 second sleep. *)
Fixpoint stake_sn73_loop (remaining : nat) (tao_amount : Q) : M bool :=
  match remaining with
  | O => ret false
  | S r =>
      try_except
        (log_call (CallAddStake tao_amount) ;;;
         result <- ask (add_stake gw) ;;
         ret true)
        (match r with
         | O => ret false
         | S _ => sleep 10 ;;; stake_sn73_loop r tao_amount
         end)
  end.

Definition stake_sn73 (tao_amount : Q) : M bool := stake_sn73_loop 3 tao_amount.

Fixpoint unstake_sn73_loop (remaining : nat) (alpha : Q) : M bool :=
  match remaining with
  | O => ret false
  | S r =>
      try_except
        (log_call (CallUnstake alpha) ;;;
         result <- ask (unstake gw) ;;
         ret true)
        (match r with
         | O => ret false
         | S _ => sleep 10 ;;; unstake_sn73_loop r alpha
         end)
  end.

Definition unstake_sn73 (alpha : Q) : M bool := unstake_sn73_loop 3 alpha.

(** The ledger update of a successful purchase (the body of [if success:]
    up to the append and the total). *)
Definition record_purchase (now : Q) (created : datetime) (current_price alpha : Q)
  (b : Bot) : Bot :=
  let counter := (position_counter b + 1)%Z in
  let sell_target_price := current_price * (1 + profit_target_percent cfg / 100) in
  let position :=
    mkPosition counter current_price sell_target_price alpha (dca_amount cfg)
               (Datetime created) Active (profit_target_percent cfg) None in
  mkBot (total_invested b + dca_amount cfg)
        (active_positions b ++ [position])
        (completed_trades b) counter (total_profit_realized b)
        (successful_sells b) (failed_sells b) now.

Definition execute_dca_purchase : M bool :=
  try_except
    (subnet_info <- get_subnet_info ;;
     match subnet_info with
     | None => ret false
     | Some current_price =>
         if match max_entry_price cfg with
            | Some ceiling => Qltb ceiling current_price
            | None => false
            end
         then ret true
         else
           wallet_balance <- get_wallet_balance ;;
           let available_balance := get_available_balance_for_trading wallet_balance in
           if Qltb available_balance (dca_amount cfg) then ret false
           else if Qeq_bool current_price 0 then raise
           else
             slippage <- check_price_slippage current_price Buy ;;
             match slippage with
             | SlipNo _ => ret true
             | SlipOk fresh_price =>
                 if Qeq_bool fresh_price 0 then raise
                 else
                   let alpha := dca_amount cfg / fresh_price in
                   success <- stake_sn73 (dca_amount cfg) ;;
                   if success then
                     now <- observe (clock gw) ;;
                     created <- observe (wall_clock gw) ;;
                     modify_bot (record_purchase now created fresh_price alpha) ;;;
                     save_state ;;;
                     ret true
                   else ret false
             end
     end)
    (ret false).

(** The dict of a position after the six assignments of a successful sale. *)
Definition mark_sold (p : position) (current_price : Q) (sold_at : datetime)
  : position :=
  let received := alpha_amount p * current_price in
  let profit := received - tao_invested p in
  let percent := profit / tao_invested p * 100 in
  mkPosition (pos_id p) (buy_price p) (sell_target_price p) (alpha_amount p)
             (tao_invested p) (created_timestamp p) Sold (profit_percent p)
             (Some (mkSale current_price received profit percent
                           (Datetime sold_at))).

(** The ledger update of a successful sale: the dict at index [i] of the
    active list is mutated in place, the same dict is appended to the
    completed trades, and the metrics move. *)
Definition record_sale (i : nat) (p : position) (current_price : Q)
  (sold_at : datetime) (b : Bot) : Bot :=
  let p' := mark_sold p current_price sold_at in
  let profit := alpha_amount p * current_price - tao_invested p in
  mkBot (total_invested b - tao_invested p)
        (list_set i p' (active_positions b))
        (completed_trades b ++ [p'])
        (position_counter b) (total_profit_realized b + profit)
        (successful_sells b + 1)%Z (failed_sells b) (last_dca_time b).

(** One iteration of [for position in self.active_positions], on the dict
    at index [i].  The loop carries [current_price] (overwritten by every
    accepted slippage check) and [positions_to_remove]. *)
Definition sell_iteration (i : nat) (st : Q * list position)
  : M (Q * list position) :=
  let (current_price, positions_to_remove) := st in
  b <- get_bot ;;
  match nth_error (active_positions b) i with
  | None => ret st
  | Some position =>
      match status position with
      | Sold => ret st
      | Active =>
          if Qle_bool (sell_target_price position) current_price then
            slippage <- check_price_slippage current_price Sell ;;
            match slippage with
            | SlipNo _ => ret st
            | SlipOk fresh_price =>
                sell_success <- unstake_sn73 (alpha_amount position) ;;
                if sell_success then
                  if Qeq_bool (tao_invested position) 0 then raise
                  else
                    sold_at <- observe (wall_clock gw) ;;
                    modify_bot (record_sale i position fresh_price sold_at) ;;;
                    save_state ;;;
                    ret (fresh_price,
                         positions_to_remove ++ [mark_sold position fresh_price sold_at])
                else
                  modify_bot (fun b => set_failed_sells (failed_sells b + 1)%Z b) ;;;
                  ret (fresh_price, positions_to_remove)
            end
          else
            (* [elif] stop-loss: a message is printed when the price is at or
               below the stop-loss price; no other statement follows *)
            match stop_loss_percent cfg with
            | Some sl =>
                if Qltb 0 sl then
                  let stop_loss_price := buy_price position * (1 - Qabs sl / 100) in
                  if Qle_bool current_price stop_loss_price then ret st else ret st
                else ret st
            | None => ret st
            end
      end
  end.

Fixpoint sell_loop (indices : list nat) (st : Q * list position)
  : M (Q * list position) :=
  match indices with
  | [] => ret st
  | i :: rest => st' <- sell_iteration i st ;; sell_loop rest st'
  end.

(** [for position in positions_to_remove: self.active_positions.remove(position)]. *)
Fixpoint remove_sold (positions_to_remove : list position) : M unit :=
  match positions_to_remove with
  | [] => ret tt
  | p :: rest =>
      b <- get_bot ;;
      match list_remove p (active_positions b) with
      | Some l => modify_bot (set_active_positions l) ;;; remove_sold rest
      | None => raise
      end
  end.

Definition check_and_execute_sells : M unit :=
  b <- get_bot ;;
  match active_positions b with
  | [] => ret tt
  | _ :: _ =>
      try_except
        (subnet_info <- get_subnet_info ;;
         match subnet_info with
         | None => ret tt
         | Some current_price =>
             st <- sell_loop (seq 0 (List.length (active_positions b)))
                             (current_price, []) ;;
             remove_sold (snd st)
         end)
        (ret tt)
  end.

(** [print_status]: the computations that can raise, and the balance query. *)
Definition print_status : M unit :=
  b <- get_bot ;;
  if Qeq_bool (max_investment cfg) 0 then raise
  else
    wallet_balance <- get_wallet_balance ;;
    match completed_trades b with
    | [] => ret tt
    | _ :: _ =>
        if (successful_sells b + failed_sells b =? 0)%Z then raise else ret tt
    end.

(** Phase 1 of [micro_grid_cycle]. *)
Definition dca_phase : M unit :=
  b <- get_bot ;;
  if negb (is_at_investment_cap b) then
    if (Z.of_nat (List.length (active_positions b)) <? max_positions cfg)%Z then
      due <- is_time_for_dca ;;
      if due then (_ <- execute_dca_purchase ;; ret tt)
      else (_ <- get_time_until_next_dca ;; ret tt)
    else ret tt
  else ret tt.

(** One cycle.  The [except] clause reconnects to the network, which touches
    no ledger field, and returns [True]. *)
Definition micro_grid_cycle : M bool :=
  try_except
    (dca_phase ;;;
     check_and_execute_sells ;;;
     print_status ;;;
     ret true)
    (ret true).

(** Process start: [__init__] followed by [load_state] (from [initialize]). *)
Definition restart (w : World) : World :=
  snd (load_state (mkWorld init_bot (disk w) (tick w) (calls w))).

End Methods.

(** [n] iterations of the body of [run]'s [while self.running] loop; the
    waiting between two cycles is not modelled. *)
Fixpoint run_cycles (cfg : Config) (gw : Gateway) (n : nat) (w : World) : World :=
  match n with
  | O => w
  | S k => run_cycles cfg gw k (snd (micro_grid_cycle cfg gw w))
  end.

(** ** Vocabulary of the properties *)

(** Capital a position contributes to the committed total. *)
Definition committed (p : position) : Q :=
  match status p with
  | Active => tao_invested p
  | Sold => 0
  end.

(** Sum of [tao_invested] over the positions of a list whose status is
    active. *)
Fixpoint active_sum (l : list position) : Q :=
  match l with
  | [] => 0
  | p :: r => committed p + active_sum r
  end.

Definition ledger_balanced (b : Bot) : Prop :=
  total_invested b == active_sum (active_positions b).

(** Every id handed out so far is at most the counter. *)
Definition ids_bounded (b : Bot) : Prop :=
  Forall (fun p => (pos_id p <= position_counter b)%Z)
         (active_positions b ++ completed_trades b).

(** The state file holds the in-memory ledger. *)
Definition persisted (w : World) : Prop :=
  disk w = Some (snapshot (bot w)).

(** Number of [add_stake] calls in a log. *)
Fixpoint stake_attempts (l : list Call) : nat :=
  match l with
  | [] => O
  | CallAddStake _ :: r => S (stake_attempts r)
  | _ :: r => stake_attempts r
  end.

Fixpoint unstake_attempts (l : list Call) : nat :=
  match l with
  | [] => O
  | CallUnstake _ :: r => S (unstake_attempts r)
  | _ :: r => unstake_attempts r
  end.

(** All timestamps of a position are [datetime] objects in range. *)
Definition valid_timestamp (t : timestamp) : Prop :=
  match t with
  | Datetime d => valid_datetimeb d = true
  | IsoString _ => False
  end.

Definition in_memory_position (p : position) : Prop :=
  valid_timestamp (created_timestamp p) /\
  match sale_info p with
  | Some s => valid_timestamp (sell_timestamp s)
  | None => True
  end.

(** A ledger as the bot holds it between two sell scans: timestamps are
    [datetime] objects and no entry of the active list carries sale keys. *)
Definition settled (b : Bot) : Prop :=
  Forall (fun p => in_memory_position p /\ sale_info p = None) (active_positions b) /\
  Forall in_memory_position (completed_trades b).

(** States the process can be in between two method calls: it starts with no
    state file, runs purchases, sell scans (or single iterations of the scan),
    whole cycles, the world moves on, and the process may be stopped and
    started again at any of these points. *)
Inductive reachable (cfg : Config) (gw : Gateway) : World -> Prop :=
| reach_start : forall t, reachable cfg gw (mkWorld init_bot None t [])
| reach_step : forall w, reachable cfg gw w -> reachable cfg gw (step w)
| reach_purchase : forall w,
    reachable cfg gw w -> reachable cfg gw (snd (execute_dca_purchase cfg gw w))
| reach_sell_iteration : forall w i st,
    reachable cfg gw w -> reachable cfg gw (snd (sell_iteration cfg gw i st w))
| reach_sells : forall w,
    reachable cfg gw w -> reachable cfg gw (snd (check_and_execute_sells cfg gw w))
| reach_cycle : forall w,
    reachable cfg gw w -> reachable cfg gw (snd (micro_grid_cycle cfg gw w))
| reach_restart : forall w,
    reachable cfg gw w -> reachable cfg gw (restart w).

(** Two properties in the specification's words that the code does not have. *)

(** Hysteresis: a gate that was paused at [cap + tolerance] stays closed
    while the total is not below [cap - tolerance]. *)
Definition hysteresis_holds (cfg : Config) (paused after : Bot) : Prop :=
  is_at_investment_cap cfg paused = true ->
  can_resume_dca cfg after = false ->
  is_at_investment_cap cfg after = true.


(** ** Concrete worlds *)

Module Scenario.

(** The configuration of the specification's scenarios: 0.05 TAO every 12
    hours, 15% target, cap 5.0 with tolerance 0.1. *)
Definition cfg : Config :=
  mkConfig (5 # 100) 12 5 (1 # 10) 15 200 0 None None None None None None.

Definition cfg_stop_loss : Config :=
  mkConfig (5 # 100) 12 5 (1 # 10) 15 200 0 None (Some 10) None None None None.

Definition bought_at : datetime := mkDatetime 2024 1 2 3 4 5 0.
Definition sold_at : datetime := mkDatetime 2024 3 4 5 6 7 678.

Definition start : World := mkWorld init_bot None 0 [].

(** A calm market: every call succeeds, the price is 1.0 for the first six
    steps (one purchase) and [later] afterwards. *)
Definition market (later : Q) : Gateway :=
  mkGateway (fun t => Returned (Some (if (t <? 6)%nat then 1 else later)))
            (fun _ => Returned 10)
            (fun _ => Returned true)
            (fun _ => Returned true)
            (fun t => inject_Z (1000 + Z.of_nat t))
            (fun t => if (t <? 6)%nat then bought_at else sold_at).

(** The same market with a client whose [unstake] always raises. *)
Definition market_unstake_down (later : Q) : Gateway :=
  mkGateway (all_subnets (market later)) (get_balance (market later))
            (add_stake (market later)) (fun _ => Raised Transient)
            (clock (market later)) (wall_clock (market later)).


(** One position bought at 1.0. *)
Definition after_purchase (later : Q) : World :=
  snd (execute_dca_purchase cfg (market later) start).

(** Filling the cap: 101 purchases at price 2.0 (nine steps per cycle), then
    one at 1.0, then the price is 1.2, above the last position's target only.
    A day passes between two steps of the clock. *)
Definition filling_market : Gateway :=
  mkGateway (fun t => Returned (Some (if (t <? 909)%nat then 2
                                      else if (t <? 918)%nat then 1
                                      else 12 # 10)))
            (fun _ => Returned 1000)
            (fun _ => Returned true)
            (fun _ => Returned true)
            (fun t => inject_Z (86400 * (1 + Z.of_nat t)))
            (fun _ => bought_at).

(** The position bought at 1.0 and the price fallen to 0.8, with a 10%
    stop-loss configured. *)
Definition after_purchase_stop_loss : World :=
  snd (execute_dca_purchase cfg_stop_loss (market (8 # 10)) start).

Definition after_price_drop : World :=
  snd (check_and_execute_sells cfg_stop_loss (market (8 # 10))
         after_purchase_stop_loss).

(** The position bought at 1.0, the price at 1.16. *)
Definition mid_sale : World :=
  snd (sell_iteration cfg (market (116 # 100)) 0 (116 # 100, [])
         (after_purchase (116 # 100))).

Definition after_sale : World :=
  snd (check_and_execute_sells cfg (market (116 # 100))
         (after_purchase (116 # 100))).

(** The same with a client that cannot unstake. *)
Definition before_failed_close : World :=
  snd (execute_dca_purchase cfg (market_unstake_down (116 # 100)) start).

Definition after_failed_close : World :=
  snd (check_and_execute_sells cfg (market_unstake_down (116 # 100))
         before_failed_close).

Definition paused : World := run_cycles cfg filling_market 102 start.
Definition after_one_close : World := snd (micro_grid_cycle cfg filling_market paused).
Definition after_next_cycle : World :=
  snd (micro_grid_cycle cfg filling_market after_one_close).

End Scenario.

(** Two dicts that agree on the keys the ledger arithmetic reads. *)
Definition same_core (p q : position) : Prop :=
  pos_id p = pos_id q /\ status p = status q /\ tao_invested p = tao_invested q.

(** A property of the ledger kept by every mutation the bot performs and by
    a trip through the state file. *)
Class ledger_invariant (P : Bot -> Prop) : Prop := {
  inv_init : P init_bot;
  inv_purchase : forall cfg now created price alpha b,
      P b -> P (record_purchase cfg now created price alpha b);
  inv_sale : forall i p price sold_at b,
      P b -> nth_error (active_positions b) i = Some p -> status p = Active ->
      P (record_sale i p price sold_at b);
  inv_failed : forall n b, P b -> P (set_failed_sells n b);
  inv_remove : forall p l b,
      P b -> status p = Sold -> list_remove p (active_positions b) = Some l ->
      P (set_active_positions l b);
  inv_restore : forall b, P b -> P (restore (snapshot b))
}.

(** The ledger a process start would load from the state file. *)
Definition saved_bot (d : option Snapshot) : Bot :=
  match d with
  | Some s => restore s
  | None => init_bot
  end.

(** A property relating the ledger in memory and the state file, kept by
    every mutation and by stopping and starting the process. *)
Class world_invariant (I : Bot -> option Snapshot -> Prop) : Prop := {
  wi_init : I init_bot None;
  wi_purchase : forall cfg now created price alpha b d,
      I b d ->
      I (record_purchase cfg now created price alpha b)
        (Some (snapshot (record_purchase cfg now created price alpha b)));
  wi_sale : forall i p price sold_at b d,
      I b d -> nth_error (active_positions b) i = Some p -> status p = Active ->
      I (record_sale i p price sold_at b)
        (Some (snapshot (record_sale i p price sold_at b)));
  wi_failed : forall n b d, I b d -> I (set_failed_sells n b) d;
  wi_remove : forall p l b d,
      I b d -> status p = Sold -> list_remove p (active_positions b) = Some l ->
      I (set_active_positions l b) d;
  wi_restart : forall b d, I b d -> I (saved_bot d) d
}.

(** The property holds of the ledger in memory and of the one the state
    file would restore. *)
Definition holds (P : Bot -> Prop) (b : Bot) (d : option Snapshot) : Prop :=
  P b /\ forall s, d = Some s -> P (restore s).

(** The state file agrees with the ledger in memory on every field that
    only a purchase or a sale changes. *)
Definition trades_saved (b : Bot) (d : option Snapshot) : Prop :=
  total_invested (saved_bot d) = total_invested b /\
  position_counter (saved_bot d) = position_counter b /\
  total_profit_realized (saved_bot d) = total_profit_realized b /\
  successful_sells (saved_bot d) = successful_sells b /\
  last_dca_time (saved_bot d) = last_dca_time b.

(** The dicts collected in [positions_to_remove] are all marked sold. *)
Definition all_sold (l : list position) : Prop :=
  Forall (fun p => status p = Sold) l.

(** ** Reasoning about the monad *)

(** [m] leaves the ledger and the state file as they are, and time only
    moves forward. *)
Definition untouched {A : Type} (m : M A) : Prop :=
  forall w, bot (snd (m w)) = bot w /\ disk (snd (m w)) = disk w /\
            (tick w <= tick (snd (m w)))%nat.

(** Weakest precondition over both ways a computation can end. *)
Definition wp {A : Type} (m : M A) (post : result A -> World -> Prop)
  (w : World) : Prop :=
  post (fst (m w)) (snd (m w)).

(** What a call of [execute_dca_purchase] can do to the ledger. *)
Inductive purchase_outcome (cfg : Config) (gw : Gateway) (w : World)
  (r : result bool) (w' : World) : Prop :=
| purchase_skipped :
    bot w' = bot w -> disk w' = disk w ->
    purchase_outcome cfg gw w r w'
| purchase_recorded : forall now created price alpha t res,
    bot w' = record_purchase cfg now created price alpha (bot w) ->
    persisted w' ->
    r = Ok true ->
    (tick w <= t < tick w')%nat -> add_stake gw t = Returned res ->
    ~ price == 0 -> alpha = dca_amount cfg / price ->
    purchase_outcome cfg gw w r w'.

(** What one iteration of the sell scan can do to the ledger. *)
Inductive sell_outcome (i : nat) (st : Q * list position) (w : World)
  (r : result (Q * list position)) (w' : World) : Prop :=
| sell_nothing :
    bot w' = bot w -> disk w' = disk w ->
    (forall st', r = Ok st' -> snd st' = snd st) ->
    sell_outcome i st w r w'
| sell_failed :
    bot w' = set_failed_sells (failed_sells (bot w) + 1)%Z (bot w) ->
    disk w' = disk w ->
    (forall st', r = Ok st' -> snd st' = snd st) ->
    sell_outcome i st w r w'
| sell_recorded : forall p price sold_at,
    nth_error (active_positions (bot w)) i = Some p ->
    status p = Active ->
    ~ tao_invested p == 0 ->
    bot w' = record_sale i p price sold_at (bot w) ->
    persisted w' ->
    r = Ok (price, snd st ++ [mark_sold p price sold_at]) ->
    sell_outcome i st w r w'.

(** ** More of the program *)

(** One entry of the list [get_stake_for_coldkey] returns. *)
Record stake_entry := mkStakeEntry {
  se_netuid : Z;
  se_hotkey_ss58 : string;
  se_stake : Q
}.

(** The search of [get_current_holdings]: the stake of the first entry on
    the target subnet under the configured validator, [0.0] when there is
    none. *)
Fixpoint find_holding (target_netuid : Z) (validator : string)
  (stake_info : list stake_entry) : Q :=
  match stake_info with
  | [] => 0
  | stake :: rest =>
      if (se_netuid stake =? target_netuid)%Z &&
         String.eqb (se_hotkey_ss58 stake) validator
      then se_stake stake
      else find_holding target_netuid validator rest
  end.

(** [get_current_holdings]: the retry loop of the other queries, except that
    the last failure returns [0.0] instead of raising.  The script of
    [get_stake_for_coldkey] and the two configuration attributes it reads are
    arguments. *)
Fixpoint get_current_holdings_loop (script : nat -> outcome (list stake_entry))
  (target_netuid : Z) (validator : string) (remaining : nat) : M Q :=
  match remaining with
  | O => ret 0
  | S r =>
      try_except
        (stake_info <- ask script ;;
         ret (find_holding target_netuid validator stake_info))
        (match r with
         | O => ret 0
         | S _ =>
             sleep 5 ;;;
             get_current_holdings_loop script target_netuid validator r
         end)
  end.

Definition get_current_holdings (script : nat -> outcome (list stake_entry))
  (target_netuid : Z) (validator : string) : M Q :=
  get_current_holdings_loop script target_netuid validator 3.

(** ** More vocabulary *)

(** [m] never lets an exception out. *)
Definition returns {A : Type} (m : M A) : Prop :=
  forall w, exists a, fst (m w) = Ok a.

(** [m] only adds calls satisfying [allowed] to the log. *)
Definition emits {A : Type} (allowed : Call -> Prop) (m : M A) : Prop :=
  forall w, exists l, calls (snd (m w)) = calls w ++ l /\ Forall allowed l.

Definition is_sleep (c : Call) : Prop := exists n, c = CallSleep n.

(** Attempt number [k] (from 0) of a query started at step [t] is the first
    that returns, with answer [x]. *)
Definition first_answer {A : Type} (script : nat -> outcome A) (t k : nat)
  (x : A) : Prop :=
  script (k + t)%nat = Returned x /\
  forall j, (j < k)%nat -> exists e, script (j + t)%nat = Raised e.

(** The attempts [0 .. n-1] of a query started at step [t] all raise. *)
Definition all_raise {A : Type} (script : nat -> outcome A) (t n : nat) : Prop :=
  forall j, (j < n)%nat -> exists e, script (j + t)%nat = Raised e.

(** ** More concrete worlds *)

Module Cases.

(** A client whose calls all raise before step [up] and succeed from then
    on; the price is 1.0 and the wallet holds 10. *)
Definition flaky (up : nat) : Gateway :=
  mkGateway (fun t => if (t <? up)%nat then Raised Transient else Returned (Some 1))
            (fun t => if (t <? up)%nat then Raised Transient else Returned 10)
            (fun t => if (t <? up)%nat then Raised Transient else Returned true)
            (fun t => if (t <? up)%nat then Raised Transient else Returned false)
            (fun t => inject_Z (1000 + Z.of_nat t))
            (fun _ => Scenario.bought_at).

(** The stake list of a wallet with two positions. *)
Definition stakes : list stake_entry :=
  [mkStakeEntry 1 "validator-a" 7; mkStakeEntry 73 "validator-a" (25 # 10);
   mkStakeEntry 73 "validator-b" 4].

Definition stake_script (up : nat) : nat -> outcome (list stake_entry) :=
  fun t => if (t <? up)%nat then Raised Transient else Returned stakes.

End Cases.


(** From world [w], [m] only adds calls satisfying [allowed] to the log. *)
Definition emits_at {A : Type} (w : World) (allowed : Call -> Prop) (m : M A)
  : Prop :=
  exists l, calls (snd (m w)) = calls w ++ l /\ Forall allowed l.

Definition sleep_or_stake (amount : Q) (c : Call) : Prop :=
  is_sleep c \/ c = CallAddStake amount.

(** A sleep, or a withdrawal of one of the listed amounts. *)
Definition sleep_or_unstake (amounts : list Q) (c : Call) : Prop :=
  is_sleep c \/ exists a, In a amounts /\ c = CallUnstake a.

(** The [alpha_amount]s of the active list. *)
Definition alphas (b : Bot) : list Q := map alpha_amount (active_positions b).

(** Realized profit a dict carries. *)
Definition profit_of (p : position) : Q :=
  match sale_info p with
  | Some s => profit_tao s
  | None => 0
  end.

(** Sum of [profit_tao] over a list of trades. *)
Fixpoint realized_sum (l : list position) : Q :=
  match l with
  | [] => 0
  | p :: r => profit_of p + realized_sum r
  end.

(** A trade record whose sale keys agree with each other. *)
Definition sale_consistent (p : position) : Prop :=
  status p = Sold /\
  exists s, sale_info p = Some s /\
    tao_received s == alpha_amount p * sell_price s /\
    profit_tao s == tao_received s - tao_invested p /\
    profit_percent_actual s == profit_tao s / tao_invested p * 100.

Definition books_balanced (b : Bot) : Prop :=
  total_profit_realized b == realized_sum (completed_trades b) /\
  successful_sells b = Z.of_nat (List.length (completed_trades b)) /\
  Forall sale_consistent (completed_trades b).

(** Two dicts that agree on every key but the timestamps. *)
Definition same_numbers (p q : position) : Prop :=
  pos_id p = pos_id q /\ buy_price p = buy_price q /\
  sell_target_price p = sell_target_price q /\
  alpha_amount p = alpha_amount q /\ tao_invested p = tao_invested q /\
  status p = status q /\ profit_percent p = profit_percent q /\
  match sale_info p, sale_info q with
  | Some s, Some s' =>
      sell_price s = sell_price s' /\ tao_received s = tao_received s' /\
      profit_tao s = profit_tao s' /\
      profit_percent_actual s = profit_percent_actual s'
  | None, None => True
  | _, _ => False
  end.

(** Worlds the running bot passes through between two cycles: it starts
    with no state file, runs whole cycles, and may be stopped and started
    again between them. *)
Inductive cycle_reachable (cfg : Config) (gw : Gateway) : World -> Prop :=
| cyc_start : forall t, cycle_reachable cfg gw (mkWorld init_bot None t [])
| cyc_cycle : forall w,
    cycle_reachable cfg gw w ->
    cycle_reachable cfg gw (snd (micro_grid_cycle cfg gw w))
| cyc_restart : forall w,
    cycle_reachable cfg gw w -> cycle_reachable cfg gw (restart w).

(** The two tests of the cycle that stand before a purchase. *)
Definition gates_open (cfg : Config) (b : Bot) : Prop :=
  is_at_investment_cap cfg b = false /\
  (Z.of_nat (List.length (active_positions b)) < max_positions cfg)%Z.

(** The most the cycle lets the committed total reach. *)
Definition commitment_bound (cfg : Config) : Q :=
  max_investment cfg + cap_tolerance cfg + dca_amount cfg.

Definition commitment_bounded (cfg : Config) (b : Bot) : Prop :=
  total_invested b < commitment_bound cfg /\
  Forall (fun p => 0 <= tao_invested p) (active_positions b).

Definition positions_bounded (cfg : Config) (b : Bot) : Prop :=
  (Z.of_nat (List.length (active_positions b)) <= Z.max 0 (max_positions cfg))%Z.

(** A property of the ledger that also holds of what a restart would load. *)
Definition kept (P : Bot -> Prop) (b : Bot) (d : option Snapshot) : Prop :=
  P b /\ P (saved_bot d).

Definition failed_sells_counted (b : Bot) : Prop := (0 <= failed_sells b)%Z.

(** A call that is no deposit, or a deposit of [amount]. *)
Definition stakes_only (amount : Q) (c : Call) : Prop :=
  forall a, c = CallAddStake a -> a = amount.

(** From world [w], [m] adds at most [n] [add_stake] calls to the log, each
    of them of [amount]. *)
Definition spends_at {A : Type} (w : World) (n : nat) (amount : Q) (m : M A)
  : Prop :=
  exists l, calls (snd (m w)) = calls w ++ l /\
            Forall (stakes_only amount) l /\ (stake_attempts l <= n)%nat.

(** One of the three tests in front of a purchase fails: the cap gate, the
    position limit, or the time gate. *)
Definition gate_closed (cfg : Config) (gw : Gateway) (w : World) : Prop :=
  is_at_investment_cap cfg (bot w) = true \/
  (max_positions cfg <= Z.of_nat (List.length (active_positions (bot w))))%Z \/
  fst (is_time_for_dca cfg gw w) = Ok false.

(** ** The configuration check ([test_sn73_config.py]) *)














(** Every price the network quotes for the subnet is positive. *)
Definition positive_quotes (gw : Gateway) : Prop :=
  forall t p, all_subnets gw t = Returned (Some p) -> 0 < p.

(** The least the sell-side guard accepts, as a fraction of the price it
    judges against. *)
Definition sell_floor (cfg : Config) : Q :=
  1 - getattr (price_check_tolerance cfg) 1 / 100.

(** An open position that holds what was paid for it, and whose target, less
    the tolerance of the sell-side guard, still covers its entry price. *)
Definition covered (cfg : Config) (p : position) : Prop :=
  0 < buy_price p /\ 0 <= alpha_amount p /\
  tao_invested p == alpha_amount p * buy_price p /\
  buy_price p <= sell_target_price p * sell_floor cfg.

Definition never_at_a_loss (cfg : Config) (b : Bot) : Prop :=
  Forall (fun p => status p = Active -> covered cfg p) (active_positions b) /\
  Forall (fun p => 0 <= profit_of p) (completed_trades b) /\
  0 <= total_profit_realized b.

(** ** The session summary *)

(** [a // b] on floats. *)
Definition py_floordiv (a b : Q) : Q := inject_Z (Qfloor (a / b)).

(** [a % b] on floats. *)
Definition py_mod (a b : Q) : Q := a - b * py_floordiv a b.

(** [int(a)]: truncation towards zero. *)
Definition py_int (a : Q) : Z :=
  if Qle_bool 0 a then Qfloor a else Qceiling a.

(** The [hours], [minutes] and [seconds] of [print_session_summary]. *)
Definition session_clock (session_duration : Q) : Z * Z * Z :=
  let hours := py_int (py_floordiv session_duration 3600) in
  let minutes := py_int (py_floordiv (py_mod session_duration 3600) 60) in
  let seconds := py_int (py_mod session_duration 60) in
  (hours, minutes, seconds).

(** * Properties *)

(** ** Comparisons on rationals *)

Lemma Qltb_lt (a b : Q) : Qltb a b = true <-> a < b.
Proof.
  unfold Qltb. rewrite negb_true_iff. split; intro H.
  - apply Qnot_le_lt. intro Hle. apply Qle_bool_iff in Hle. congruence.
  - destruct (Qle_bool b a) eqn:E; [|reflexivity].
    apply Qle_bool_iff in E. exfalso. apply (Qlt_not_le _ _ H E).
Qed.

Lemma Qltb_ge (a b : Q) : Qltb a b = false <-> b <= a.
Proof.
  unfold Qltb. rewrite negb_false_iff. apply Qle_bool_iff.
Qed.

(** ** Printing and parsing timestamps *)

Lemma digit_val_char (d : N) : (d < 10)%N -> digit_val (digit_char d) = Some d.
Proof.
  intro H.
  assert (E : In d [0; 1; 2; 3; 4; 5; 6; 7; 8; 9]%N).
  { simpl. lia. }
  simpl in E.
  repeat (destruct E as [E | E]; [subst d; reflexivity|]).
  contradiction.
Qed.

Lemma append_assoc (a b c : string) : ((a ++ b) ++ c = a ++ (b ++ c))%string.
Proof.
  induction a as [|x a IH]; simpl; [reflexivity | now rewrite IH].
Qed.

Lemma take_num_zpad_more (w : nat) :
  forall (k : nat) (n acc : N) (rest : string),
    take_num (w + k) acc (zpad w n ++ rest) =
    take_num k (acc * 10 ^ N.of_nat w + n mod 10 ^ N.of_nat w)%N rest.
Proof.
  induction w as [|w IH]; intros k n acc rest.
  - simpl. rewrite N.mod_1_r. f_equal. lia.
  - cbn [zpad]. rewrite append_assoc. cbn [append].
    replace (S w + k)%nat with (w + S k)%nat by lia.
    rewrite IH. cbn [take_num].
    rewrite digit_val_char by (apply N.mod_lt; lia).
    f_equal.
    rewrite Nat2N.inj_succ, N.pow_succ_r'.
    rewrite (N.Div0.mod_mul_r n 10 (10 ^ N.of_nat w)). lia.
Qed.

Lemma take_num_zpad (w : nat) (n : N) (rest : string) :
  (n < 10 ^ N.of_nat w)%N ->
  take_num w 0 (zpad w n ++ rest) = Some (n, rest).
Proof.
  intro H.
  replace w with (w + 0)%nat at 1 by lia.
  rewrite take_num_zpad_more. cbn [take_num].
  rewrite N.mod_small by exact H. f_equal.
Qed.

Lemma take_num_zpad_end (w : nat) (n : N) :
  (n < 10 ^ N.of_nat w)%N ->
  take_num w 0 (zpad w n) = Some (n, EmptyString).
Proof.
  intro H.
  replace (zpad w n) with (zpad w n ++ EmptyString)%string.
  - now apply take_num_zpad.
  - induction (zpad w n) as [|c s IH]; simpl; [reflexivity | now rewrite IH].
Qed.

Lemma zpad_S_not_empty (w : nat) (n : N) : zpad (S w) n <> EmptyString.
Proof.
  cbn [zpad]. destruct (zpad w (n / 10)); discriminate.
Qed.

(** [fromisoformat] undoes [str] on every [datetime] object. *)
Lemma fromisoformat_str (d : datetime) :
  valid_datetimeb d = true -> fromisoformat (datetime_str d) = Some d.
Proof.
  intro V. pose proof V as V'.
  unfold valid_datetimeb in V.
  repeat (apply andb_prop in V; destruct V as [V ?]).
  repeat match goal with
         | H : (_ <=? _)%N = true |- _ => apply N.leb_le in H
         | H : (_ <? _)%N = true |- _ => apply N.ltb_lt in H
         end.
  assert (Hd : (day d < 100)%N).
  { assert (days_in_month (year d) (month d) <= 31)%N; [|lia].
    unfold days_in_month.
    repeat match goal with |- context [if ?c then _ else _] => destruct c end; lia. }
  destruct d as [y mo dd h mi se us]; cbn [year month day hour minute second microsecond] in *.
  unfold datetime_str, fromisoformat.
  cbn [year month day hour minute second microsecond].
  rewrite take_num_zpad by (cbn; lia). cbn [append expect Ascii.eqb Bool.eqb].
  rewrite take_num_zpad by (cbn; lia). cbn [append expect Ascii.eqb Bool.eqb].
  rewrite take_num_zpad by (cbn; lia). cbn [append skip_char].
  rewrite take_num_zpad by (cbn; lia). cbn [append expect Ascii.eqb Bool.eqb].
  rewrite take_num_zpad by (cbn; lia). cbn [append expect Ascii.eqb Bool.eqb].
  rewrite take_num_zpad by (cbn; lia).
  destruct (N.eqb_spec us 0) as [E | E].
  - subst us. cbn [parse_fraction]. now rewrite V'.
  - assert (F : parse_fraction (String "." (zpad 6 us)) = Some us).
    { unfold parse_fraction. cbn [expect Ascii.eqb Bool.eqb].
      rewrite take_num_zpad_end by (cbn; lia). reflexivity. }
    rewrite F. now rewrite V'.
Qed.

(** ** The state file round trip on settled ledgers *)

Lemma revive_json_timestamp (t : timestamp) :
  valid_timestamp t -> revive (json_timestamp t) = Some t.
Proof.
  destruct t as [d | s]; simpl; [|contradiction].
  intro V. now rewrite fromisoformat_str.
Qed.

Lemma revive_active_json (p : position) :
  in_memory_position p -> sale_info p = None ->
  revive_active (json_position p) = (p, true).
Proof.
  intros [Hc _] Hs. destruct p as [i bp st al ti ct s pp si].
  simpl in *. subst si. unfold revive_active. simpl.
  now rewrite revive_json_timestamp.
Qed.

Lemma revive_trade_json (p : position) :
  in_memory_position p -> revive_trade (json_position p) = (p, true).
Proof.
  intros [Hc Hs]. destruct p as [i bp st al ti ct s pp si].
  simpl in *. unfold revive_trade. simpl.
  rewrite revive_json_timestamp by exact Hc.
  destruct si as [[sp tr pt ppa sts]|]; simpl in *; [|reflexivity].
  now rewrite revive_json_timestamp.
Qed.

Lemma revive_all_json (body : position -> position * bool) (P : position -> Prop)
  (l : list position) :
  (forall p, P p -> body (json_position p) = (p, true)) ->
  Forall P l ->
  revive_all body (map json_position l) = (l, true).
Proof.
  intros Hbody H. induction H as [|p r Hp Hr IH]; simpl; [reflexivity|].
  now rewrite (Hbody p Hp), IH.
Qed.

(** Restoring the snapshot of a settled ledger gives the ledger back. *)
Lemma restore_snapshot_settled (b : Bot) : settled b -> restore (snapshot b) = b.
Proof.
  intros [Ha Hc]. unfold restore, snapshot. simpl.
  rewrite (revive_all_json revive_active
             (fun p => in_memory_position p /\ sale_info p = None)).
  - rewrite (revive_all_json revive_trade in_memory_position).
    + now destruct b.
    + exact revive_trade_json.
    + exact Hc.
  - intros p [H1 H2]. now apply revive_active_json.
  - exact Ha.
Qed.

(** ** Rules of the monad *)

Section MonadRules.

Context {A B : Type}.

Lemma untouched_ret (a : A) : untouched (ret a).
Proof. intro w. simpl. auto. Qed.

Lemma untouched_raise : untouched (@raise A).
Proof. intro w. simpl. auto. Qed.

Lemma untouched_bind (m : M A) (k : A -> M B) :
  untouched m -> (forall a, untouched (k a)) -> untouched (bind m k).
Proof.
  intros Hm Hk w. unfold bind.
  specialize (Hm w). destruct (m w) as [[a|] w1]; simpl in Hm.
  - specialize (Hk a w1). destruct Hm as (E1 & E2 & E3), Hk as (F1 & F2 & F3).
    repeat split; [congruence | congruence | lia].
  - exact Hm.
Qed.

Lemma untouched_try_except (m h : M A) :
  untouched m -> untouched h -> untouched (try_except m h).
Proof.
  intros Hm Hh w. unfold try_except.
  specialize (Hm w). destruct (m w) as [[a|] w1]; simpl in Hm.
  - exact Hm.
  - specialize (Hh w1). destruct Hm as (E1 & E2 & E3), Hh as (F1 & F2 & F3).
    repeat split; [congruence | congruence | lia].
Qed.

Lemma untouched_ask (script : nat -> outcome A) : untouched (ask script).
Proof.
  intro w. unfold ask. destruct (script (tick w)); simpl; auto.
Qed.

Lemma untouched_observe (script : nat -> A) : untouched (observe script).
Proof. intro w. simpl. auto. Qed.

Lemma wp_ret (a : A) (post : result A -> World -> Prop) (w : World) :
  post (Ok a) w -> wp (ret a) post w.
Proof. exact (fun H => H). Qed.

Lemma wp_raise (post : result A -> World -> Prop) (w : World) :
  post Exn w -> wp raise post w.
Proof. exact (fun H => H). Qed.

Lemma wp_bind (m : M A) (k : A -> M B) (post : result B -> World -> Prop)
  (w : World) :
  wp m (fun r w' => match r with
                    | Ok a => wp (k a) post w'
                    | Exn => post Exn w'
                    end) w ->
  wp (bind m k) post w.
Proof.
  unfold wp, bind. destruct (m w) as [[a|] w1]; simpl; auto.
Qed.

Lemma wp_try_except (m h : M A) (post : result A -> World -> Prop) (w : World) :
  wp m (fun r w' => match r with
                    | Ok a => post (Ok a) w'
                    | Exn => wp h post w'
                    end) w ->
  wp (try_except m h) post w.
Proof.
  unfold wp, try_except. destruct (m w) as [[a|] w1]; simpl; auto.
Qed.

Lemma wp_untouched (m : M A) (post : result A -> World -> Prop) (w : World) :
  untouched m ->
  (forall r w', bot w' = bot w -> disk w' = disk w ->
                (tick w <= tick w')%nat -> post r w') ->
  wp m post w.
Proof.
  intros Hm H. unfold wp. destruct (Hm w) as (E1 & E2 & E3). now apply H.
Qed.

Lemma wp_observe (script : nat -> A) (post : result A -> World -> Prop)
  (w : World) :
  post (Ok (script (tick w))) (step w) -> wp (observe script) post w.
Proof. exact (fun H => H). Qed.

End MonadRules.

Lemma untouched_get_bot : untouched get_bot.
Proof. intro w. simpl. auto. Qed.

Lemma untouched_log_call (c : Call) : untouched (log_call c).
Proof. intro w. simpl. auto. Qed.

Lemma untouched_sleep (n : Z) : untouched (sleep n).
Proof. apply untouched_log_call. Qed.

Lemma wp_get_bot (post : result Bot -> World -> Prop) (w : World) :
  post (Ok (bot w)) w -> wp get_bot post w.
Proof. exact (fun H => H). Qed.

Lemma wp_modify_bot (f : Bot -> Bot) (post : result unit -> World -> Prop)
  (w : World) :
  post (Ok tt) (mkWorld (f (bot w)) (disk w) (tick w) (calls w)) ->
  wp (modify_bot f) post w.
Proof. exact (fun H => H). Qed.

Lemma wp_save_state (post : result unit -> World -> Prop) (w : World) :
  post (Ok tt) (mkWorld (bot w) (Some (snapshot (bot w))) (tick w) (calls w)) ->
  wp save_state post w.
Proof. exact (fun H => H). Qed.

Create HintDb untouched.

#[local] Hint Resolve untouched_ret untouched_raise untouched_ask
  untouched_observe untouched_get_bot untouched_log_call untouched_sleep
  : untouched.

Ltac untouched_step :=
  first [ solve [auto with untouched]
        | apply untouched_bind; [| intro ]
        | apply untouched_try_except ].

(** The retry loops: the last attempt ends the loop, the others sleep and
    go round again. *)
Ltac retry_loop_untouched n IH :=
  destruct n as [|n];
  [ apply untouched_try_except; repeat untouched_step
  | apply untouched_try_except;
    [ repeat untouched_step
    | apply untouched_bind; [auto with untouched | intros _; exact IH] ] ].

(** ** The helpers that only talk to the outside world *)

Section Helpers.

Variable cfg : Config.
Variable gw : Gateway.

Lemma untouched_get_wallet_balance_loop (n : nat) :
  untouched (get_wallet_balance_loop gw n).
Proof.
  induction n as [|n IH]; cbn [get_wallet_balance_loop].
  - auto with untouched.
  - retry_loop_untouched n IH.
Qed.

Lemma untouched_get_wallet_balance : untouched (get_wallet_balance gw).
Proof. apply untouched_get_wallet_balance_loop. Qed.

Lemma untouched_get_subnet_info_loop (n : nat) :
  untouched (get_subnet_info_loop gw n).
Proof.
  induction n as [|n IH]; cbn [get_subnet_info_loop].
  - auto with untouched.
  - retry_loop_untouched n IH.
Qed.

Lemma untouched_get_subnet_info : untouched (get_subnet_info gw).
Proof. apply untouched_get_subnet_info_loop. Qed.

Lemma untouched_stake_sn73_loop (n : nat) (a : Q) :
  untouched (stake_sn73_loop gw n a).
Proof.
  induction n as [|n IH]; cbn [stake_sn73_loop].
  - auto with untouched.
  - retry_loop_untouched n IH.
Qed.

Lemma untouched_unstake_sn73_loop (n : nat) (a : Q) :
  untouched (unstake_sn73_loop gw n a).
Proof.
  induction n as [|n IH]; cbn [unstake_sn73_loop].
  - auto with untouched.
  - retry_loop_untouched n IH.
Qed.

Lemma untouched_check_price_slippage (p : Q) (trade : trade_type) :
  untouched (check_price_slippage cfg gw p trade).
Proof.
  unfold check_price_slippage.
  apply untouched_try_except; [|auto with untouched].
  apply untouched_bind; [apply untouched_get_subnet_info|].
  intros [q|]; [|auto with untouched].
  repeat match goal with
         | |- untouched (if ?c then _ else _) => destruct c
         | |- untouched (match ?t with Buy => _ | Sell => _ end) => destruct t
         end; auto with untouched.
Qed.

Lemma untouched_is_time_for_dca : untouched (is_time_for_dca cfg gw).
Proof.
  unfold is_time_for_dca. repeat untouched_step.
  destruct (Qeq_bool _ _); auto with untouched.
Qed.

Lemma untouched_get_time_until_next_dca :
  untouched (get_time_until_next_dca cfg gw).
Proof.
  unfold get_time_until_next_dca. repeat untouched_step.
  destruct (Qeq_bool _ _); repeat untouched_step.
Qed.

Lemma untouched_print_status : untouched (print_status cfg gw).
Proof.
  unfold print_status. repeat untouched_step.
  destruct (Qeq_bool _ _); [auto with untouched|].
  apply untouched_bind; [apply untouched_get_wallet_balance|].
  intros _. destruct (completed_trades _); [auto with untouched|].
  destruct (_ =? _)%Z; auto with untouched.
Qed.

(** The three ways one round of the deposit loop can go. *)
Lemma stake_sn73_loop_returned (n : nat) (a : Q) (w : World) (res : bool) :
  add_stake gw (tick w) = Returned res ->
  stake_sn73_loop gw (S n) a w =
  (Ok true, mkWorld (bot w) (disk w) (S (tick w)) (calls w ++ [CallAddStake a])).
Proof.
  intro E. cbn [stake_sn73_loop].
  unfold try_except, bind, log_call, ask. cbn [tick]. rewrite E. reflexivity.
Qed.

Lemma stake_sn73_loop_last (a : Q) (w : World) (e : failure) :
  add_stake gw (tick w) = Raised e ->
  stake_sn73_loop gw 1 a w =
  (Ok false, mkWorld (bot w) (disk w) (S (tick w)) (calls w ++ [CallAddStake a])).
Proof.
  intro E. cbn [stake_sn73_loop].
  unfold try_except, bind, log_call, ask. cbn [tick]. rewrite E. reflexivity.
Qed.

Lemma stake_sn73_loop_retry (n : nat) (a : Q) (w : World) (e : failure) :
  add_stake gw (tick w) = Raised e ->
  stake_sn73_loop gw (S (S n)) a w =
  stake_sn73_loop gw (S n) a
    (mkWorld (bot w) (disk w) (S (tick w))
             (calls w ++ [CallAddStake a; CallSleep 10])).
Proof.
  intro E.
  change (stake_sn73_loop gw (S (S n)) a) with
    (try_except
       (log_call (CallAddStake a) ;;; result <- ask (add_stake gw) ;; ret true)
       (sleep 10 ;;; stake_sn73_loop gw (S n) a)).
  unfold try_except at 1. unfold bind at 1 2. unfold log_call at 1.
  unfold ask. cbn [tick]. rewrite E. cbn [step bot disk tick calls].
  unfold bind, sleep, log_call, step. cbn [bot disk tick calls].
  now rewrite <- app_assoc.
Qed.

(** A deposit reported as done means some attempt returned. *)
Lemma stake_sn73_loop_true (n : nat) (a : Q) (w : World) :
  fst (stake_sn73_loop gw n a w) = Ok true ->
  exists t res, (tick w <= t < tick (snd (stake_sn73_loop gw n a w)))%nat /\
                add_stake gw t = Returned res.
Proof.
  revert w. induction n as [|n IH]; intros w.
  - discriminate.
  - destruct (add_stake gw (tick w)) as [res|e] eqn:E.
    + rewrite (stake_sn73_loop_returned n a w res E). intros _.
      exists (tick w), res. cbn. split; [lia | exact E].
    + destruct n as [|n].
      * rewrite (stake_sn73_loop_last a w e E). discriminate.
      * rewrite (stake_sn73_loop_retry n a w e E). intro H.
        destruct (IH _ H) as (t & res & Ht & Hr).
        exists t, res. cbn [tick] in Ht. split; [lia | exact Hr].
Qed.

End Helpers.

(** ** What a purchase and a sale do to the ledger *)

Section Outcomes.

Variable cfg : Config.
Variable gw : Gateway.

Lemma wp_stake_sn73 (a : Q) (post : result bool -> World -> Prop) (w : World) :
  (forall r w', bot w' = bot w -> disk w' = disk w -> (tick w <= tick w')%nat ->
                (r = Ok true ->
                 exists t res, (tick w <= t < tick w')%nat /\
                               add_stake gw t = Returned res) ->
                post r w') ->
  wp (stake_sn73 gw a) post w.
Proof.
  intro H. unfold wp, stake_sn73.
  destruct (untouched_stake_sn73_loop gw 3 a w) as (E1 & E2 & E3).
  apply H; auto. apply stake_sn73_loop_true.
Qed.

(** Bind a call that leaves the ledger alone, naming the world after it. *)
Ltac wp_call lemma :=
  apply wp_bind; apply wp_untouched; [ apply lemma | intros ? ? ? ? ? ].

Lemma execute_dca_purchase_outcome (w : World) :
  wp (execute_dca_purchase cfg gw) (purchase_outcome cfg gw w) w.
Proof.
  unfold execute_dca_purchase.
  apply wp_try_except.
  wp_call (untouched_get_subnet_info gw).
  destruct r as [[current_price|]|];
    try (apply wp_ret; apply purchase_skipped; congruence).
  destruct (match max_entry_price cfg with
            | Some ceiling => Qltb ceiling current_price
            | None => false
            end);
    [apply wp_ret; apply purchase_skipped; congruence|].
  wp_call (untouched_get_wallet_balance gw).
  destruct r as [wallet_balance|];
    [|apply wp_ret; apply purchase_skipped; congruence].
  destruct (Qltb _ _);
    [apply wp_ret; apply purchase_skipped; congruence|].
  destruct (Qeq_bool current_price 0);
    [apply wp_raise; apply wp_ret; apply purchase_skipped; congruence|].
  wp_call (untouched_check_price_slippage cfg gw current_price Buy).
  destruct r as [[fresh_price|why]|];
    try (apply wp_ret; apply purchase_skipped; congruence).
  destruct (Qeq_bool fresh_price 0) eqn:Efresh;
    [apply wp_raise; apply wp_ret; apply purchase_skipped; congruence|].
  apply wp_bind. apply wp_stake_sn73. intros r w4 Hb Hd Ht Hret.
  destruct r as [[|]|];
    try (apply wp_ret; apply purchase_skipped; congruence).
  destruct (Hret eq_refl) as (t & res & Hrange & Hres).
  apply wp_bind, wp_observe. apply wp_bind, wp_observe.
  apply wp_bind, wp_modify_bot. apply wp_bind, wp_save_state. apply wp_ret.
  eapply purchase_recorded with (t := t) (res := res) (price := fresh_price).
  - cbn [bot step]. f_equal. congruence.
  - reflexivity.
  - reflexivity.
  - cbn [tick step]. lia.
  - exact Hres.
  - intro E. apply Qeq_bool_iff in E. congruence.
  - reflexivity.
Qed.

End Outcomes.

Section SellOutcome.

Variable cfg : Config.
Variable gw : Gateway.

Ltac wp_call lemma :=
  apply wp_bind; apply wp_untouched; [ apply lemma | intros ? ? ? ? ? ].

Ltac nothing_sold :=
  apply sell_nothing; [congruence | congruence | intros ? [= <-]; reflexivity].

Lemma sell_iteration_outcome (i : nat) (st : Q * list position) (w : World) :
  wp (sell_iteration cfg gw i st) (sell_outcome i st w) w.
Proof.
  unfold sell_iteration. destruct st as [current_price positions_to_remove].
  apply wp_bind, wp_get_bot.
  destruct (nth_error (active_positions (bot w)) i) as [p|] eqn:Hnth;
    [|apply wp_ret; nothing_sold].
  destruct (status p) eqn:Hstatus; [|apply wp_ret; nothing_sold].
  destruct (Qle_bool (sell_target_price p) current_price).
  - wp_call (untouched_check_price_slippage cfg gw current_price Sell).
    destruct r as [[fresh_price|why]|];
      [ | apply wp_ret; nothing_sold
        | apply sell_nothing; [congruence | congruence | discriminate] ].
    wp_call (untouched_unstake_sn73_loop gw 3 (alpha_amount p)).
    destruct r as [[|]|].
    + destruct (Qeq_bool (tao_invested p) 0) eqn:Ezero.
      * apply wp_raise. apply sell_nothing; [congruence | congruence | discriminate].
      * apply wp_bind, wp_observe. apply wp_bind, wp_modify_bot.
        apply wp_bind, wp_save_state. apply wp_ret.
        eapply sell_recorded with (p := p).
        -- exact Hnth.
        -- exact Hstatus.
        -- intro E. apply Qeq_bool_iff in E. congruence.
        -- cbn [bot step]. f_equal. congruence.
        -- reflexivity.
        -- reflexivity.
    + apply wp_bind, wp_modify_bot. apply wp_ret.
      apply sell_failed; cbn [bot disk snd];
        [congruence | congruence | intros ? [= <-]; reflexivity].
    + apply sell_nothing; [congruence | congruence | discriminate].
  - destruct (stop_loss_percent cfg) as [sl|]; [|apply wp_ret; nothing_sold].
    destruct (Qltb 0 sl); [|apply wp_ret; nothing_sold].
    destruct (Qle_bool _ _); apply wp_ret; nothing_sold.
Qed.

End SellOutcome.

(** ** Invariants along every run *)

Section Invariant.

Context (I : Bot -> option Snapshot -> Prop) {HI : world_invariant I}.
Variable cfg : Config.
Variable gw : Gateway.

Let inv (w : World) : Prop := I (bot w) (disk w).

Lemma inv_same_ledger (w w' : World) :
  bot w' = bot w -> disk w' = disk w -> inv w -> inv w'.
Proof.
  unfold inv. intros -> ->. exact (fun H => H).
Qed.

Lemma inv_untouched {A : Type} (m : M A) (w : World) :
  untouched m -> inv w -> inv (snd (m w)).
Proof.
  intros Hm H. destruct (Hm w) as (Hb & Hd & _).
  exact (inv_same_ledger _ _ Hb Hd H).
Qed.

Lemma inv_execute_dca_purchase (w : World) :
  inv w -> inv (snd (execute_dca_purchase cfg gw w)).
Proof.
  intro H. destruct (execute_dca_purchase_outcome cfg gw w)
    as [Hb Hd | now created price alpha t res Hb Hp _ _ _ _ _].
  - exact (inv_same_ledger _ _ Hb Hd H).
  - unfold inv, persisted in *. rewrite Hp, Hb.
    now apply wi_purchase with (d := disk w).
Qed.

Lemma inv_sell_iteration (i : nat) (st : Q * list position) (w : World) :
  inv w ->
  inv (snd (sell_iteration cfg gw i st w)) /\
  (forall st', fst (sell_iteration cfg gw i st w) = Ok st' ->
               all_sold (snd st) -> all_sold (snd st')).
Proof.
  intro H. destruct (sell_iteration_outcome cfg gw i st w)
    as [Hb Hd Hr | Hb Hd Hr | p price sold_at Hnth Hact _ Hb Hp Hr].
  - split; [exact (inv_same_ledger _ _ Hb Hd H)|].
    intros st' E S. now rewrite (Hr st' E).
  - split.
    + unfold inv in *. rewrite Hb, Hd. now apply wi_failed.
    + intros st' E S. now rewrite (Hr st' E).
  - split.
    + unfold inv, persisted in *. rewrite Hp, Hb.
      now apply wi_sale with (d := disk w).
    + intros st' E S. rewrite Hr in E. injection E as <-.
      cbn [snd]. apply Forall_app. split; [exact S|].
      constructor; [reflexivity | constructor].
Qed.

Lemma inv_sell_loop (indices : list nat) :
  forall (st : Q * list position) (w : World),
    inv w ->
    inv (snd (sell_loop cfg gw indices st w)) /\
    (forall st', fst (sell_loop cfg gw indices st w) = Ok st' ->
                 all_sold (snd st) -> all_sold (snd st')).
Proof.
  induction indices as [|i rest IH]; intros st w H; cbn [sell_loop].
  - split; [exact H|]. intros st' [= <-] S. exact S.
  - unfold bind.
    destruct (inv_sell_iteration i st w H) as [H1 H2].
    destruct (sell_iteration cfg gw i st w) as [[st1|] w1]; cbn [fst snd] in *.
    + destruct (IH st1 w1 H1) as [H3 H4]. split; [exact H3|].
      intros st' E S. apply (H4 st' E). now apply H2.
    + split; [exact H1|]. discriminate.
Qed.

Lemma inv_remove_sold (l : list position) :
  forall w, all_sold l -> inv w -> inv (snd (remove_sold l w)).
Proof.
  induction l as [|p rest IH]; intros w S H; cbn [remove_sold].
  - exact H.
  - inversion S as [|? ? Hp Hrest]; subst.
    unfold bind, get_bot, modify_bot.
    destruct (list_remove p (active_positions (bot w))) as [l'|] eqn:E;
      cbn [raise snd]; [|exact H].
    apply IH; [exact Hrest|].
    unfold inv in *. cbn [bot disk]. now apply (wi_remove p).
Qed.

Lemma inv_check_and_execute_sells (w : World) :
  inv w -> inv (snd (check_and_execute_sells cfg gw w)).
Proof.
  intro H.
  change (wp (check_and_execute_sells cfg gw) (fun _ w' => inv w') w).
  unfold check_and_execute_sells.
  apply wp_bind, wp_get_bot.
  destruct (active_positions (bot w)) as [|p0 l0]; [exact H|].
  apply wp_try_except.
  apply wp_bind. apply wp_untouched; [apply untouched_get_subnet_info|].
  intros r w1 Hb Hd _.
  pose proof (inv_same_ledger _ _ Hb Hd H) as H1.
  destruct r as [[current_price|]|]; [ | exact H1 | exact H1 ].
  apply wp_bind. unfold wp at 1.
  match goal with
  | |- context [sell_loop cfg gw ?ix ?st w1] =>
      destruct (inv_sell_loop ix st w1 H1) as [H2 H3];
      destruct (sell_loop cfg gw ix st w1) as [[st'|] w2]
  end; cbn [fst snd] in *; [|exact H2].
  assert (S : all_sold (snd st')) by (apply H3; [reflexivity | constructor]).
  unfold wp. pose proof (inv_remove_sold (snd st') w2 S H2) as H4.
  destruct (remove_sold (snd st') w2) as [[u|] w3]; exact H4.
Qed.

Lemma inv_dca_phase (w : World) :
  inv w -> inv (snd (dca_phase cfg gw w)).
Proof.
  intro H.
  change (wp (dca_phase cfg gw) (fun _ w' => inv w') w). unfold dca_phase.
  apply wp_bind, wp_get_bot.
  destruct (negb _); [|exact H].
  destruct (_ <? _)%Z; [|exact H].
  apply wp_bind. apply wp_untouched; [apply untouched_is_time_for_dca|].
  intros r w1 Hb Hd _.
  pose proof (inv_same_ledger _ _ Hb Hd H) as H1.
  destruct r as [[|]|]; [ | | exact H1 ].
  - apply wp_bind. unfold wp at 1.
    pose proof (inv_execute_dca_purchase w1 H1) as H2.
    destruct (execute_dca_purchase cfg gw w1) as [[u|] w2]; exact H2.
  - apply wp_bind. apply wp_untouched; [apply untouched_get_time_until_next_dca|].
    intros r w2 Hb2 Hd2 _.
    pose proof (inv_same_ledger _ _ Hb2 Hd2 H1) as H2.
    destruct r; exact H2.
Qed.

Lemma inv_micro_grid_cycle (w : World) :
  inv w -> inv (snd (micro_grid_cycle cfg gw w)).
Proof.
  intro H.
  change (wp (micro_grid_cycle cfg gw) (fun _ w' => inv w') w).
  unfold micro_grid_cycle.
  apply wp_try_except. apply wp_bind. unfold wp at 1.
  pose proof (inv_dca_phase w H) as H1.
  destruct (dca_phase cfg gw w) as [[u|] w1]; cbn [fst snd] in *; [|exact H1].
  apply wp_bind. unfold wp at 1.
  pose proof (inv_check_and_execute_sells w1 H1) as H2.
  destruct (check_and_execute_sells cfg gw w1) as [[u'|] w2];
    cbn [fst snd] in *; [|exact H2].
  apply wp_bind. apply wp_untouched; [apply untouched_print_status|].
  intros r w3 Hb Hd _.
  pose proof (inv_same_ledger _ _ Hb Hd H2) as H3.
  destruct r; exact H3.
Qed.

Lemma restart_ledger (w : World) :
  bot (restart w) = saved_bot (disk w) /\ disk (restart w) = disk w.
Proof.
  unfold restart, load_state, saved_bot. cbn [disk]. now destruct (disk w).
Qed.

Lemma inv_restart (w : World) : inv w -> inv (restart w).
Proof.
  unfold inv. destruct (restart_ledger w) as [-> ->]. apply wi_restart.
Qed.

(** Every reachable world satisfies the invariant. *)
Lemma reachable_invariant (w : World) :
  reachable cfg gw w -> I (bot w) (disk w).
Proof.
  induction 1 as [t | w _ IH | w _ IH | w i st _ IH | w _ IH | w _ IH | w _ IH].
  - apply wi_init.
  - exact IH.
  - now apply inv_execute_dca_purchase.
  - now apply inv_sell_iteration.
  - now apply inv_check_and_execute_sells.
  - now apply inv_micro_grid_cycle.
  - now apply inv_restart.
Qed.

End Invariant.

(** ** The committed total and the position ids *)

Lemma active_sum_app (l r : list position) :
  active_sum (l ++ r) == active_sum l + active_sum r.
Proof.
  induction l as [|p l IH]; simpl; [ring | rewrite IH; ring].
Qed.

Lemma active_sum_list_set (l : list position) :
  forall (i : nat) (p q : position),
    nth_error l i = Some p ->
    active_sum (list_set i q l) == active_sum l - committed p + committed q.
Proof.
  induction l as [|x l IH]; intros [|i] p q H; simpl in *; try discriminate.
  - injection H as ->. ring.
  - rewrite (IH i p q H). ring.
Qed.

Lemma position_eqb_status (a b : position) :
  position_eqb a b = true -> status a = status b.
Proof.
  unfold position_eqb. intro H.
  repeat (apply andb_prop in H; destruct H as [H ?]).
  destruct (status a), (status b); (reflexivity || discriminate).
Qed.

Lemma active_sum_list_remove (p : position) (l : list position) :
  forall l', list_remove p l = Some l' -> status p = Sold ->
             active_sum l' == active_sum l.
Proof.
  induction l as [|y l IH]; intros l' H S; simpl in H; [discriminate|].
  destruct (position_eqb y p) eqn:E.
  - injection H as <-. simpl. unfold committed.
    rewrite (position_eqb_status y p E), S. ring.
  - destruct (list_remove p l) as [r|]; [|discriminate].
    injection H as <-. simpl. rewrite (IH r eq_refl S). reflexivity.
Qed.

Lemma Forall_list_remove (R : position -> Prop) (p : position) (l : list position) :
  forall l', list_remove p l = Some l' -> Forall R l -> Forall R l'.
Proof.
  induction l as [|y l IH]; intros l' H F; simpl in H; [discriminate|].
  inversion F as [|? ? Hy Hl]; subst.
  destruct (position_eqb y p).
  - now injection H as <-.
  - destruct (list_remove p l) as [r|]; [|discriminate].
    injection H as <-. constructor; [exact Hy | now apply IH].
Qed.

Lemma Forall_list_set {A : Type} (R : A -> Prop) (l : list A) :
  forall (i : nat) (x : A), Forall R l -> R x -> Forall R (list_set i x l).
Proof.
  induction l as [|y l IH]; intros [|i] x F Hx; simpl; auto;
    inversion F; subst; constructor; auto.
Qed.

Lemma same_core_refl (p : position) : same_core p p.
Proof. now repeat split. Qed.

Lemma same_core_trans (p q r : position) :
  same_core p q -> same_core q r -> same_core p r.
Proof.
  intros (A1 & A2 & A3) (B1 & B2 & B3). repeat split; congruence.
Qed.

Lemma same_core_json (p : position) : same_core p (json_position p).
Proof. now repeat split. Qed.

Lemma same_core_revive_active (p : position) : same_core p (fst (revive_active p)).
Proof.
  unfold revive_active. destruct (revive _); now repeat split.
Qed.

Lemma same_core_revive_trade (p : position) : same_core p (fst (revive_trade p)).
Proof.
  unfold revive_trade. destruct (revive (created_timestamp p)); [|now repeat split].
  cbn [sale_info set_created_timestamp].
  destruct (sale_info p) as [s|]; [|now repeat split].
  destruct (revive (sell_timestamp s)); now repeat split.
Qed.

Lemma revive_all_same_core (body : position -> position * bool) :
  (forall p, same_core p (fst (body p))) ->
  forall l, Forall2 same_core l (fst (revive_all body l)).
Proof.
  intros Hbody l. induction l as [|p l IH]; simpl; [constructor|].
  specialize (Hbody p). destruct (body p) as [p' ok]. cbn [fst] in Hbody.
  destruct ok.
  - destruct (revive_all body l) as [r' ok']. cbn [fst] in *.
    now constructor.
  - cbn [fst]. constructor; [exact Hbody|].
    clear. induction l; constructor; auto using same_core_refl.
Qed.

Lemma Forall2_same_core_json (l : list position) :
  Forall2 same_core l (map json_position l).
Proof.
  induction l; simpl; constructor; auto using same_core_json.
Qed.

Lemma Forall2_same_core_trans (l1 l2 l3 : list position) :
  Forall2 same_core l1 l2 -> Forall2 same_core l2 l3 -> Forall2 same_core l1 l3.
Proof.
  intro H. revert l3. induction H; intros l3 H'; inversion H'; subst;
    constructor; eauto using same_core_trans.
Qed.

Lemma restore_active (s : Snapshot) :
  active_positions (restore s) =
  fst (revive_all revive_active (s_active_positions s)).
Proof.
  unfold restore. now destruct (revive_all revive_active _).
Qed.

Lemma restore_completed (s : Snapshot) :
  completed_trades (restore s) =
  if snd (revive_all revive_active (s_active_positions s))
  then fst (revive_all revive_trade (s_completed_trades s))
  else s_completed_trades s.
Proof.
  unfold restore. now destruct (revive_all revive_active _).
Qed.

Lemma restore_scalars (s : Snapshot) :
  total_invested (restore s) = s_total_invested s /\
  position_counter (restore s) = s_position_counter s /\
  total_profit_realized (restore s) = s_total_profit_realized s /\
  successful_sells (restore s) = s_successful_sells s /\
  failed_sells (restore s) = s_failed_sells s /\
  last_dca_time (restore s) = s_last_dca_time s.
Proof.
  unfold restore. now destruct (revive_all revive_active _).
Qed.

Lemma restore_snapshot_active (b : Bot) :
  Forall2 same_core (active_positions b)
          (active_positions (restore (snapshot b))).
Proof.
  rewrite restore_active. cbn [snapshot s_active_positions].
  eapply Forall2_same_core_trans; [apply Forall2_same_core_json|].
  apply revive_all_same_core, same_core_revive_active.
Qed.

Lemma restore_snapshot_completed (b : Bot) :
  Forall2 same_core (completed_trades b)
          (completed_trades (restore (snapshot b))).
Proof.
  rewrite restore_completed. cbn [snapshot s_active_positions s_completed_trades].
  eapply Forall2_same_core_trans; [apply Forall2_same_core_json|].
  destruct (snd _).
  - apply revive_all_same_core, same_core_revive_trade.
  - clear. induction (map json_position (completed_trades b));
      constructor; auto using same_core_refl.
Qed.

Lemma active_sum_same_core (l l' : list position) :
  Forall2 same_core l l' -> active_sum l = active_sum l'.
Proof.
  induction 1 as [|p q l l' (_ & Hs & Ht) _ IH]; simpl; [reflexivity|].
  unfold committed. now rewrite Hs, Ht, IH.
Qed.

Lemma Forall_id_same_core (c : Z) (l l' : list position) :
  Forall2 same_core l l' ->
  Forall (fun p => (pos_id p <= c)%Z) l -> Forall (fun p => (pos_id p <= c)%Z) l'.
Proof.
  induction 1 as [|p q l l' (Hi & _) _ IH]; intro F; [constructor|].
  inversion F; subst. constructor; [lia | auto].
Qed.

#[export] Instance ledger_balanced_invariant : ledger_invariant ledger_balanced.
Proof.
  constructor; unfold ledger_balanced.
  - simpl. reflexivity.
  - intros cfg now created price alpha b H. cbn [record_purchase total_invested active_positions].
    rewrite active_sum_app, H. simpl. unfold committed. simpl. ring.
  - intros i p price sold_at b H Hnth Hact.
    cbn [record_sale total_invested active_positions].
    rewrite (active_sum_list_set _ i p _ Hnth), H.
    unfold committed. rewrite Hact. simpl. ring.
  - intros n b H. exact H.
  - intros p l b H S Hrem. cbn [set_active_positions total_invested active_positions].
    now rewrite (active_sum_list_remove p _ l Hrem S).
  - intros b H.
    rewrite <- (active_sum_same_core _ _ (restore_snapshot_active b)).
    destruct (restore_scalars (snapshot b)) as (-> & _). exact H.
Qed.

#[export] Instance ids_bounded_invariant : ledger_invariant ids_bounded.
Proof.
  constructor; unfold ids_bounded.
  - constructor.
  - intros cfg now created price alpha b H.
    cbn [record_purchase position_counter active_positions completed_trades].
    apply Forall_app in H. destruct H as [Ha Hc].
    repeat (apply Forall_app; split).
    + eapply Forall_impl; [|exact Ha]. intros; cbv beta in *; lia.
    + constructor; [simpl; lia | constructor].
    + eapply Forall_impl; [|exact Hc]. intros; cbv beta in *; lia.
  - intros i p price sold_at b H Hnth Hact.
    cbn [record_sale position_counter active_positions completed_trades].
    apply Forall_app in H. destruct H as [Ha Hc].
    assert (Hp : (pos_id p <= position_counter b)%Z).
    { apply nth_error_In in Hnth. rewrite Forall_forall in Ha. now apply Ha. }
    repeat (apply Forall_app; split).
    + apply Forall_list_set; [exact Ha | exact Hp].
    + exact Hc.
    + constructor; [exact Hp | constructor].
  - intros n b H. exact H.
  - intros p l b H S Hrem.
    cbn [set_active_positions position_counter active_positions completed_trades].
    apply Forall_app in H. destruct H as [Ha Hc].
    apply Forall_app; split; [|exact Hc].
    exact (Forall_list_remove _ p _ l Hrem Ha).
  - intros b H.
    destruct (restore_scalars (snapshot b)) as (_ & -> & _).
    cbn [snapshot s_position_counter].
    apply Forall_app in H. destruct H as [Ha Hc].
    apply Forall_app; split.
    + exact (Forall_id_same_core _ _ _ (restore_snapshot_active b) Ha).
    + exact (Forall_id_same_core _ _ _ (restore_snapshot_completed b) Hc).
Qed.

#[export] Instance holds_invariant (P : Bot -> Prop) {HP : ledger_invariant P} :
  world_invariant (holds P).
Proof.
  constructor; unfold holds.
  - split; [apply inv_init | discriminate].
  - intros cfg now created price alpha b d [H _].
    assert (H' := inv_purchase cfg now created price alpha b H).
    split; [exact H'|]. intros s [= <-]. now apply inv_restore.
  - intros i p price sold_at b d [H _] Hnth Hact.
    assert (H' := inv_sale i p price sold_at b H Hnth Hact).
    split; [exact H'|]. intros s [= <-]. now apply inv_restore.
  - intros n b d [H1 H2]. split; [now apply inv_failed | exact H2].
  - intros p l b d [H1 H2] S E. split; [exact (inv_remove p l b H1 S E) | exact H2].
  - intros b [s|] [H1 H2]; (split; [|exact H2]); cbn [saved_bot].
    + now apply H2.
    + apply inv_init.
Qed.

Lemma trades_saved_snapshot (b : Bot) : trades_saved b (Some (snapshot b)).
Proof.
  unfold trades_saved, saved_bot.
  destruct (restore_scalars (snapshot b)) as (-> & -> & -> & -> & _ & ->).
  now repeat split.
Qed.

#[export] Instance trades_saved_invariant : world_invariant trades_saved.
Proof.
  constructor.
  - now repeat split.
  - intros. apply trades_saved_snapshot.
  - intros. apply trades_saved_snapshot.
  - intros n b d H. exact H.
  - intros p l b d H _ _. exact H.
  - intros b d _. now repeat split.
Qed.

(** ** The time gate *)

(** C10.  When no purchase has ever succeeded ([last_dca_time == 0]) the time
    gate passes whatever the configured interval: [is_time_for_dca] returns
    [True], [get_time_until_next_dca] returns 0, and a cycle whose cap and
    position-count gates are open goes straight to [execute_dca_purchase]. *)
Theorem first_purchase_is_not_delayed (cfg : Config) (gw : Gateway) (w : World) :
  last_dca_time (bot w) == 0 ->
  is_time_for_dca cfg gw w = (Ok true, step w) /\
  get_time_until_next_dca cfg gw w = (Ok 0, w) /\
  (is_at_investment_cap cfg (bot w) = false ->
   (Z.of_nat (List.length (active_positions (bot w))) < max_positions cfg)%Z ->
   snd (dca_phase cfg gw w) = snd (execute_dca_purchase cfg gw (step w))).
Proof.
  intro H. apply Qeq_bool_iff in H.
  assert (T : is_time_for_dca cfg gw w = (Ok true, step w)).
  { unfold is_time_for_dca, bind, observe, get_bot. cbn [bot step].
    now rewrite H. }
  split; [exact T|]. split.
  - unfold get_time_until_next_dca, bind, get_bot. now rewrite H.
  - intros Hcap Hcount. unfold dca_phase, bind at 1, get_bot.
    rewrite Hcap. cbn [negb].
    apply Z.ltb_lt in Hcount. rewrite Hcount.
    unfold bind at 1. rewrite T. unfold bind.
    now destruct (execute_dca_purchase cfg gw (step w)) as [[r|] w'].
Qed.

Lemma first_purchase_is_not_delayed_witness :
  last_dca_time (bot Scenario.start) == 0 /\
  is_time_for_dca Scenario.cfg (Scenario.market 1) Scenario.start =
  (Ok true, step Scenario.start).
Proof.
  split.
  - reflexivity.
  - apply (first_purchase_is_not_delayed Scenario.cfg (Scenario.market 1)
             Scenario.start).
    reflexivity.
Defined.

(** ** The slippage guard *)

Lemma get_subnet_info_returned (gw : Gateway) (w : World) (x : option Q) :
  all_subnets gw (tick w) = Returned x ->
  get_subnet_info gw w = (Ok x, step w).
Proof.
  intro E. unfold get_subnet_info. cbn [get_subnet_info_loop].
  unfold try_except, ask. now rewrite E.
Qed.





(** ** The stop-loss branch *)

(** C8 (the code does not do what the claim says).  For an active position
    below its sell target, with a stop-loss configured and the current price
    at or below [buy_price * (1 - stop_loss/100)], the scan's iteration runs
    no slippage check, makes no [unstake] call and leaves the ledger, the
    state file and the carried list as they were: the position is not
    closed. *)
Theorem stop_loss_does_not_sell (cfg : Config) (gw : Gateway) (w : World)
  (i : nat) (p : position) (sl price : Q) (removed : list position) :
  nth_error (active_positions (bot w)) i = Some p ->
  status p = Active ->
  stop_loss_percent cfg = Some sl -> 0 < sl ->
  price <= buy_price p * (1 - sl / 100) ->
  price < sell_target_price p ->
  sell_iteration cfg gw i (price, removed) w = (Ok (price, removed), w).
Proof.
  intros Hnth Hact Hsl Hpos Htrigger Hbelow.
  unfold sell_iteration, bind, get_bot. rewrite Hnth, Hact.
  apply Qltb_lt in Hbelow. unfold Qltb in Hbelow.
  apply negb_true_iff in Hbelow. rewrite Hbelow, Hsl.
  destruct (Qltb 0 sl); [|reflexivity].
  destruct (Qle_bool price _); reflexivity.
Qed.

Lemma stop_loss_does_not_sell_witness :
  (exists p,
     nth_error (active_positions (bot Scenario.after_purchase_stop_loss)) 0 = Some p /\
     status p = Active /\
     8 # 10 <= buy_price p * (1 - 10 / 100) /\
     8 # 10 < sell_target_price p) /\
  stop_loss_percent Scenario.cfg_stop_loss = Some 10 /\
  sell_iteration Scenario.cfg_stop_loss (Scenario.market (8 # 10)) 0 (8 # 10, [])
    Scenario.after_purchase_stop_loss =
  (Ok (8 # 10, []), Scenario.after_purchase_stop_loss).
Proof.
  split; [|split].
  - eexists. split; [reflexivity|]. split; [reflexivity|].
    split; [discriminate | reflexivity].
  - reflexivity.
  - eapply (stop_loss_does_not_sell Scenario.cfg_stop_loss (Scenario.market (8 # 10))
              Scenario.after_purchase_stop_loss 0 _ 10 (8 # 10) []).
    + reflexivity.
    + reflexivity.
    + reflexivity.
    + reflexivity.
    + discriminate.
    + reflexivity.
Defined.

(** The whole scan at the failing input: nothing is withdrawn. *)
Lemma stop_loss_scan_keeps_position :
  bot Scenario.after_price_drop = bot Scenario.after_purchase_stop_loss /\
  List.length (active_positions (bot Scenario.after_price_drop)) = 1%nat /\
  unstake_attempts (calls Scenario.after_price_drop) = 0%nat.
Proof. repeat split; reflexivity. Qed.

(** ** The committed total *)



(** ** Position ids *)

(** C9.  In every reachable state, restarts included, every id in the ledger
    is at most [position_counter]; a purchase that opens a position gives it
    the id [position_counter + 1], strictly greater than every id in the
    ledger, and stores that value as the new counter; stopping and starting
    the process from the state file leaves the counter as it was. *)
Theorem position_ids_strictly_increasing (cfg : Config) (gw : Gateway) (w : World) :
  reachable cfg gw w ->
  Forall (fun q => (pos_id q <= position_counter (bot w))%Z)
         (active_positions (bot w) ++ completed_trades (bot w)) /\
  (bot (snd (execute_dca_purchase cfg gw w)) = bot w \/
   exists p,
     active_positions (bot (snd (execute_dca_purchase cfg gw w))) =
       active_positions (bot w) ++ [p] /\
     completed_trades (bot (snd (execute_dca_purchase cfg gw w))) =
       completed_trades (bot w) /\
     pos_id p = (position_counter (bot w) + 1)%Z /\
     position_counter (bot (snd (execute_dca_purchase cfg gw w))) = pos_id p /\
     Forall (fun q => (pos_id q < pos_id p)%Z)
            (active_positions (bot w) ++ completed_trades (bot w))) /\
  position_counter (bot (restart w)) = position_counter (bot w) /\
  (forall i st,
     position_counter (bot (snd (sell_iteration cfg gw i st w))) =
     position_counter (bot w)).
Proof.
  intro R.
  assert (B := proj1 (reachable_invariant (holds ids_bounded) cfg gw w R)).
  split; [exact B|]. split; [|split].
  - destruct (execute_dca_purchase_outcome cfg gw w)
      as [Hb _ | now created price alpha t res Hb _ _ _ _ _ _].
    + left. exact Hb.
    + right. rewrite Hb. eexists. split; [reflexivity|].
      split; [reflexivity|]. split; [reflexivity|]. split; [reflexivity|].
      cbn [pos_id]. eapply Forall_impl; [|exact B].
      intros q Hq. cbv beta in Hq. lia.
  - destruct (restart_ledger w) as [-> _].
    exact (proj1 (proj2 (reachable_invariant trades_saved cfg gw w R))).
  - intros i st. destruct (sell_iteration_outcome cfg gw i st w)
      as [Hb _ _ | Hb _ _ | p price sold_at _ _ _ Hb _ _]; now rewrite Hb.
Qed.

Lemma position_ids_strictly_increasing_witness :
  reachable Scenario.cfg (Scenario.market 1) (Scenario.after_purchase 1) /\
  position_counter (bot (restart (Scenario.after_purchase 1))) =
  position_counter (bot (Scenario.after_purchase 1)).
Proof.
  assert (R : reachable Scenario.cfg (Scenario.market 1) (Scenario.after_purchase 1))
    by (apply reach_purchase, reach_start).
  split; [exact R|].
  exact (proj1 (proj2 (proj2
           (position_ids_strictly_increasing Scenario.cfg (Scenario.market 1)
              (Scenario.after_purchase 1) R)))).
Defined.

(** ** Writing the state file *)

(** C7 (as the code has it).  A purchase that changes the ledger and an
    iteration of the sell scan that records a sale both end with the state
    file holding the snapshot of the ledger as it is at that moment; recording
    a failed sale changes [failed_sells] in memory and writes nothing. *)
Theorem snapshot_follows_successful_trades (cfg : Config) (gw : Gateway)
  (w : World) :
  (bot (snd (execute_dca_purchase cfg gw w)) <> bot w ->
   persisted (snd (execute_dca_purchase cfg gw w))) /\
  (forall i st,
     successful_sells (bot (snd (sell_iteration cfg gw i st w))) <>
     successful_sells (bot w) ->
     persisted (snd (sell_iteration cfg gw i st w))) /\
  (forall i st,
     failed_sells (bot (snd (sell_iteration cfg gw i st w))) <>
     failed_sells (bot w) ->
     failed_sells (bot (snd (sell_iteration cfg gw i st w))) =
       (failed_sells (bot w) + 1)%Z /\
     disk (snd (sell_iteration cfg gw i st w)) = disk w).
Proof.
  split; [|split].
  - intro H. destruct (execute_dca_purchase_outcome cfg gw w)
      as [Hb _ | now created price alpha t res _ Hp _ _ _ _ _].
    + contradiction.
    + exact Hp.
  - intros i st H. destruct (sell_iteration_outcome cfg gw i st w)
      as [Hb _ _ | Hb _ _ | p price sold_at _ _ _ _ Hp _].
    + rewrite Hb in H. contradiction.
    + rewrite Hb in H. contradiction.
    + exact Hp.
  - intros i st H. destruct (sell_iteration_outcome cfg gw i st w)
      as [Hb _ _ | Hb Hd _ | p price sold_at _ _ _ Hb _ _].
    + rewrite Hb in H. contradiction.
    + rewrite Hb. split; [reflexivity | exact Hd].
    + rewrite Hb in H. contradiction.
Qed.

Lemma snapshot_follows_successful_trades_witness :
  bot (Scenario.after_purchase 1) <> bot Scenario.start /\
  persisted (Scenario.after_purchase 1).
Proof.
  assert (N : bot (Scenario.after_purchase 1) <> bot Scenario.start)
    by discriminate.
  split; [exact N|].
  exact (proj1 (snapshot_follows_successful_trades Scenario.cfg
                  (Scenario.market 1) Scenario.start) N).
Defined.

(** C7 as stated fails: after a sell scan in which the withdrawal failed, the
    counter of failed sales is 1 in memory and 0 in the state file. *)
Lemma failed_close_is_not_persisted :
  persisted Scenario.before_failed_close /\
  failed_sells (bot Scenario.after_failed_close) = 1%Z /\
  option_map s_failed_sells (disk Scenario.after_failed_close) = Some 0%Z /\
  ~ persisted Scenario.after_failed_close.
Proof.
  split; [reflexivity|]. split; [reflexivity|]. split; [reflexivity|].
  unfold persisted. intro H.
  apply (f_equal (option_map s_failed_sells)) in H.
  vm_compute in H. discriminate.
Qed.

(** ** Deposits *)


Lemma stake_attempts_app (l r : list Call) :
  stake_attempts (l ++ r) = (stake_attempts l + stake_attempts r)%nat.
Proof.
  induction l as [|c l IH]; [reflexivity|].
  destruct c; simpl; now rewrite IH.
Qed.




(** ** The scenarios *)

Lemma reachable_run_cycles (cfg : Config) (gw : Gateway) (n : nat) :
  forall w, reachable cfg gw w -> reachable cfg gw (run_cycles cfg gw n w).
Proof.
  induction n as [|n IH]; intros w R; cbn [run_cycles]; [exact R|].
  apply IH, reach_cycle, R.
Qed.

(** C1 (the code does not do what the claim says).  With cap 5.0, tolerance
    0.1 and purchases of 0.05: after 102 cycles the total is 5.1 and the gate
    is closed; one sale brings the total to 5.05, which is not below
    [cap - tolerance] = 4.9 ([can_resume_dca] is false), yet
    [is_at_investment_cap] is false and the next cycle opens position 103.
    The gate of the cycle reads only the upper limit. *)
Theorem cap_gate_reopens_inside_band :
  reachable Scenario.cfg Scenario.filling_market Scenario.after_next_cycle /\
  total_invested (bot Scenario.paused) == 51 # 10 /\
  is_at_investment_cap Scenario.cfg (bot Scenario.paused) = true /\
  position_counter (bot Scenario.paused) = 102%Z /\
  total_invested (bot Scenario.after_one_close) == 505 # 100 /\
  position_counter (bot Scenario.after_one_close) = 102%Z /\
  can_resume_dca Scenario.cfg (bot Scenario.after_one_close) = false /\
  is_at_investment_cap Scenario.cfg (bot Scenario.after_one_close) = false /\
  position_counter (bot Scenario.after_next_cycle) = 103%Z /\
  ~ hysteresis_holds Scenario.cfg (bot Scenario.paused)
      (bot Scenario.after_one_close).
Proof.
  split.
  { unfold Scenario.after_next_cycle, Scenario.after_one_close, Scenario.paused.
    do 2 apply reach_cycle. apply reachable_run_cycles, reach_start. }
  assert (E1 : is_at_investment_cap Scenario.cfg (bot Scenario.paused) = true)
    by (vm_compute; reflexivity).
  assert (E2 : can_resume_dca Scenario.cfg (bot Scenario.after_one_close) = false)
    by (vm_compute; reflexivity).
  assert (E3 : is_at_investment_cap Scenario.cfg (bot Scenario.after_one_close) = false)
    by (vm_compute; reflexivity).
  split; [vm_compute; reflexivity|].
  split; [exact E1|].
  split; [vm_compute; reflexivity|].
  split; [vm_compute; reflexivity|].
  split; [vm_compute; reflexivity|].
  split; [exact E2|].
  split; [exact E3|].
  split; [vm_compute; reflexivity|].
  intro H. specialize (H E1 E2). congruence.
Qed.

Lemma nth_error_list_set {A : Type} (l : list A) :
  forall (i : nat) (x y : A),
    nth_error l i = Some y -> nth_error (list_set i x l) i = Some x.
Proof.
  induction l as [|z l IH]; intros [|i] x y H; simpl in *;
    try discriminate; [reflexivity | now apply IH with y].
Qed.

Lemma nth_error_revive_all (body : position -> position * bool) :
  (forall p, sale_info (fst (body p)) = sale_info p) ->
  forall (l : list position) (i : nat) (q : position),
    nth_error l i = Some q ->
    exists q', nth_error (fst (revive_all body l)) i = Some q' /\
               sale_info q' = sale_info q.
Proof.
  intros Hbody l. induction l as [|p l IH]; intros [|i] q H; simpl in H;
    try discriminate.
  - injection H as ->. cbn [revive_all]. specialize (Hbody q).
    destruct (body q) as [q' ok]. cbn [fst] in Hbody.
    destruct ok; [destruct (revive_all body l)|]; exists q'; now split.
  - cbn [revive_all]. destruct (body p) as [p' ok]. destruct ok.
    + destruct (IH i q H) as (q' & Hq & Hs).
      destruct (revive_all body l) as [r ok']. cbn [fst] in *.
      exists q'. now split.
    + exists q. now split.
Qed.

Lemma sale_info_revive_active (p : position) :
  sale_info (fst (revive_active p)) = sale_info p.
Proof.
  unfold revive_active. now destruct (revive (created_timestamp p)).
Qed.

(** The snapshot of a ledger just after [record_sale] never restores to
    that ledger. *)
Lemma restore_snapshot_record_sale (i : nat) (p : position) (price : Q)
  (sold_at : datetime) (b : Bot) :
  nth_error (active_positions b) i = Some p ->
  restore (snapshot (record_sale i p price sold_at b)) <>
  record_sale i p price sold_at b.
Proof.
  intros Hnth E.
  apply (f_equal (fun x => nth_error (active_positions x) i)) in E.
  rewrite restore_active in E.
  cbn [snapshot s_active_positions record_sale active_positions] in E.
  rewrite (nth_error_list_set _ i _ p Hnth) in E.
  destruct (nth_error_revive_all revive_active sale_info_revive_active
              (map json_position
                   (list_set i (mark_sold p price sold_at) (active_positions b)))
              i (json_position (mark_sold p price sold_at)))
    as (q' & Hq & Hs).
  { apply map_nth_error. exact (nth_error_list_set _ i _ p Hnth). }
  rewrite Hq in E. injection E as ->. discriminate Hs.
Qed.

(** C3 (the code does not do what the claim says).  Whenever an iteration of
    the sell scan records a sale, the state file it writes holds the snapshot
    of the ledger at that moment, and restoring that snapshot does not give
    that ledger back: the sold position is still in the active list, where
    [load_state] converts only [created_timestamp], so its [sell_timestamp]
    comes back as a string. *)
Theorem sale_snapshot_does_not_round_trip (cfg : Config) (gw : Gateway)
  (w : World) (i : nat) (st : Q * list position) :
  successful_sells (bot (snd (sell_iteration cfg gw i st w))) <>
  successful_sells (bot w) ->
  persisted (snd (sell_iteration cfg gw i st w)) /\
  restore (snapshot (bot (snd (sell_iteration cfg gw i st w)))) <>
  bot (snd (sell_iteration cfg gw i st w)).
Proof.
  intro H. destruct (sell_iteration_outcome cfg gw i st w)
    as [Hb _ _ | Hb _ _ | p price sold_at Hnth _ _ Hb Hp _].
  - rewrite Hb in H. contradiction.
  - rewrite Hb in H. contradiction.
  - split; [exact Hp|]. rewrite Hb.
    now apply restore_snapshot_record_sale.
Qed.

Lemma sale_snapshot_does_not_round_trip_witness :
  successful_sells (bot Scenario.mid_sale) <>
  successful_sells (bot (Scenario.after_purchase (116 # 100))) /\
  restore (snapshot (bot Scenario.mid_sale)) <> bot Scenario.mid_sale.
Proof.
  assert (N : successful_sells (bot Scenario.mid_sale) <>
              successful_sells (bot (Scenario.after_purchase (116 # 100))))
    by discriminate.
  split; [exact N|].
  exact (proj2 (sale_snapshot_does_not_round_trip Scenario.cfg
                  (Scenario.market (116 # 100))
                  (Scenario.after_purchase (116 # 100)) 0 (116 # 100, []) N)).
Defined.

(** The failing input evaluated: one position bought at 1.0 and sold at
    1.16.  After the scan has removed the position from the active list, a
    restart puts it back there. *)
Lemma snapshot_of_sale_restores_string :
  reachable Scenario.cfg (Scenario.market (116 # 100)) Scenario.mid_sale /\
  persisted Scenario.mid_sale /\
  map (fun p => option_map sell_timestamp (sale_info p))
      (active_positions (bot Scenario.mid_sale)) =
    [Some (Datetime Scenario.sold_at)] /\
  map (fun p => option_map sell_timestamp (sale_info p))
      (active_positions (restore (snapshot (bot Scenario.mid_sale)))) =
    [Some (IsoString "2024-03-04 05:06:07.000678")] /\
  active_positions (bot Scenario.after_sale) = [] /\
  List.length (active_positions (bot (restart Scenario.after_sale))) = 1%nat.
Proof.
  split; [apply reach_sell_iteration, reach_purchase, reach_start|].
  repeat split; reflexivity.
Qed.

(** C4 (as the code has it).  With a purchase amount of 0.05, a 15% target
    and an entry price of 1.0, the purchase records [alpha_amount] = 0.05 and
    [sell_target_price] = 1.15; the sale of that position at 1.16 records
    [tao_received] = 0.058 and [profit_tao] = 0.05 * 1.16 - 0.05 = 0.008. *)
Theorem scenario_open_and_close :
  (exists p,
     active_positions (bot (Scenario.after_purchase (116 # 100))) = [p] /\
     buy_price p == 1 /\ tao_invested p == 5 # 100 /\
     alpha_amount p == 5 # 100 /\ sell_target_price p == 115 # 100) /\
  (exists p s,
     completed_trades (bot Scenario.after_sale) = [p] /\
     sale_info p = Some s /\ status p = Sold /\
     sell_price s == 116 # 100 /\
     tao_received s == 58 # 1000 /\
     profit_tao s == (5 # 100) * (116 # 100) - (5 # 100) /\
     profit_tao s == 8 # 1000) /\
  total_profit_realized (bot Scenario.after_sale) == 8 # 1000.
Proof.
  split; [|split].
  - eexists. split; [reflexivity|]. repeat split.
  - do 2 eexists. split; [reflexivity|]. split; [reflexivity|]. repeat split.
  - reflexivity.
Qed.

(** C4 as stated fails: the realized profit of the scenario is not 0.003. *)
Lemma scenario_profit_is_not_0_003 :
  exists p s,
    completed_trades (bot Scenario.after_sale) = [p] /\
    sale_info p = Some s /\
    sell_price s == 116 # 100 /\
    ~ profit_tao s == 3 # 1000.
Proof.
  do 2 eexists. split; [reflexivity|]. split; [reflexivity|].
  split; [reflexivity | discriminate].
Qed.

(** * More properties of the program *)

(** ** The query helpers *)

Section Queries.

Context {A : Type}.
Variable script : nat -> outcome A.

(** One round of a query loop whose attempt is [ask script] and whose
    handler is [h]. *)
Lemma ask_returned (h : M A) (w : World) (a : A) :
  script (tick w) = Returned a ->
  try_except (ask script) h w = (Ok a, step w).
Proof.
  intro E. unfold try_except, ask. now rewrite E.
Qed.

Lemma ask_raised (h : M A) (w : World) (e : failure) :
  script (tick w) = Raised e ->
  try_except (ask script) h w = h (step w).
Proof.
  intro E. unfold try_except, ask. now rewrite E.
Qed.

End Queries.

Lemma sleep_then {A : Type} (n : Z) (m : M A) (w : World) :
  (sleep n ;;; m) w =
  m (mkWorld (bot w) (disk w) (tick w) (calls w ++ [CallSleep n])).
Proof. reflexivity. Qed.

(** X1.  [get_subnet_info] asks at most three times, sleeping 5 seconds
    after the first and the second failure: it returns the answer of the
    first attempt that does not raise, and raises exactly when all three
    attempts raise. *)
Theorem get_subnet_info_first_answer (gw : Gateway) (w : World) :
  (forall x, all_subnets gw (tick w) = Returned x ->
     get_subnet_info gw w = (Ok x, step w)) /\
  (forall e1 x,
     all_subnets gw (tick w) = Raised e1 ->
     all_subnets gw (S (tick w)) = Returned x ->
     get_subnet_info gw w =
     (Ok x, mkWorld (bot w) (disk w) (2 + tick w) (calls w ++ [CallSleep 5]))) /\
  (forall e1 e2 x,
     all_subnets gw (tick w) = Raised e1 ->
     all_subnets gw (S (tick w)) = Raised e2 ->
     all_subnets gw (S (S (tick w))) = Returned x ->
     get_subnet_info gw w =
     (Ok x, mkWorld (bot w) (disk w) (3 + tick w)
                    (calls w ++ [CallSleep 5; CallSleep 5]))) /\
  (forall e1 e2 e3,
     all_subnets gw (tick w) = Raised e1 ->
     all_subnets gw (S (tick w)) = Raised e2 ->
     all_subnets gw (S (S (tick w))) = Raised e3 ->
     get_subnet_info gw w =
     (Exn, mkWorld (bot w) (disk w) (3 + tick w)
                   (calls w ++ [CallSleep 5; CallSleep 5]))) /\
  (fst (get_subnet_info gw w) = Exn <->
   exists e1 e2 e3,
     all_subnets gw (tick w) = Raised e1 /\
     all_subnets gw (S (tick w)) = Raised e2 /\
     all_subnets gw (S (S (tick w))) = Raised e3).
Proof.
  unfold get_subnet_info.
  assert (R1 : forall x, all_subnets gw (tick w) = Returned x ->
     get_subnet_info_loop gw 3 w = (Ok x, step w)).
  { intros x E. cbn [get_subnet_info_loop]. now apply ask_returned. }
  assert (R2 : forall e1 x,
     all_subnets gw (tick w) = Raised e1 ->
     all_subnets gw (S (tick w)) = Returned x ->
     get_subnet_info_loop gw 3 w =
     (Ok x, mkWorld (bot w) (disk w) (2 + tick w) (calls w ++ [CallSleep 5]))).
  { intros e1 x E1 E2. cbn [get_subnet_info_loop].
    rewrite (ask_raised _ _ w e1 E1), sleep_then.
    now rewrite (ask_returned _ _ _ x) by exact E2. }
  assert (R3 : forall e1 e2 x,
     all_subnets gw (tick w) = Raised e1 ->
     all_subnets gw (S (tick w)) = Raised e2 ->
     all_subnets gw (S (S (tick w))) = Returned x ->
     get_subnet_info_loop gw 3 w =
     (Ok x, mkWorld (bot w) (disk w) (3 + tick w)
                    (calls w ++ [CallSleep 5; CallSleep 5]))).
  { intros e1 e2 x E1 E2 E3. cbn [get_subnet_info_loop].
    rewrite (ask_raised _ _ w e1 E1), sleep_then.
    rewrite (ask_raised _ _ _ e2) by exact E2. rewrite sleep_then.
    rewrite (ask_returned _ _ _ x) by exact E3.
    unfold step. cbn [bot disk tick calls]. now rewrite <- app_assoc. }
  assert (R4 : forall e1 e2 e3,
     all_subnets gw (tick w) = Raised e1 ->
     all_subnets gw (S (tick w)) = Raised e2 ->
     all_subnets gw (S (S (tick w))) = Raised e3 ->
     get_subnet_info_loop gw 3 w =
     (Exn, mkWorld (bot w) (disk w) (3 + tick w)
                   (calls w ++ [CallSleep 5; CallSleep 5]))).
  { intros e1 e2 e3 E1 E2 E3. cbn [get_subnet_info_loop].
    rewrite (ask_raised _ _ w e1 E1), sleep_then.
    rewrite (ask_raised _ _ _ e2) by exact E2. rewrite sleep_then.
    rewrite (ask_raised _ _ _ e3) by exact E3.
    unfold raise, step. cbn [bot disk tick calls]. now rewrite <- app_assoc. }
  split; [exact R1|]. split; [exact R2|]. split; [exact R3|]. split; [exact R4|].
  split.
  - intro H.
    destruct (all_subnets gw (tick w)) as [x|e1] eqn:E1;
      [rewrite (R1 x eq_refl) in H; discriminate|].
    destruct (all_subnets gw (S (tick w))) as [x|e2] eqn:E2;
      [rewrite (R2 e1 x eq_refl eq_refl) in H; discriminate|].
    destruct (all_subnets gw (S (S (tick w)))) as [x|e3] eqn:E3;
      [rewrite (R3 e1 e2 x eq_refl eq_refl eq_refl) in H; discriminate|].
    now exists e1, e2, e3.
  - intros (e1 & e2 & e3 & E1 & E2 & E3).
    now rewrite (R4 e1 e2 e3 E1 E2 E3).
Qed.

Lemma get_subnet_info_first_answer_witness :
  all_subnets (Cases.flaky 1) 0 = Raised Transient /\
  all_subnets (Cases.flaky 1) 1 = Returned (Some 1) /\
  get_subnet_info (Cases.flaky 1) Scenario.start =
  (Ok (Some 1), mkWorld init_bot None 2 [CallSleep 5]).
Proof.
  split; [reflexivity|]. split; [reflexivity|].
  exact (proj1 (proj2 (get_subnet_info_first_answer (Cases.flaky 1) Scenario.start))
           Transient (Some 1) eq_refl eq_refl).
Defined.

Lemma lt_3_cases (k : nat) : (k < 3)%nat -> k = 0%nat \/ k = 1%nat \/ k = 2%nat.
Proof. lia. Qed.

(** X2.  [get_wallet_balance] returns the balance of the first of at most
    three attempts that does not raise, having slept 5 seconds after each
    failed one, and lets the exception out when all three raise; the ledger
    and the state file are not touched. *)
Theorem get_wallet_balance_first_answer (gw : Gateway) (w : World) :
  (forall k x, (k < 3)%nat -> first_answer (get_balance gw) (tick w) k x ->
     get_wallet_balance gw w =
     (Ok x, mkWorld (bot w) (disk w) (S k + tick w)
                    (calls w ++ repeat (CallSleep 5) k))) /\
  (all_raise (get_balance gw) (tick w) 3 ->
     get_wallet_balance gw w =
     (Exn, mkWorld (bot w) (disk w) (3 + tick w)
                   (calls w ++ repeat (CallSleep 5) 2))) /\
  (forall x, fst (get_wallet_balance gw w) = Ok x ->
     exists k, (k < 3)%nat /\ first_answer (get_balance gw) (tick w) k x) /\
  (fst (get_wallet_balance gw w) = Exn -> all_raise (get_balance gw) (tick w) 3).
Proof.
  unfold get_wallet_balance.
  assert (R : forall k x, (k < 3)%nat -> first_answer (get_balance gw) (tick w) k x ->
     get_wallet_balance_loop gw 3 w =
     (Ok x, mkWorld (bot w) (disk w) (S k + tick w)
                    (calls w ++ repeat (CallSleep 5) k))).
  { intros k x Hk [Hx Hbefore]. cbn [get_wallet_balance_loop].
    destruct (lt_3_cases k Hk) as [-> | [-> | ->]]; cbn [Nat.add repeat] in *.
    - rewrite (ask_returned _ _ w x Hx). unfold step. now rewrite app_nil_r.
    - destruct (Hbefore 0%nat ltac:(lia)) as [e0 E0]. cbn [Nat.add] in E0.
      rewrite (ask_raised _ _ w e0 E0), sleep_then.
      now rewrite (ask_returned _ _ _ x) by exact Hx.
    - destruct (Hbefore 0%nat ltac:(lia)) as [e0 E0].
      destruct (Hbefore 1%nat ltac:(lia)) as [e1 E1]. cbn [Nat.add] in E0, E1.
      rewrite (ask_raised _ _ w e0 E0), sleep_then.
      rewrite (ask_raised _ _ _ e1) by exact E1. rewrite sleep_then.
      rewrite (ask_returned _ _ _ x) by exact Hx.
      unfold step. cbn [bot disk tick calls]. now rewrite <- app_assoc. }
  assert (F : all_raise (get_balance gw) (tick w) 3 ->
     get_wallet_balance_loop gw 3 w =
     (Exn, mkWorld (bot w) (disk w) (3 + tick w)
                   (calls w ++ repeat (CallSleep 5) 2))).
  { intro H. cbn [get_wallet_balance_loop].
    destruct (H 0%nat ltac:(lia)) as [e0 E0].
    destruct (H 1%nat ltac:(lia)) as [e1 E1].
    destruct (H 2%nat ltac:(lia)) as [e2 E2]. cbn [Nat.add] in E0, E1, E2.
    rewrite (ask_raised _ _ w e0 E0), sleep_then.
    rewrite (ask_raised _ _ _ e1) by exact E1. rewrite sleep_then.
    rewrite (ask_raised _ _ _ e2) by exact E2.
    unfold raise, step. cbn [bot disk tick calls repeat]. now rewrite <- app_assoc. }
  split; [exact R|]. split; [exact F|].
  destruct (get_balance gw (tick w)) as [x0|e0] eqn:E0.
  { assert (A0 : first_answer (get_balance gw) (tick w) 0 x0)
      by (split; [exact E0 | intros j Hj; lia]).
    rewrite (R 0%nat x0 ltac:(lia) A0). split.
    - intros x [= <-]. exists 0%nat. split; [lia | exact A0].
    - discriminate. }
  destruct (get_balance gw (S (tick w))) as [x1|e1] eqn:E1.
  { assert (A1 : first_answer (get_balance gw) (tick w) 1 x1).
    { split; [exact E1|]. intros j Hj. assert (j = 0%nat) as -> by lia. now exists e0. }
    rewrite (R 1%nat x1 ltac:(lia) A1). split.
    - intros x [= <-]. exists 1%nat. split; [lia | exact A1].
    - discriminate. }
  destruct (get_balance gw (S (S (tick w)))) as [x2|e2] eqn:E2.
  { assert (A2 : first_answer (get_balance gw) (tick w) 2 x2).
    { split; [exact E2|]. intros j Hj.
      assert (j = 0%nat \/ j = 1%nat) as [-> | ->] by lia; [now exists e0 | now exists e1]. }
    rewrite (R 2%nat x2 ltac:(lia) A2). split.
    - intros x [= <-]. exists 2%nat. split; [lia | exact A2].
    - discriminate. }
  assert (AR : all_raise (get_balance gw) (tick w) 3).
  { intros j Hj. destruct (lt_3_cases j Hj) as [-> | [-> | ->]];
      [now exists e0 | now exists e1 | now exists e2]. }
  rewrite (F AR). split; [discriminate | intros _; exact AR].
Qed.

Lemma get_wallet_balance_first_answer_witness :
  first_answer (get_balance (Cases.flaky 2)) 0 2 10 /\
  get_wallet_balance (Cases.flaky 2) Scenario.start =
  (Ok 10, mkWorld init_bot None 3 [CallSleep 5; CallSleep 5]).
Proof.
  assert (A : first_answer (get_balance (Cases.flaky 2)) 0 2 10).
  { split; [reflexivity|]. intros j Hj.
    exists Transient.
    assert (j = 0%nat \/ j = 1%nat) as [-> | ->] by lia; reflexivity. }
  split; [exact A|].
  exact (proj1 (get_wallet_balance_first_answer (Cases.flaky 2) Scenario.start)
           2%nat 10 ltac:(lia) A).
Defined.

Lemma find_holding_find (target : Z) (validator : string) (l : list stake_entry) :
  find_holding target validator l =
  match find (fun s => (se_netuid s =? target)%Z &&
                       String.eqb (se_hotkey_ss58 s) validator) l with
  | Some s => se_stake s
  | None => 0
  end.
Proof.
  induction l as [|s l IH]; simpl; [reflexivity|].
  now destruct (_ && _).
Qed.

(** X3.  [get_current_holdings] never raises.  When an attempt returns the
    stake list, the result is the stake of the first entry on the target
    subnet under the configured validator, and [0.0] when no entry matches;
    when all three attempts raise, the result is [0.0] as well, so a failed
    query cannot be told from an empty position. *)
Theorem get_current_holdings_never_raises
  (script : nat -> outcome (list stake_entry)) (target : Z) (validator : string)
  (w : World) :
  (exists x, fst (get_current_holdings script target validator w) = Ok x) /\
  (forall k l, (k < 3)%nat -> first_answer script (tick w) k l ->
     fst (get_current_holdings script target validator w) =
     Ok (match find (fun s => (se_netuid s =? target)%Z &&
                              String.eqb (se_hotkey_ss58 s) validator) l with
         | Some s => se_stake s
         | None => 0
         end)) /\
  (all_raise script (tick w) 3 ->
     get_current_holdings script target validator w =
     (Ok 0, mkWorld (bot w) (disk w) (3 + tick w)
                    (calls w ++ [CallSleep 5; CallSleep 5]))).
Proof.
  unfold get_current_holdings.
  assert (Step : forall h w0,
    try_except (stake_info <- ask script ;;
                ret (find_holding target validator stake_info)) h w0 =
    match script (tick w0) with
    | Returned l => (Ok (find_holding target validator l), step w0)
    | Raised _ => h (step w0)
    end).
  { intros h w0. unfold try_except, bind, ask.
    now destruct (script (tick w0)). }
  assert (R : forall k l, (k < 3)%nat -> first_answer script (tick w) k l ->
     fst (get_current_holdings_loop script target validator 3 w) =
     Ok (find_holding target validator l)).
  { intros k l Hk [Hl Hbefore]. cbn [get_current_holdings_loop].
    destruct (lt_3_cases k Hk) as [-> | [-> | ->]]; cbn [Nat.add] in *.
    - now rewrite Step, Hl.
    - destruct (Hbefore 0%nat ltac:(lia)) as [e0 E0]. cbn [Nat.add] in E0.
      rewrite Step, E0, sleep_then, Step. cbn [tick step]. now rewrite Hl.
    - destruct (Hbefore 0%nat ltac:(lia)) as [e0 E0].
      destruct (Hbefore 1%nat ltac:(lia)) as [e1 E1]. cbn [Nat.add] in E0, E1.
      rewrite Step, E0, sleep_then, Step. cbn [tick step]. rewrite E1.
      rewrite sleep_then, Step. cbn [tick step]. now rewrite Hl. }
  assert (F : all_raise script (tick w) 3 ->
     get_current_holdings_loop script target validator 3 w =
     (Ok 0, mkWorld (bot w) (disk w) (3 + tick w)
                    (calls w ++ [CallSleep 5; CallSleep 5]))).
  { intro H. cbn [get_current_holdings_loop].
    destruct (H 0%nat ltac:(lia)) as [e0 E0].
    destruct (H 1%nat ltac:(lia)) as [e1 E1].
    destruct (H 2%nat ltac:(lia)) as [e2 E2]. cbn [Nat.add] in E0, E1, E2.
    rewrite Step, E0, sleep_then, Step. cbn [tick step]. rewrite E1.
    rewrite sleep_then, Step. cbn [tick step]. rewrite E2.
    unfold ret, step. cbn [bot disk tick calls]. now rewrite <- app_assoc. }
  split; [|split].
  - destruct (script (tick w)) as [l0|e0] eqn:E0.
    { eexists. apply (R 0%nat l0); [lia|]. split; [exact E0 | intros j Hj; lia]. }
    destruct (script (S (tick w))) as [l1|e1] eqn:E1.
    { eexists. apply (R 1%nat l1); [lia|]. split; [exact E1|].
      intros j Hj. assert (j = 0%nat) as -> by lia. now exists e0. }
    destruct (script (S (S (tick w)))) as [l2|e2] eqn:E2.
    { eexists. apply (R 2%nat l2); [lia|]. split; [exact E2|].
      intros j Hj.
      assert (j = 0%nat \/ j = 1%nat) as [-> | ->] by lia; [now exists e0 | now exists e1]. }
    exists 0. rewrite F; [reflexivity|].
    intros j Hj. destruct (lt_3_cases j Hj) as [-> | [-> | ->]];
      [now exists e0 | now exists e1 | now exists e2].
  - intros k l Hk HA. rewrite (R k l Hk HA). now rewrite find_holding_find.
  - exact F.
Qed.

Lemma get_current_holdings_never_raises_witness :
  first_answer (Cases.stake_script 1) 0 1 Cases.stakes /\
  fst (get_current_holdings (Cases.stake_script 1) 73 "validator-a" Scenario.start) =
  Ok (25 # 10).
Proof.
  assert (A : first_answer (Cases.stake_script 1) 0 1 Cases.stakes).
  { split; [reflexivity|]. intros j Hj. exists Transient.
    assert (j = 0%nat) as -> by lia. reflexivity. }
  split; [exact A|].
  exact (proj1 (proj2 (get_current_holdings_never_raises (Cases.stake_script 1)
                         73 "validator-a" Scenario.start))
           1%nat Cases.stakes ltac:(lia) A).
Defined.

(** ** Withdrawals *)

Section Unstake.

Variable gw : Gateway.

Lemma unstake_sn73_loop_returned (n : nat) (a : Q) (w : World) (res : bool) :
  unstake gw (tick w) = Returned res ->
  unstake_sn73_loop gw (S n) a w =
  (Ok true, mkWorld (bot w) (disk w) (S (tick w)) (calls w ++ [CallUnstake a])).
Proof.
  intro E. cbn [unstake_sn73_loop].
  unfold try_except, bind, log_call, ask. cbn [tick]. rewrite E. reflexivity.
Qed.

Lemma unstake_sn73_loop_last (a : Q) (w : World) (e : failure) :
  unstake gw (tick w) = Raised e ->
  unstake_sn73_loop gw 1 a w =
  (Ok false, mkWorld (bot w) (disk w) (S (tick w)) (calls w ++ [CallUnstake a])).
Proof.
  intro E. cbn [unstake_sn73_loop].
  unfold try_except, bind, log_call, ask. cbn [tick]. rewrite E. reflexivity.
Qed.

Lemma unstake_sn73_loop_retry (n : nat) (a : Q) (w : World) (e : failure) :
  unstake gw (tick w) = Raised e ->
  unstake_sn73_loop gw (S (S n)) a w =
  unstake_sn73_loop gw (S n) a
    (mkWorld (bot w) (disk w) (S (tick w))
             (calls w ++ [CallUnstake a; CallSleep 10])).
Proof.
  intro E.
  change (unstake_sn73_loop gw (S (S n)) a) with
    (try_except
       (log_call (CallUnstake a) ;;; result <- ask (unstake gw) ;; ret true)
       (sleep 10 ;;; unstake_sn73_loop gw (S n) a)).
  unfold try_except at 1. unfold bind at 1 2. unfold log_call at 1.
  unfold ask. cbn [tick]. rewrite E. cbn [step bot disk tick calls].
  unfold bind, sleep, log_call, step. cbn [bot disk tick calls].
  now rewrite <- app_assoc.
Qed.

(** X4.  [unstake_sn73] never raises and asks for the same amount at most
    three times, 10 seconds apart.  It returns [True] exactly when one of
    these attempts returns, whatever value the client returned, and [False]
    exactly when all three raise; the ledger and the state file are not
    touched. *)
Theorem unstake_sn73_outcome (alpha : Q) (w : World) :
  (forall k res, (k < 3)%nat -> first_answer (unstake gw) (tick w) k res ->
     unstake_sn73 gw alpha w =
     (Ok true,
      mkWorld (bot w) (disk w) (S k + tick w)
              (calls w ++
               List.concat (repeat [CallUnstake alpha; CallSleep 10] k) ++
               [CallUnstake alpha]))) /\
  (all_raise (unstake gw) (tick w) 3 ->
     unstake_sn73 gw alpha w =
     (Ok false,
      mkWorld (bot w) (disk w) (3 + tick w)
              (calls w ++
               List.concat (repeat [CallUnstake alpha; CallSleep 10] 2) ++
               [CallUnstake alpha]))) /\
  (fst (unstake_sn73 gw alpha w) = Ok true <->
   exists k res, (k < 3)%nat /\ first_answer (unstake gw) (tick w) k res) /\
  (fst (unstake_sn73 gw alpha w) = Ok false <-> all_raise (unstake gw) (tick w) 3).
Proof.
  unfold unstake_sn73.
  assert (R : forall k res, (k < 3)%nat -> first_answer (unstake gw) (tick w) k res ->
     unstake_sn73_loop gw 3 alpha w =
     (Ok true,
      mkWorld (bot w) (disk w) (S k + tick w)
              (calls w ++
               List.concat (repeat [CallUnstake alpha; CallSleep 10] k) ++
               [CallUnstake alpha]))).
  { intros k res Hk [Hres Hbefore].
    destruct (lt_3_cases k Hk) as [-> | [-> | ->]]; cbn [Nat.add repeat List.concat app] in *.
    - now rewrite (unstake_sn73_loop_returned 2 alpha w res Hres).
    - destruct (Hbefore 0%nat ltac:(lia)) as [e0 E0]. cbn [Nat.add] in E0.
      rewrite (unstake_sn73_loop_retry 1 alpha w e0 E0).
      rewrite (unstake_sn73_loop_returned 1 alpha _ res) by exact Hres.
      cbn [bot disk tick calls]. now rewrite <- app_assoc.
    - destruct (Hbefore 0%nat ltac:(lia)) as [e0 E0].
      destruct (Hbefore 1%nat ltac:(lia)) as [e1 E1]. cbn [Nat.add] in E0, E1.
      rewrite (unstake_sn73_loop_retry 1 alpha w e0 E0).
      rewrite (unstake_sn73_loop_retry 0 alpha _ e1) by exact E1.
      rewrite (unstake_sn73_loop_returned 0 alpha _ res) by exact Hres.
      cbn [bot disk tick calls]. now rewrite <- !app_assoc. }
  assert (F : all_raise (unstake gw) (tick w) 3 ->
     unstake_sn73_loop gw 3 alpha w =
     (Ok false,
      mkWorld (bot w) (disk w) (3 + tick w)
              (calls w ++
               List.concat (repeat [CallUnstake alpha; CallSleep 10] 2) ++
               [CallUnstake alpha]))).
  { intro H.
    destruct (H 0%nat ltac:(lia)) as [e0 E0].
    destruct (H 1%nat ltac:(lia)) as [e1 E1].
    destruct (H 2%nat ltac:(lia)) as [e2 E2]. cbn [Nat.add] in E0, E1, E2.
    rewrite (unstake_sn73_loop_retry 1 alpha w e0 E0).
    rewrite (unstake_sn73_loop_retry 0 alpha _ e1) by exact E1.
    rewrite (unstake_sn73_loop_last alpha _ e2) by exact E2.
    cbn [bot disk tick calls repeat List.concat app]. now rewrite <- !app_assoc. }
  split; [exact R|]. split; [exact F|].
  destruct (unstake gw (tick w)) as [r0|e0] eqn:E0.
  { assert (A0 : first_answer (unstake gw) (tick w) 0 r0)
      by (split; [exact E0 | intros j Hj; lia]).
    rewrite (R 0%nat r0 ltac:(lia) A0). split; split; try discriminate.
    - intros _. exists 0%nat, r0. split; [lia | exact A0].
    - reflexivity.
    - intro H. destruct (H 0%nat ltac:(lia)) as [e E]. cbn [Nat.add] in E. congruence. }
  destruct (unstake gw (S (tick w))) as [r1|e1] eqn:E1.
  { assert (A1 : first_answer (unstake gw) (tick w) 1 r1).
    { split; [exact E1|]. intros j Hj. assert (j = 0%nat) as -> by lia. now exists e0. }
    rewrite (R 1%nat r1 ltac:(lia) A1). split; split; try discriminate.
    - intros _. exists 1%nat, r1. split; [lia | exact A1].
    - reflexivity.
    - intro H. destruct (H 1%nat ltac:(lia)) as [e E]. cbn [Nat.add] in E. congruence. }
  destruct (unstake gw (S (S (tick w)))) as [r2|e2] eqn:E2.
  { assert (A2 : first_answer (unstake gw) (tick w) 2 r2).
    { split; [exact E2|]. intros j Hj.
      assert (j = 0%nat \/ j = 1%nat) as [-> | ->] by lia; [now exists e0 | now exists e1]. }
    rewrite (R 2%nat r2 ltac:(lia) A2). split; split; try discriminate.
    - intros _. exists 2%nat, r2. split; [lia | exact A2].
    - reflexivity.
    - intro H. destruct (H 2%nat ltac:(lia)) as [e E]. cbn [Nat.add] in E. congruence. }
  assert (AR : all_raise (unstake gw) (tick w) 3).
  { intros j Hj. destruct (lt_3_cases j Hj) as [-> | [-> | ->]];
      [now exists e0 | now exists e1 | now exists e2]. }
  rewrite (F AR). split; split; try discriminate; try reflexivity.
  - intros (k & res & Hk & [Hres _]).
    destruct (lt_3_cases k Hk) as [-> | [-> | ->]]; cbn [Nat.add] in Hres; congruence.
  - intros _. exact AR.
Qed.

End Unstake.

Lemma unstake_sn73_outcome_witness :
  first_answer (unstake (Cases.flaky 1)) 0 1 false /\
  unstake_sn73 (Cases.flaky 1) 3 Scenario.start =
  (Ok true,
   mkWorld init_bot None 2 [CallUnstake 3; CallSleep 10; CallUnstake 3]).
Proof.
  assert (A : first_answer (unstake (Cases.flaky 1)) 0 1 false).
  { split; [reflexivity|]. intros j Hj. exists Transient.
    assert (j = 0%nat) as -> by lia. reflexivity. }
  split; [exact A|].
  exact (proj1 (unstake_sn73_outcome (Cases.flaky 1) 3 Scenario.start)
           1%nat false ltac:(lia) A).
Defined.

(** ** The slippage guard, continued *)

(** X5.  [check_price_slippage] never raises, and it accepts only a price it
    has just fetched: when it returns [(True, q)], [q] is the answer of its
    own [get_subnet_info] call, the expected price is not zero, the slippage
    [|(q - p) / p| * 100] is at most the configured maximum, and [q] is within
    the tolerance band on the unfavourable side (not above for a buy, not
    below for a sell). *)
Theorem check_price_slippage_accepts (cfg : Config) (gw : Gateway) (p : Q)
  (trade : trade_type) (w : World) :
  (exists v, fst (check_price_slippage cfg gw p trade w) = Ok v) /\
  (forall q, fst (check_price_slippage cfg gw p trade w) = Ok (SlipOk q) ->
     fst (get_subnet_info gw w) = Ok (Some q) /\
     ~ p == 0 /\
     Qabs ((q - p) / p) * 100 <= getattr (max_slippage_percent cfg) 2 /\
     match trade with
     | Buy => q <= p * (1 + getattr (price_check_tolerance cfg) 1 / 100)
     | Sell => p * (1 - getattr (price_check_tolerance cfg) 1 / 100) <= q
     end).
Proof.
  unfold check_price_slippage, try_except, bind.
  destruct (get_subnet_info gw w) as [[[c|]|] w1]; cbn [fst].
  - destruct (Qeq_bool p 0) eqn:Z.
    + split; [now eexists | discriminate].
    + destruct (Qltb _ (Qabs _ * 100)) eqn:B1.
      * split; [now eexists | discriminate].
      * apply Qltb_ge in B1.
        assert (NZ : ~ p == 0).
        { intro E. apply Qeq_bool_iff in E. congruence. }
        destruct trade; destruct (Qltb _ _) eqn:B2;
          (split; [now eexists|]); try discriminate;
          intros q [= <-]; apply Qltb_ge in B2; now repeat split.
  - split; [now eexists | discriminate].
  - split; [now eexists | discriminate].
Qed.

Lemma check_price_slippage_accepts_witness :
  fst (check_price_slippage Scenario.cfg (Scenario.market 1) 1 Buy Scenario.start) =
    Ok (SlipOk 1) /\
  Qabs ((1 - 1) / 1) * 100 <= getattr (max_slippage_percent Scenario.cfg) 2.
Proof.
  assert (E : fst (check_price_slippage Scenario.cfg (Scenario.market 1) 1 Buy
                     Scenario.start) = Ok (SlipOk 1)) by reflexivity.
  split; [exact E|].
  exact (proj1 (proj2 (proj2
           (proj2 (check_price_slippage_accepts Scenario.cfg (Scenario.market 1)
                     1 Buy Scenario.start) 1 E)))).
Defined.

(** X6.  The ways [check_price_slippage] fails without judging a price: a
    subnet that is not listed gives "Could not get current price"; an
    exhausted price query and an expected price of zero (the division raises)
    both give "Error checking slippage".  In every case the only thing the
    guard does to the world is its one [get_subnet_info] call. *)
Theorem check_price_slippage_errors (cfg : Config) (gw : Gateway) (p : Q)
  (trade : trade_type) (w : World) :
  (fst (get_subnet_info gw w) = Ok None ->
   fst (check_price_slippage cfg gw p trade w) = Ok (SlipNo NoCurrentPrice)) /\
  (fst (get_subnet_info gw w) = Exn ->
   fst (check_price_slippage cfg gw p trade w) = Ok (SlipNo SlippageError)) /\
  (forall q, fst (get_subnet_info gw w) = Ok (Some q) -> p == 0 ->
   fst (check_price_slippage cfg gw p trade w) = Ok (SlipNo SlippageError)) /\
  snd (check_price_slippage cfg gw p trade w) = snd (get_subnet_info gw w).
Proof.
  unfold check_price_slippage, try_except, bind.
  destruct (get_subnet_info gw w) as [[[c|]|] w1]; cbn [fst snd].
  - split; [discriminate|]. split; [discriminate|]. split.
    + intros q _ Hp. apply Qeq_bool_iff in Hp. now rewrite Hp.
    + destruct (Qeq_bool p 0); [reflexivity|].
      destruct (Qltb _ (Qabs _ * 100)); [reflexivity|].
      destruct trade; destruct (Qltb _ _); reflexivity.
  - split; [reflexivity|]. split; [discriminate|]. split; [discriminate | reflexivity].
  - split; [discriminate|]. split; [reflexivity|]. split; [discriminate | reflexivity].
Qed.

Lemma check_price_slippage_errors_witness :
  fst (get_subnet_info (Scenario.market 1) Scenario.start) = Ok (Some 1) /\
  0 == 0 /\
  fst (check_price_slippage Scenario.cfg (Scenario.market 1) 0 Sell Scenario.start) =
  Ok (SlipNo SlippageError).
Proof.
  split; [reflexivity|]. split; [reflexivity|].
  exact (proj1 (proj2 (proj2
           (check_price_slippage_errors Scenario.cfg (Scenario.market 1) 0 Sell
              Scenario.start))) 1 eq_refl (Qeq_refl 0)).
Defined.

(** ** The fee reserve *)

Lemma py_max0_nonneg (x : Q) : 0 <= py_max0 x.
Proof.
  unfold py_max0. destruct (Qltb 0 x) eqn:B; [|apply Qle_refl].
  apply Qltb_lt in B. now apply Qlt_le_weak.
Qed.

Lemma py_max0_pos (x : Q) : 0 <= x -> py_max0 x == x.
Proof.
  intro H. unfold py_max0. destruct (Qltb 0 x) eqn:B; [reflexivity|].
  apply Qltb_ge in B. now apply Qle_antisym.
Qed.

Lemma py_max0_neg (x : Q) : x <= 0 -> py_max0 x == 0.
Proof.
  intro H. unfold py_max0. destruct (Qltb 0 x) eqn:B; [|reflexivity].
  apply Qltb_lt in B. exfalso. exact (Qlt_not_le _ _ B H).
Qed.




(** ** The time gate, continued *)

(** X8.  The two readings of the time gate agree: for the same ledger and the
    same clock value, [is_time_for_dca] returns [True] exactly when
    [get_time_until_next_dca] returns 0, and the waiting time is never
    negative. *)
Theorem time_gate_agrees (cfg : Config) (gw : Gateway) (w1 w2 : World) :
  bot w2 = bot w1 ->
  clock gw (tick w2) = clock gw (tick w1) ->
  exists due wait,
    fst (is_time_for_dca cfg gw w1) = Ok due /\
    fst (get_time_until_next_dca cfg gw w2) = Ok wait /\
    0 <= wait /\
    (due = true <-> wait == 0).
Proof.
  intros Hb Hc.
  unfold is_time_for_dca, get_time_until_next_dca, bind, observe, get_bot.
  cbn [fst snd bot step]. rewrite Hb.
  destruct (Qeq_bool (last_dca_time (bot w1)) 0).
  - exists true, 0. cbn [fst]. repeat split; try reflexivity. apply Qle_refl.
  - cbn [fst ret]. rewrite Hc.
    eexists. eexists. split; [reflexivity|]. split; [reflexivity|].
    split; [apply py_max0_nonneg|].
    set (span := dca_interval_hours cfg * 3600).
    set (elapsed := clock gw (tick w1) - last_dca_time (bot w1)).
    assert (D : (span - elapsed) / 60 == (span - elapsed) * (1 # 60))
      by reflexivity.
    split; intro H.
    + apply Qle_bool_iff in H. apply py_max0_neg. rewrite D. lra.
    + apply Qle_bool_iff.
      destruct (Qlt_le_dec 0 ((span - elapsed) / 60)) as [P | N].
      * rewrite (py_max0_pos _ (Qlt_le_weak _ _ P)) in H. lra.
      * rewrite D in N. lra.
Qed.

Lemma time_gate_agrees_witness :
  exists due wait,
    fst (is_time_for_dca Scenario.cfg (Scenario.market 1)
           (Scenario.after_purchase 1)) = Ok due /\
    fst (get_time_until_next_dca Scenario.cfg (Scenario.market 1)
           (Scenario.after_purchase 1)) = Ok wait /\
    0 <= wait /\
    (due = true <-> wait == 0).
Proof.
  exact (time_gate_agrees Scenario.cfg (Scenario.market 1)
           (Scenario.after_purchase 1) (Scenario.after_purchase 1)
           eq_refl eq_refl).
Defined.

(** ** No exception escapes *)

Lemma returns_try_except {A : Type} (m h : M A) :
  returns h -> returns (try_except m h).
Proof.
  intros Hh w. unfold try_except.
  destruct (m w) as [[a|] w1]; [now exists a | apply Hh].
Qed.

Lemma returns_ret {A : Type} (a : A) : returns (ret a).
Proof. intro w. now exists a. Qed.

Lemma returns_stake_sn73_loop (gw : Gateway) (n : nat) (a : Q) :
  returns (stake_sn73_loop gw n a).
Proof.
  induction n as [|n IH]; cbn [stake_sn73_loop]; [apply returns_ret|].
  apply returns_try_except. destruct n; [apply returns_ret|].
  intro w. rewrite sleep_then. apply IH.
Qed.

(** X9.  No exception escapes from a purchase, a sell scan or a cycle,
    whatever the network does: [execute_dca_purchase] and [stake_sn73] always
    return a boolean, [check_and_execute_sells] always returns, and
    [micro_grid_cycle] always returns [True], so the loop of [run] never ends
    through its [if not should_continue: break]. *)
Theorem no_exception_escapes (cfg : Config) (gw : Gateway) (w : World) :
  (exists b, fst (execute_dca_purchase cfg gw w) = Ok b) /\
  (forall amount, exists b, fst (stake_sn73 gw amount w) = Ok b) /\
  fst (check_and_execute_sells cfg gw w) = Ok tt /\
  fst (micro_grid_cycle cfg gw w) = Ok true.
Proof.
  split; [|split; [|split]].
  - apply returns_try_except, returns_ret.
  - intro amount. apply returns_stake_sn73_loop.
  - unfold check_and_execute_sells, bind at 1, get_bot.
    destruct (active_positions (bot w)); [reflexivity|].
    unfold try_except.
    match goal with |- fst (match ?m w with _ => _ end) = _ =>
      destruct (m w) as [[[]|] w1] end; reflexivity.
  - unfold micro_grid_cycle, try_except, bind.
    destruct (dca_phase cfg gw w) as [[u|] w1]; [|reflexivity].
    destruct (check_and_execute_sells cfg gw w1) as [[u'|] w2]; [|reflexivity].
    destruct (print_status cfg gw w2) as [[u''|] w3]; reflexivity.
Qed.

(** ** Purchases, continued *)

Lemma wp_run {A : Type} (m : M A) (post : result A -> World -> Prop) (w : World) :
  (forall r w', m w = (r, w') -> post r w') -> wp m post w.
Proof.
  intro H. unfold wp. apply H. now destruct (m w).
Qed.

Lemma untouched_run {A : Type} (m : M A) (w w' : World) (r : result A) :
  untouched m -> m w = (r, w') ->
  bot w' = bot w /\ disk w' = disk w /\ (tick w <= tick w')%nat.
Proof.
  intros U E. specialize (U w). now rewrite E in U.
Qed.

Lemma check_price_slippage_inversion (cfg : Config) (gw : Gateway) (p q : Q)
  (trade : trade_type) (w : World) :
  fst (check_price_slippage cfg gw p trade w) = Ok (SlipOk q) ->
  fst (get_subnet_info gw w) = Ok (Some q) /\
  ~ p == 0 /\
  Qabs ((q - p) / p) * 100 <= getattr (max_slippage_percent cfg) 2 /\
  match trade with
  | Buy => q <= p * (1 + getattr (price_check_tolerance cfg) 1 / 100)
  | Sell => p * (1 - getattr (price_check_tolerance cfg) 1 / 100) <= q
  end.
Proof.
  unfold check_price_slippage, try_except, bind.
  destruct (get_subnet_info gw w) as [[[c|]|] w1]; cbn [fst]; try discriminate.
  destruct (Qeq_bool p 0) eqn:Z; [discriminate|].
  destruct (Qltb _ (Qabs _ * 100)) eqn:B1; [discriminate|].
  apply Qltb_ge in B1.
  assert (NZ : ~ p == 0).
  { intro E. apply Qeq_bool_iff in E. congruence. }
  destruct trade; destruct (Qltb _ _) eqn:B2; try discriminate;
    intros [= <-]; apply Qltb_ge in B2; now repeat split.
Qed.

(** X10.  A purchase changes the ledger only after every guard has passed:
    the first quoted price [p] is not above [max_entry_price] (when one is
    configured), the wallet balance fetched next covers [dca_amount] after the
    fee reserve, and the price [q] fetched by the slippage guard was accepted
    against [p].  The position is then recorded at the fresh price [q], not at
    [p]: [buy_price = q], [alpha_amount = dca_amount / q].  The ceiling is
    tested on [p] only. *)
Theorem purchase_passed_its_guards (cfg : Config) (gw : Gateway) (w : World) :
  bot (snd (execute_dca_purchase cfg gw w)) <> bot w ->
  exists p bal q now created,
    fst (get_subnet_info gw w) = Ok (Some p) /\
    (forall c, max_entry_price cfg = Some c -> p <= c) /\
    fst (get_wallet_balance gw (snd (get_subnet_info gw w))) = Ok bal /\
    dca_amount cfg <= get_available_balance_for_trading cfg bal /\
    ~ p == 0 /\ ~ q == 0 /\
    Qabs ((q - p) / p) * 100 <= getattr (max_slippage_percent cfg) 2 /\
    q <= p * (1 + getattr (price_check_tolerance cfg) 1 / 100) /\
    bot (snd (execute_dca_purchase cfg gw w)) =
      record_purchase cfg now created q (dca_amount cfg / q) (bot w).
Proof.
  change (wp (execute_dca_purchase cfg gw)
            (fun _ w' =>
               bot w' <> bot w ->
               exists p bal q now created,
                 fst (get_subnet_info gw w) = Ok (Some p) /\
                 (forall c, max_entry_price cfg = Some c -> p <= c) /\
                 fst (get_wallet_balance gw (snd (get_subnet_info gw w))) = Ok bal /\
                 dca_amount cfg <= get_available_balance_for_trading cfg bal /\
                 ~ p == 0 /\ ~ q == 0 /\
                 Qabs ((q - p) / p) * 100 <= getattr (max_slippage_percent cfg) 2 /\
                 q <= p * (1 + getattr (price_check_tolerance cfg) 1 / 100) /\
                 bot w' = record_purchase cfg now created q (dca_amount cfg / q) (bot w))
            w).
  unfold execute_dca_purchase.
  apply wp_try_except. apply wp_bind. apply wp_run. intros r1 w1 E1.
  destruct (untouched_run _ _ _ _ (untouched_get_subnet_info gw) E1) as (B1 & _ & _).
  destruct r1 as [[p|]|]; try (apply wp_ret; intro N; congruence).
  destruct (max_entry_price cfg) as [c|] eqn:Ec.
  - destruct (Qltb c p) eqn:Bc; [apply wp_ret; intro N; congruence|].
    apply Qltb_ge in Bc. revert Bc. generalize c, Ec. clear c Ec.
    intros c Ec Bc.
    assert (Hc : forall c', Some c = Some c' -> p <= c')
      by (intros c' [= <-]; exact Bc).
    revert Hc. generalize (Some c). clear c Ec Bc. intros ceiling Hc.
    apply wp_bind. apply wp_run. intros r2 w2 E2.
    destruct (untouched_run _ _ _ _ (untouched_get_wallet_balance gw) E2) as (B2 & _ & _).
    destruct r2 as [bal|]; [|apply wp_ret; intro N; congruence].
    destruct (Qltb _ (dca_amount cfg)) eqn:Bb; [apply wp_ret; intro N; congruence|].
    apply Qltb_ge in Bb.
    destruct (Qeq_bool p 0); [apply wp_raise, wp_ret; intro N; congruence|].
    apply wp_bind. apply wp_run. intros r3 w3 E3.
    destruct (untouched_run _ _ _ _ (untouched_check_price_slippage cfg gw p Buy) E3)
      as (B3 & _ & _).
    destruct r3 as [[q|why]|]; try (apply wp_ret; intro N; congruence).
    destruct (check_price_slippage_inversion cfg gw p q Buy w2)
      as (_ & NZp & Hslip & Hband); [now rewrite E3|].
    destruct (Qeq_bool q 0) eqn:Zq; [apply wp_raise, wp_ret; intro N; congruence|].
    apply wp_bind. apply wp_run. intros r4 w4 E4.
    destruct (untouched_run _ _ _ _ (untouched_stake_sn73_loop gw 3 (dca_amount cfg)) E4)
      as (B4 & _ & _).
    destruct r4 as [[|]|]; try (apply wp_ret; intro N; congruence).
    apply wp_bind, wp_observe. apply wp_bind, wp_observe.
    apply wp_bind, wp_modify_bot. apply wp_bind, wp_save_state. apply wp_ret.
    intros _. exists p, bal, q. eexists. eexists.
    rewrite E1. cbn [fst snd]. rewrite E2. cbn [fst bot step].
    repeat split; try assumption.
    + intro E. apply Qeq_bool_iff in E. congruence.
    + f_equal. congruence.
  - apply wp_bind. apply wp_run. intros r2 w2 E2.
    destruct (untouched_run _ _ _ _ (untouched_get_wallet_balance gw) E2) as (B2 & _ & _).
    destruct r2 as [bal|]; [|apply wp_ret; intro N; congruence].
    destruct (Qltb _ (dca_amount cfg)) eqn:Bb; [apply wp_ret; intro N; congruence|].
    apply Qltb_ge in Bb.
    destruct (Qeq_bool p 0); [apply wp_raise, wp_ret; intro N; congruence|].
    apply wp_bind. apply wp_run. intros r3 w3 E3.
    destruct (untouched_run _ _ _ _ (untouched_check_price_slippage cfg gw p Buy) E3)
      as (B3 & _ & _).
    destruct r3 as [[q|why]|]; try (apply wp_ret; intro N; congruence).
    destruct (check_price_slippage_inversion cfg gw p q Buy w2)
      as (_ & NZp & Hslip & Hband); [now rewrite E3|].
    destruct (Qeq_bool q 0) eqn:Zq; [apply wp_raise, wp_ret; intro N; congruence|].
    apply wp_bind. apply wp_run. intros r4 w4 E4.
    destruct (untouched_run _ _ _ _ (untouched_stake_sn73_loop gw 3 (dca_amount cfg)) E4)
      as (B4 & _ & _).
    destruct r4 as [[|]|]; try (apply wp_ret; intro N; congruence).
    apply wp_bind, wp_observe. apply wp_bind, wp_observe.
    apply wp_bind, wp_modify_bot. apply wp_bind, wp_save_state. apply wp_ret.
    intros _. exists p, bal, q. eexists. eexists.
    rewrite E1. cbn [fst snd]. rewrite E2. cbn [fst bot step].
    repeat split; try assumption.
    + discriminate.
    + intro E. apply Qeq_bool_iff in E. congruence.
    + f_equal. congruence.
Qed.

Lemma purchase_passed_its_guards_witness :
  bot (snd (execute_dca_purchase Scenario.cfg (Scenario.market 1) Scenario.start)) <>
  bot Scenario.start /\
  exists p bal q now created,
    fst (get_subnet_info (Scenario.market 1) Scenario.start) = Ok (Some p) /\
    (forall c, max_entry_price Scenario.cfg = Some c -> p <= c) /\
    fst (get_wallet_balance (Scenario.market 1)
           (snd (get_subnet_info (Scenario.market 1) Scenario.start))) = Ok bal /\
    dca_amount Scenario.cfg <= get_available_balance_for_trading Scenario.cfg bal /\
    ~ p == 0 /\ ~ q == 0 /\
    Qabs ((q - p) / p) * 100 <= getattr (max_slippage_percent Scenario.cfg) 2 /\
    q <= p * (1 + getattr (price_check_tolerance Scenario.cfg) 1 / 100) /\
    bot (snd (execute_dca_purchase Scenario.cfg (Scenario.market 1) Scenario.start)) =
      record_purchase Scenario.cfg now created q (dca_amount Scenario.cfg / q)
        (bot Scenario.start).
Proof.
  assert (N : bot (snd (execute_dca_purchase Scenario.cfg (Scenario.market 1)
                          Scenario.start)) <> bot Scenario.start)
    by discriminate.
  split; [exact N|].
  exact (purchase_passed_its_guards Scenario.cfg (Scenario.market 1)
           Scenario.start N).
Defined.

Lemma get_wallet_balance_returned (gw : Gateway) (w : World) (x : Q) :
  get_balance gw (tick w) = Returned x ->
  get_wallet_balance gw w = (Ok x, step w).
Proof.
  intro E. unfold get_wallet_balance. cbn [get_wallet_balance_loop].
  now apply ask_returned.
Qed.

Lemma check_price_slippage_buy_accepted (cfg : Config) (gw : Gateway) (p q : Q)
  (w w1 : World) :
  get_subnet_info gw w = (Ok (Some q), w1) ->
  ~ p == 0 ->
  Qabs ((q - p) / p) * 100 <= getattr (max_slippage_percent cfg) 2 ->
  q <= p * (1 + getattr (price_check_tolerance cfg) 1 / 100) ->
  check_price_slippage cfg gw p Buy w = (Ok (SlipOk q), w1).
Proof.
  intros E NZ Hs Hb. unfold check_price_slippage, try_except, bind. rewrite E.
  assert (Z : Qeq_bool p 0 = false).
  { destruct (Qeq_bool p 0) eqn:B; [|reflexivity].
    apply Qeq_bool_iff in B. contradiction. }
  rewrite Z. apply Qltb_ge in Hs. rewrite Hs.
  apply Qltb_ge in Hb. now rewrite Hb.
Qed.

(** X11.  When the network answers at once and every guard passes, the
    purchase goes through in six steps: price, balance, fresh price, one
    [add_stake] call for [dca_amount], clock, wall clock.  The ledger gets one
    new active position at the fresh price [q], the state file is written and
    the result is [True], whatever value [add_stake] returned. *)
Theorem purchase_goes_through (cfg : Config) (gw : Gateway) (w : World)
  (p bal q : Q) (res : bool) :
  all_subnets gw (tick w) = Returned (Some p) ->
  get_balance gw (1 + tick w) = Returned bal ->
  all_subnets gw (2 + tick w) = Returned (Some q) ->
  add_stake gw (3 + tick w) = Returned res ->
  (forall c, max_entry_price cfg = Some c -> p <= c) ->
  dca_amount cfg <= get_available_balance_for_trading cfg bal ->
  ~ p == 0 -> ~ q == 0 ->
  Qabs ((q - p) / p) * 100 <= getattr (max_slippage_percent cfg) 2 ->
  q <= p * (1 + getattr (price_check_tolerance cfg) 1 / 100) ->
  execute_dca_purchase cfg gw w =
  (Ok true,
   let b' := record_purchase cfg (clock gw (4 + tick w)) (wall_clock gw (5 + tick w))
                             q (dca_amount cfg / q) (bot w) in
   mkWorld b' (Some (snapshot b')) (6 + tick w)
           (calls w ++ [CallAddStake (dca_amount cfg)])).
Proof.
  intros E1 E2 E3 E4 Hc Hbal NZp NZq Hs Hb.
  unfold execute_dca_purchase. unfold try_except, bind at 1.
  rewrite (get_subnet_info_returned gw w _ E1).
  assert (C : match max_entry_price cfg with
              | Some ceiling => Qltb ceiling p
              | None => false
              end = false).
  { destruct (max_entry_price cfg) as [c|]; [|reflexivity].
    apply Qltb_ge. now apply Hc. }
  rewrite C. unfold bind at 1.
  rewrite (get_wallet_balance_returned gw (step w) bal) by exact E2.
  apply Qltb_ge in Hbal. rewrite Hbal.
  assert (Zp : Qeq_bool p 0 = false).
  { destruct (Qeq_bool p 0) eqn:B; [|reflexivity].
    apply Qeq_bool_iff in B. contradiction. }
  assert (Zq : Qeq_bool q 0 = false).
  { destruct (Qeq_bool q 0) eqn:B; [|reflexivity].
    apply Qeq_bool_iff in B. contradiction. }
  rewrite Zp. unfold bind at 1.
  rewrite (check_price_slippage_buy_accepted cfg gw p q (step (step w))
             (step (step (step w)))); try assumption.
  2:{ apply get_subnet_info_returned. exact E3. }
  rewrite Zq. unfold bind at 1. unfold stake_sn73.
  rewrite (stake_sn73_loop_returned gw 2 (dca_amount cfg) _ res) by exact E4.
  reflexivity.
Qed.

Lemma purchase_goes_through_witness :
  all_subnets (Scenario.market 1) 0 = Returned (Some 1) /\
  get_balance (Scenario.market 1) 1 = Returned 10 /\
  add_stake (Scenario.market 1) 3 = Returned true /\
  execute_dca_purchase Scenario.cfg (Scenario.market 1) Scenario.start =
  (Ok true,
   let b' := record_purchase Scenario.cfg (clock (Scenario.market 1) 4)
                             (wall_clock (Scenario.market 1) 5)
                             1 (dca_amount Scenario.cfg / 1) init_bot in
   mkWorld b' (Some (snapshot b')) 6 [CallAddStake (dca_amount Scenario.cfg)]).
Proof.
  split; [reflexivity|]. split; [reflexivity|]. split; [reflexivity|].
  apply (purchase_goes_through Scenario.cfg (Scenario.market 1) Scenario.start
           1 10 1 true); try reflexivity; try discriminate.
Defined.

(** ** Which calls are made *)

Section Emits.

Context {A B : Type}.

Lemma emits_nothing (m : M A) (w : World) (allowed : Call -> Prop) :
  calls (snd (m w)) = calls w -> emits_at w allowed m.
Proof.
  intro E. exists []. rewrite E, app_nil_r. split; [reflexivity | constructor].
Qed.

Lemma emits_at_bind (m : M A) (k : A -> M B) (w : World) (allowed : Call -> Prop) :
  emits_at w allowed m ->
  (forall a w', m w = (Ok a, w') -> emits_at w' allowed (k a)) ->
  emits_at w allowed (bind m k).
Proof.
  intros (l1 & E1 & F1) Hk. unfold emits_at, bind.
  destruct (m w) as [[a|] w1] eqn:E; cbn [snd] in *.
  - destruct (Hk a w1 eq_refl) as (l2 & E2 & F2).
    exists (l1 ++ l2). rewrite E2, E1, app_assoc. split; [reflexivity|].
    apply Forall_app. now split.
  - now exists l1.
Qed.

Lemma emits_at_try_except (m h : M A) (w : World) (allowed : Call -> Prop) :
  emits_at w allowed m ->
  (forall w', m w = (Exn, w') -> emits_at w' allowed h) ->
  emits_at w allowed (try_except m h).
Proof.
  intros (l1 & E1 & F1) Hh. unfold emits_at, try_except.
  destruct (m w) as [[a|] w1] eqn:E; cbn [snd] in *.
  - now exists l1.
  - destruct (Hh w1 eq_refl) as (l2 & E2 & F2).
    exists (l1 ++ l2). rewrite E2, E1, app_assoc. split; [reflexivity|].
    apply Forall_app. now split.
Qed.

Lemma emits_at_weaken (m : M A) (w : World) (P Q : Call -> Prop) :
  (forall c, P c -> Q c) -> emits_at w P m -> emits_at w Q m.
Proof.
  intros H (l & E & F). exists l. split; [exact E|].
  eapply Forall_impl; [exact H | exact F].
Qed.

Lemma emits_at_ask (script : nat -> outcome A) (w : World) (allowed : Call -> Prop) :
  emits_at w allowed (ask script).
Proof.
  apply emits_nothing. unfold ask. now destruct (script (tick w)).
Qed.

End Emits.

Lemma emits_at_log_call (c : Call) (w : World) (allowed : Call -> Prop) :
  allowed c -> emits_at w allowed (log_call c).
Proof.
  intro H. exists [c]. split; [reflexivity | now constructor].
Qed.

Lemma is_sleep_sleep (n : Z) : is_sleep (CallSleep n).
Proof. now exists n. Qed.

Lemma emits_get_subnet_info_loop (gw : Gateway) (n : nat) :
  emits is_sleep (get_subnet_info_loop gw n).
Proof.
  induction n as [|n IH]; intro w; cbn [get_subnet_info_loop].
  - now apply emits_nothing.
  - apply emits_at_try_except; [apply emits_at_ask|]. intros w' _.
    destruct n; [now apply emits_nothing|].
    apply emits_at_bind; [apply emits_at_log_call, is_sleep_sleep|].
    intros _ w'' _. apply IH.
Qed.

Lemma emits_get_wallet_balance_loop (gw : Gateway) (n : nat) :
  emits is_sleep (get_wallet_balance_loop gw n).
Proof.
  induction n as [|n IH]; intro w; cbn [get_wallet_balance_loop].
  - now apply emits_nothing.
  - apply emits_at_try_except; [apply emits_at_ask|]. intros w' _.
    destruct n; [now apply emits_nothing|].
    apply emits_at_bind; [apply emits_at_log_call, is_sleep_sleep|].
    intros _ w'' _. apply IH.
Qed.

Lemma emits_check_price_slippage (cfg : Config) (gw : Gateway) (p : Q)
  (trade : trade_type) :
  emits is_sleep (check_price_slippage cfg gw p trade).
Proof.
  intro w. unfold check_price_slippage.
  apply emits_at_try_except; [|intros; now apply emits_nothing].
  apply emits_at_bind; [apply emits_get_subnet_info_loop|].
  intros [q|] w' _; [|now apply emits_nothing].
  repeat match goal with
         | |- emits_at _ _ (if ?c then _ else _) => destruct c
         | |- emits_at _ _ (match ?t with Buy => _ | Sell => _ end) => destruct t
         end; now apply emits_nothing.
Qed.

Lemma emits_stake_sn73_loop (gw : Gateway) (n : nat) (amount : Q) :
  emits (sleep_or_stake amount) (stake_sn73_loop gw n amount).
Proof.
  induction n as [|n IH]; intro w; cbn [stake_sn73_loop].
  - now apply emits_nothing.
  - apply emits_at_try_except.
    + apply emits_at_bind; [apply emits_at_log_call; now right|].
      intros _ w' _. apply emits_at_bind; [apply emits_at_ask|].
      intros; now apply emits_nothing.
    + intros w' _. destruct n; [now apply emits_nothing|].
      apply emits_at_bind; [apply emits_at_log_call; left; apply is_sleep_sleep|].
      intros _ w'' _. apply IH.
Qed.

Lemma emits_unstake_sn73_loop (gw : Gateway) (n : nat) (alpha : Q) :
  emits (sleep_or_unstake [alpha]) (unstake_sn73_loop gw n alpha).
Proof.
  induction n as [|n IH]; intro w; cbn [unstake_sn73_loop].
  - now apply emits_nothing.
  - apply emits_at_try_except.
    + apply emits_at_bind.
      * apply emits_at_log_call. right. exists alpha. split; [now left | reflexivity].
      * intros _ w' _. apply emits_at_bind; [apply emits_at_ask|].
        intros; now apply emits_nothing.
    + intros w' _. destruct n; [now apply emits_nothing|].
      apply emits_at_bind; [apply emits_at_log_call; left; apply is_sleep_sleep|].
      intros _ w'' _. apply IH.
Qed.

Lemma sleep_is_sleep_or_stake (amount : Q) (c : Call) :
  is_sleep c -> sleep_or_stake amount c.
Proof. now left. Qed.

Lemma sleep_is_sleep_or_unstake (amounts : list Q) (c : Call) :
  is_sleep c -> sleep_or_unstake amounts c.
Proof. now left. Qed.

(** X12.  Everything a purchase adds to the call log is a sleep or an
    [add_stake] of exactly [dca_amount]: [execute_dca_purchase] never
    withdraws and never deposits another amount. *)
Theorem purchase_only_stakes_dca_amount (cfg : Config) (gw : Gateway) (w : World) :
  exists l,
    calls (snd (execute_dca_purchase cfg gw w)) = calls w ++ l /\
    Forall (sleep_or_stake (dca_amount cfg)) l /\
    unstake_attempts (calls (snd (execute_dca_purchase cfg gw w))) =
    unstake_attempts (calls w).
Proof.
  assert (E : emits_at w (sleep_or_stake (dca_amount cfg))
                (execute_dca_purchase cfg gw)).
  { unfold execute_dca_purchase.
    apply emits_at_try_except; [|intros; now apply emits_nothing].
    apply emits_at_bind.
    { eapply emits_at_weaken; [apply sleep_is_sleep_or_stake|].
      apply emits_get_subnet_info_loop. }
    intros [p|] w1 _; [|now apply emits_nothing].
    destruct (match max_entry_price cfg with
              | Some ceiling => Qltb ceiling p
              | None => false
              end); [now apply emits_nothing|].
    apply emits_at_bind.
    { eapply emits_at_weaken; [apply sleep_is_sleep_or_stake|].
      apply emits_get_wallet_balance_loop. }
    intros bal w2 _.
    destruct (Qltb _ (dca_amount cfg)); [now apply emits_nothing|].
    destruct (Qeq_bool p 0); [now apply emits_nothing|].
    apply emits_at_bind.
    { eapply emits_at_weaken; [apply sleep_is_sleep_or_stake|].
      apply emits_check_price_slippage. }
    intros [q|why] w3 _; [|now apply emits_nothing].
    destruct (Qeq_bool q 0); [now apply emits_nothing|].
    apply emits_at_bind; [apply emits_stake_sn73_loop|].
    intros [|] w4 _; now apply emits_nothing. }
  destruct E as (l & E & F). exists l. split; [exact E|]. split; [exact F|].
  rewrite E. clear E. induction (calls w) as [|c r IH]; cbn [app].
  - induction F as [|c l [[n ->] | ->] _ IH]; [reflexivity | exact IH | exact IH].
  - destruct c; cbn [unstake_attempts]; now rewrite IH.
Qed.

Lemma map_alpha_list_set (l : list position) :
  forall (i : nat) (p p' : position),
    nth_error l i = Some p -> alpha_amount p' = alpha_amount p ->
    map alpha_amount (list_set i p' l) = map alpha_amount l.
Proof.
  induction l as [|x l IH]; intros [|i] p p' H Ha; simpl in *; try discriminate.
  - injection H as ->. now rewrite Ha.
  - now rewrite (IH i p p' H Ha).
Qed.

Lemma sell_iteration_alphas (cfg : Config) (gw : Gateway) (i : nat)
  (st : Q * list position) (w : World) :
  alphas (bot (snd (sell_iteration cfg gw i st w))) = alphas (bot w).
Proof.
  destruct (sell_iteration_outcome cfg gw i st w)
    as [Hb _ _ | Hb _ _ | p price sold_at Hnth _ _ Hb _ _]; rewrite Hb.
  - reflexivity.
  - reflexivity.
  - unfold alphas. cbn [record_sale active_positions].
    now apply map_alpha_list_set with p.
Qed.

Lemma sell_iteration_emits (cfg : Config) (gw : Gateway) (i : nat)
  (st : Q * list position) (w : World) :
  emits_at w (sleep_or_unstake (alphas (bot w))) (sell_iteration cfg gw i st).
Proof.
  unfold sell_iteration. destruct st as [current_price positions_to_remove].
  apply emits_at_bind; [now apply emits_nothing|].
  intros b w0 [= <- <-].
  destruct (nth_error (active_positions (bot w)) i) as [p|] eqn:Hnth;
    [|now apply emits_nothing].
  assert (Hin : In (alpha_amount p) (alphas (bot w))).
  { unfold alphas. apply in_map. eapply nth_error_In. exact Hnth. }
  destruct (status p); [|now apply emits_nothing].
  destruct (Qle_bool (sell_target_price p) current_price).
  - apply emits_at_bind.
    { eapply emits_at_weaken; [apply sleep_is_sleep_or_unstake|].
      apply emits_check_price_slippage. }
    intros [q|why] w1 _; [|now apply emits_nothing].
    apply emits_at_bind.
    { eapply emits_at_weaken; [|apply emits_unstake_sn73_loop].
      intros c [Hs | (a & [<- | []] & ->)]; [now left|].
      right. now exists (alpha_amount p). }
    intros [|] w2 _.
    + destruct (Qeq_bool (tao_invested p) 0); now apply emits_nothing.
    + now apply emits_nothing.
  - destruct (stop_loss_percent cfg) as [sl|]; [|now apply emits_nothing].
    destruct (Qltb 0 sl); [|now apply emits_nothing].
    destruct (Qle_bool _ _); now apply emits_nothing.
Qed.

Lemma sell_loop_emits (cfg : Config) (gw : Gateway) (indices : list nat) :
  forall (st : Q * list position) (w : World),
    emits_at w (sleep_or_unstake (alphas (bot w))) (sell_loop cfg gw indices st).
Proof.
  induction indices as [|i rest IH]; intros st w; cbn [sell_loop].
  - now apply emits_nothing.
  - apply emits_at_bind; [apply sell_iteration_emits|].
    intros st' w' E.
    rewrite <- (sell_iteration_alphas cfg gw i st w), E. cbn [snd]. apply IH.
Qed.

Lemma remove_sold_calls (l : list position) :
  forall w, calls (snd (remove_sold l w)) = calls w.
Proof.
  induction l as [|p rest IH]; intro w; cbn [remove_sold]; [reflexivity|].
  unfold bind, get_bot, modify_bot.
  destruct (list_remove p (active_positions (bot w))); [|reflexivity].
  now rewrite IH.
Qed.

Lemma check_and_execute_sells_emits (cfg : Config) (gw : Gateway) (w : World) :
  emits_at w (sleep_or_unstake (alphas (bot w))) (check_and_execute_sells cfg gw).
Proof.
  unfold check_and_execute_sells.
  apply emits_at_bind; [now apply emits_nothing|].
  intros b w0 [= <- <-].
  destruct (active_positions (bot w)) as [|p0 l0] eqn:Hact;
    [now apply emits_nothing|].
  apply emits_at_try_except; [|intros; now apply emits_nothing].
  apply emits_at_bind.
  { eapply emits_at_weaken; [apply sleep_is_sleep_or_unstake|].
    apply emits_get_subnet_info_loop. }
  intros [price|] w1 E1; [|now apply emits_nothing].
  destruct (untouched_run _ _ _ _ (untouched_get_subnet_info gw) E1) as (B1 & _ & _).
  apply emits_at_bind.
  { rewrite <- B1. apply sell_loop_emits. }
  intros st' w2 _. apply emits_nothing. apply remove_sold_calls.
Qed.

(** X13.  Everything a sell scan adds to the call log is a sleep or an
    [unstake] of the [alpha_amount] of a position that was in the active list
    when the scan started: [check_and_execute_sells] never deposits, and never
    withdraws an amount that is not a position's own. *)
Theorem sell_scan_only_unstakes_positions (cfg : Config) (gw : Gateway) (w : World) :
  exists l,
    calls (snd (check_and_execute_sells cfg gw w)) = calls w ++ l /\
    Forall (sleep_or_unstake (alphas (bot w))) l /\
    stake_attempts (calls (snd (check_and_execute_sells cfg gw w))) =
    stake_attempts (calls w).
Proof.
  pose proof (check_and_execute_sells_emits cfg gw w) as E.
  destruct E as (l & E & F). exists l. split; [exact E|]. split; [exact F|].
  rewrite E, stake_attempts_app.
  assert (Z : stake_attempts l = 0%nat).
  { clear E. induction F as [|c l [[n ->] | (a & _ & ->)] _ IH];
      [reflexivity | exact IH | exact IH]. }
  rewrite Z. lia.
Qed.

(** ** Sales, continued *)

(** X14.  An iteration of the sell scan records a sale only for an active
    position whose target the carried price [price] has reached, and only at
    a freshly fetched price [q] that the sell-side slippage guard accepted
    against [price].  The sale is booked at [q], which can lie below the
    target by up to the tolerance band. *)
Theorem sale_passed_its_guards (cfg : Config) (gw : Gateway) (w : World)
  (i : nat) (price : Q) (removed : list position) :
  successful_sells (bot (snd (sell_iteration cfg gw i (price, removed) w))) <>
  successful_sells (bot w) ->
  exists p q sold_at,
    nth_error (active_positions (bot w)) i = Some p /\
    status p = Active /\
    sell_target_price p <= price /\
    fst (check_price_slippage cfg gw price Sell w) = Ok (SlipOk q) /\
    ~ price == 0 /\
    Qabs ((q - price) / price) * 100 <= getattr (max_slippage_percent cfg) 2 /\
    price * (1 - getattr (price_check_tolerance cfg) 1 / 100) <= q /\
    ~ tao_invested p == 0 /\
    bot (snd (sell_iteration cfg gw i (price, removed) w)) =
      record_sale i p q sold_at (bot w).
Proof.
  change (wp (sell_iteration cfg gw i (price, removed))
            (fun _ w' =>
               successful_sells (bot w') <> successful_sells (bot w) ->
               exists p q sold_at,
                 nth_error (active_positions (bot w)) i = Some p /\
                 status p = Active /\
                 sell_target_price p <= price /\
                 fst (check_price_slippage cfg gw price Sell w) = Ok (SlipOk q) /\
                 ~ price == 0 /\
                 Qabs ((q - price) / price) * 100 <=
                   getattr (max_slippage_percent cfg) 2 /\
                 price * (1 - getattr (price_check_tolerance cfg) 1 / 100) <= q /\
                 ~ tao_invested p == 0 /\
                 bot w' = record_sale i p q sold_at (bot w))
            w).
  unfold sell_iteration. apply wp_bind, wp_get_bot.
  destruct (nth_error (active_positions (bot w)) i) as [p|] eqn:Hnth;
    [|apply wp_ret; intro N; congruence].
  destruct (status p) eqn:Hact; [|apply wp_ret; intro N; congruence].
  destruct (Qle_bool (sell_target_price p) price) eqn:Ht.
  - apply Qle_bool_iff in Ht.
    apply wp_bind. apply wp_run. intros r1 w1 E1.
    destruct (untouched_run _ _ _ _ (untouched_check_price_slippage cfg gw price Sell) E1)
      as (B1 & _ & _).
    destruct r1 as [[q|why]|]; try (apply wp_ret; intro N; congruence);
      [|intro N; congruence].
    assert (V : fst (check_price_slippage cfg gw price Sell w) = Ok (SlipOk q))
      by now rewrite E1.
    destruct (check_price_slippage_inversion cfg gw price q Sell w V)
      as (_ & NZ & Hs & Hb).
    apply wp_bind. apply wp_run. intros r2 w2 E2.
    destruct (untouched_run _ _ _ _ (untouched_unstake_sn73_loop gw 3 (alpha_amount p)) E2)
      as (B2 & _ & _).
    destruct r2 as [[|]|].
    + destruct (Qeq_bool (tao_invested p) 0) eqn:Z;
        [apply wp_raise; intro N; congruence|].
      apply wp_bind, wp_observe. apply wp_bind, wp_modify_bot.
      apply wp_bind, wp_save_state. apply wp_ret.
      intros _. exists p, q. eexists.
      repeat split; try assumption.
      * intro E. apply Qeq_bool_iff in E. congruence.
      * cbn [bot step]. f_equal. congruence.
    + apply wp_bind, wp_modify_bot. apply wp_ret. cbn [bot].
      intro N. exfalso. apply N. cbn. congruence.
    + intro N. congruence.
  - destruct (stop_loss_percent cfg) as [sl|]; [|apply wp_ret; intro N; congruence].
    destruct (Qltb 0 sl); [|apply wp_ret; intro N; congruence].
    destruct (Qle_bool price _); apply wp_ret; intro N; congruence.
Qed.

Lemma sale_passed_its_guards_witness :
  successful_sells (bot Scenario.mid_sale) <>
  successful_sells (bot (Scenario.after_purchase (116 # 100))) /\
  exists p q sold_at,
    nth_error (active_positions (bot (Scenario.after_purchase (116 # 100)))) 0 = Some p /\
    status p = Active /\
    sell_target_price p <= 116 # 100 /\
    fst (check_price_slippage Scenario.cfg (Scenario.market (116 # 100)) (116 # 100)
           Sell (Scenario.after_purchase (116 # 100))) = Ok (SlipOk q) /\
    ~ 116 # 100 == 0 /\
    Qabs ((q - (116 # 100)) / (116 # 100)) * 100 <=
      getattr (max_slippage_percent Scenario.cfg) 2 /\
    (116 # 100) * (1 - getattr (price_check_tolerance Scenario.cfg) 1 / 100) <= q /\
    ~ tao_invested p == 0 /\
    bot Scenario.mid_sale =
      record_sale 0 p q sold_at (bot (Scenario.after_purchase (116 # 100))).
Proof.
  assert (N : successful_sells (bot Scenario.mid_sale) <>
              successful_sells (bot (Scenario.after_purchase (116 # 100))))
    by discriminate.
  split; [exact N|].
  exact (sale_passed_its_guards Scenario.cfg (Scenario.market (116 # 100))
           (Scenario.after_purchase (116 # 100)) 0 (116 # 100) [] N).
Defined.

(** ** The books of completed trades *)

Section Related.

Variable R : position -> position -> Prop.
Hypothesis R_refl : forall p, R p p.
Hypothesis R_trans : forall p q r, R p q -> R q r -> R p r.
Hypothesis R_json : forall p, R p (json_position p).

Lemma Forall2_related_refl (l : list position) : Forall2 R l l.
Proof. induction l; constructor; auto. Qed.

Lemma Forall2_related_trans (l1 l2 l3 : list position) :
  Forall2 R l1 l2 -> Forall2 R l2 l3 -> Forall2 R l1 l3.
Proof.
  intro H. revert l3. induction H; intros l3 H'; inversion H'; subst;
    constructor; eauto.
Qed.

Lemma Forall2_related_json (l : list position) :
  Forall2 R l (map json_position l).
Proof. induction l; simpl; constructor; auto. Qed.

Lemma revive_all_related (body : position -> position * bool) :
  (forall p, R p (fst (body p))) ->
  forall l, Forall2 R l (fst (revive_all body l)).
Proof.
  intros Hbody l. induction l as [|p l IH]; simpl; [constructor|].
  specialize (Hbody p). destruct (body p) as [p' ok]. cbn [fst] in Hbody.
  destruct ok.
  - destruct (revive_all body l) as [r' ok']. cbn [fst] in *. now constructor.
  - cbn [fst]. constructor; [exact Hbody | apply Forall2_related_refl].
Qed.

Lemma restore_snapshot_completed_related (b : Bot) :
  (forall p, R p (fst (revive_trade p))) ->
  Forall2 R (completed_trades b) (completed_trades (restore (snapshot b))).
Proof.
  intro Hbody. rewrite restore_completed.
  cbn [snapshot s_active_positions s_completed_trades].
  eapply Forall2_related_trans; [apply Forall2_related_json|].
  destruct (snd _); [now apply revive_all_related | apply Forall2_related_refl].
Qed.

End Related.

Lemma same_numbers_refl (p : position) : same_numbers p p.
Proof.
  unfold same_numbers. destruct (sale_info p); now repeat split.
Qed.

Lemma same_numbers_trans (p q r : position) :
  same_numbers p q -> same_numbers q r -> same_numbers p r.
Proof.
  unfold same_numbers.
  intros (A1 & A2 & A3 & A4 & A5 & A6 & A7 & A8) (B1 & B2 & B3 & B4 & B5 & B6 & B7 & B8).
  repeat split; try congruence.
  destruct (sale_info p), (sale_info q), (sale_info r); try contradiction; auto.
  destruct A8 as (? & ? & ? & ?), B8 as (? & ? & ? & ?). repeat split; congruence.
Qed.

Lemma same_numbers_json (p : position) : same_numbers p (json_position p).
Proof.
  unfold same_numbers. cbn [json_position pos_id buy_price sell_target_price
    alpha_amount tao_invested status profit_percent sale_info].
  destruct (sale_info p); now repeat split.
Qed.

Lemma same_numbers_revive_trade (p : position) :
  same_numbers p (fst (revive_trade p)).
Proof.
  unfold revive_trade.
  destruct (revive (created_timestamp p)); [|apply same_numbers_refl].
  cbn [sale_info set_created_timestamp].
  destruct (sale_info p) as [s|] eqn:E.
  - destruct (revive (sell_timestamp s)); unfold same_numbers; cbn; rewrite E;
      now repeat split.
  - unfold same_numbers; cbn; rewrite E; now repeat split.
Qed.

Lemma profit_of_same_numbers (p q : position) :
  same_numbers p q -> profit_of p = profit_of q.
Proof.
  unfold same_numbers, profit_of. intros (_ & _ & _ & _ & _ & _ & _ & H).
  destruct (sale_info p), (sale_info q); try contradiction; [|reflexivity].
  now destruct H as (_ & _ & -> & _).
Qed.

Lemma realized_sum_same_numbers (l l' : list position) :
  Forall2 same_numbers l l' -> realized_sum l = realized_sum l'.
Proof.
  induction 1 as [|p q l l' H _ IH]; simpl; [reflexivity|].
  now rewrite (profit_of_same_numbers p q H), IH.
Qed.

Lemma sale_consistent_same_numbers (p q : position) :
  same_numbers p q -> sale_consistent p -> sale_consistent q.
Proof.
  unfold same_numbers, sale_consistent.
  intros (_ & _ & _ & Ha & Ht & Hs & _ & H) (S & s & E & C1 & C2 & C3).
  rewrite E in H. destruct (sale_info q) as [s'|]; [|contradiction].
  destruct H as (H1 & H2 & H3 & H4).
  split; [congruence|]. exists s'. split; [reflexivity|].
  rewrite <- Ha, <- Ht, <- H1, <- H2, <- H3, <- H4. now repeat split.
Qed.

Lemma Forall_sale_consistent_same_numbers (l l' : list position) :
  Forall2 same_numbers l l' -> Forall sale_consistent l -> Forall sale_consistent l'.
Proof.
  induction 1 as [|p q l l' H _ IH]; intro F; [constructor|].
  inversion F; subst. constructor; [now apply (sale_consistent_same_numbers p) | auto].
Qed.

Lemma realized_sum_app (l r : list position) :
  realized_sum (l ++ r) == realized_sum l + realized_sum r.
Proof.
  induction l as [|p l IH]; simpl; [ring | rewrite IH; ring].
Qed.

Lemma sale_consistent_mark_sold (p : position) (price : Q) (sold_at : datetime) :
  sale_consistent (mark_sold p price sold_at).
Proof.
  split; [reflexivity|]. eexists. split; [reflexivity|].
  cbn. repeat split; reflexivity.
Qed.

#[export] Instance books_balanced_invariant : ledger_invariant books_balanced.
Proof.
  constructor; unfold books_balanced.
  - split; [reflexivity|]. split; [reflexivity | constructor].
  - intros cfg now created price alpha b H. exact H.
  - intros i p price sold_at b (H1 & H2 & H3) _ _.
    cbn [record_sale total_profit_realized completed_trades successful_sells].
    split; [|split].
    + rewrite realized_sum_app, H1. simpl. unfold profit_of. simpl. ring.
    + rewrite H2, length_app. simpl. lia.
    + apply Forall_app. split; [exact H3|].
      constructor; [apply sale_consistent_mark_sold | constructor].
  - intros n b H. exact H.
  - intros p l b H _ _. exact H.
  - intros b (H1 & H2 & H3).
    assert (F := restore_snapshot_completed_related same_numbers
                   same_numbers_refl same_numbers_trans same_numbers_json b
                   same_numbers_revive_trade).
    destruct (restore_scalars (snapshot b)) as (_ & _ & -> & -> & _).
    cbn [snapshot s_total_profit_realized s_successful_sells].
    split; [|split].
    + now rewrite <- (realized_sum_same_numbers _ _ F).
    + now rewrite <- (Forall2_length F).
    + exact (Forall_sale_consistent_same_numbers _ _ F H3).
Qed.

(** X15.  In every reachable state, restarts included, the cached
    [total_profit_realized] is the sum of [profit_tao] over the completed
    trades, and [successful_sells] is the number of completed trades. *)
Theorem realized_profit_is_sum_of_trades (cfg : Config) (gw : Gateway) (w : World) :
  reachable cfg gw w ->
  total_profit_realized (bot w) == realized_sum (completed_trades (bot w)) /\
  successful_sells (bot w) = Z.of_nat (List.length (completed_trades (bot w))).
Proof.
  intro R.
  destruct (proj1 (reachable_invariant (holds books_balanced) cfg gw w R))
    as (H1 & H2 & _).
  now split.
Qed.

Lemma realized_profit_is_sum_of_trades_witness :
  reachable Scenario.cfg (Scenario.market (116 # 100)) Scenario.after_sale /\
  total_profit_realized (bot Scenario.after_sale) ==
  realized_sum (completed_trades (bot Scenario.after_sale)).
Proof.
  assert (R : reachable Scenario.cfg (Scenario.market (116 # 100)) Scenario.after_sale)
    by (apply reach_sells, reach_purchase, reach_start).
  split; [exact R|].
  exact (proj1 (realized_profit_is_sum_of_trades Scenario.cfg
                  (Scenario.market (116 # 100)) Scenario.after_sale R)).
Defined.

(** X16.  In every reachable state, restarts included, every entry of
    [completed_trades] is a sold position whose sale keys agree:
    [tao_received = alpha_amount * sell_price],
    [profit_tao = tao_received - tao_invested] and
    [profit_percent_actual = profit_tao / tao_invested * 100]. *)
Theorem completed_trades_are_consistent (cfg : Config) (gw : Gateway) (w : World) :
  reachable cfg gw w ->
  forall p, In p (completed_trades (bot w)) ->
    status p = Sold /\
    exists s, sale_info p = Some s /\
      tao_received s == alpha_amount p * sell_price s /\
      profit_tao s == tao_received s - tao_invested p /\
      profit_percent_actual s == profit_tao s / tao_invested p * 100.
Proof.
  intros R p Hin.
  destruct (proj1 (reachable_invariant (holds books_balanced) cfg gw w R))
    as (_ & _ & H).
  rewrite Forall_forall in H. exact (H p Hin).
Qed.

Lemma completed_trades_are_consistent_witness :
  reachable Scenario.cfg (Scenario.market (116 # 100)) Scenario.after_sale /\
  (forall p, In p (completed_trades (bot Scenario.after_sale)) -> status p = Sold).
Proof.
  assert (R : reachable Scenario.cfg (Scenario.market (116 # 100)) Scenario.after_sale)
    by (apply reach_sells, reach_purchase, reach_start).
  split; [exact R|].
  intros p Hin.
  exact (proj1 (completed_trades_are_consistent Scenario.cfg
                  (Scenario.market (116 # 100)) Scenario.after_sale R p Hin)).
Defined.

(** ** The guards in front of a recorded trade *)

Lemma get_subnet_info_loop_quoted (gw : Gateway) (n : nat) :
  forall (w : World) (q : Q),
    fst (get_subnet_info_loop gw n w) = Ok (Some q) ->
    exists t, all_subnets gw t = Returned (Some q).
Proof.
  induction n as [|n IH]; intros w q; cbn [get_subnet_info_loop].
  - discriminate.
  - destruct (all_subnets gw (tick w)) as [a|e] eqn:E.
    + rewrite (ask_returned _ _ w a E). intros [= ->]. now exists (tick w).
    + rewrite (ask_raised _ _ w e E). destruct n; [discriminate|].
      rewrite sleep_then. apply IH.
Qed.

Section Guards.

Variable cfg : Config.
Variable gw : Gateway.

Ltac wp_call lemma :=
  apply wp_bind; apply wp_untouched; [ apply lemma | intros ? ? ? ? ? ].

(** A purchase that changes the ledger records a price the network quoted,
    stamps the new position with a reading of the wall clock and leaves the
    ledger in the state file. *)
Lemma execute_dca_purchase_stamp (w : World) :
  wp (execute_dca_purchase cfg gw)
     (fun _ w' =>
        (bot w' = bot w /\ disk w' = disk w) \/
        exists now t tq price,
          bot w' = record_purchase cfg now (wall_clock gw t) price
                     (dca_amount cfg / price) (bot w) /\
          persisted w' /\ ~ price == 0 /\
          all_subnets gw tq = Returned (Some price)) w.
Proof.
  unfold execute_dca_purchase.
  apply wp_try_except.
  apply wp_bind. apply wp_run. intros r1 w1 E1.
  destruct (untouched_run _ _ _ _ (untouched_get_subnet_info gw) E1) as (B1 & D1 & _).
  destruct r1 as [[current_price|]|];
    try (apply wp_ret; left; split; congruence).
  destruct (match max_entry_price cfg with
            | Some ceiling => Qltb ceiling current_price
            | None => false
            end);
    [apply wp_ret; left; split; congruence|].
  apply wp_bind. apply wp_run. intros r2 w2 E2.
  destruct (untouched_run _ _ _ _ (untouched_get_wallet_balance gw) E2) as (B2 & D2 & _).
  destruct r2 as [wallet_balance|];
    [|apply wp_ret; left; split; congruence].
  destruct (Qltb _ _);
    [apply wp_ret; left; split; congruence|].
  destruct (Qeq_bool current_price 0);
    [apply wp_raise; apply wp_ret; left; split; congruence|].
  apply wp_bind. apply wp_run. intros r3 w3 E3.
  destruct (untouched_run _ _ _ _
              (untouched_check_price_slippage cfg gw current_price Buy) E3)
    as (B3 & D3 & _).
  destruct r3 as [[fresh_price|why]|];
    try (apply wp_ret; left; split; congruence).
  destruct (check_price_slippage_inversion cfg gw current_price fresh_price Buy w2)
    as (Hq & _); [now rewrite E3|].
  destruct (get_subnet_info_loop_quoted gw 3 w2 fresh_price Hq) as (tq & Htq).
  destruct (Qeq_bool fresh_price 0) eqn:Zq;
    [apply wp_raise; apply wp_ret; left; split; congruence|].
  apply wp_bind. apply wp_stake_sn73. intros r w4 Hb Hd Ht _.
  destruct r as [[|]|];
    try (apply wp_ret; left; split; congruence).
  apply wp_bind, wp_observe. apply wp_bind, wp_observe.
  apply wp_bind, wp_modify_bot. apply wp_bind, wp_save_state. apply wp_ret.
  right. cbn [bot disk step tick].
  exists (clock gw (tick w4)), (S (tick w4)), tq, fresh_price.
  split; [cbn [bot]; f_equal; congruence|].
  split; [reflexivity|]. split; [|exact Htq].
  intro E. apply Qeq_bool_iff in E. congruence.
Qed.

(** An iteration of the sell scan that records a sale does so at a price the
    sell-side guard accepted against the carried price, which had reached the
    position's target. *)
Lemma sell_iteration_guarded (i : nat) (st : Q * list position) (w : World) :
  wp (sell_iteration cfg gw i st)
     (fun _ w' =>
        (bot w' = bot w /\ disk w' = disk w) \/
        (bot w' = set_failed_sells (failed_sells (bot w) + 1)%Z (bot w) /\
         disk w' = disk w) \/
        exists p q sold_at,
          nth_error (active_positions (bot w)) i = Some p /\
          status p = Active /\ ~ tao_invested p == 0 /\
          sell_target_price p <= fst st /\
          fst st * (1 - getattr (price_check_tolerance cfg) 1 / 100) <= q /\
          bot w' = record_sale i p q sold_at (bot w) /\
          persisted w') w.
Proof.
  unfold sell_iteration. destruct st as [price removed]. cbn [fst].
  apply wp_bind, wp_get_bot.
  destruct (nth_error (active_positions (bot w)) i) as [p|] eqn:Hnth;
    [|apply wp_ret; now left].
  destruct (status p) eqn:Hact; [|apply wp_ret; now left].
  destruct (Qle_bool (sell_target_price p) price) eqn:Ht.
  - apply Qle_bool_iff in Ht.
    apply wp_bind. apply wp_run. intros r1 w1 E1.
    destruct (untouched_run _ _ _ _
                (untouched_check_price_slippage cfg gw price Sell) E1)
      as (B1 & D1 & _).
    destruct r1 as [[q|why]|]; try (apply wp_ret; left; split; congruence);
      [|left; split; congruence].
    destruct (check_price_slippage_inversion cfg gw price q Sell w)
      as (_ & _ & _ & Hband); [now rewrite E1|].
    apply wp_bind. apply wp_run. intros r2 w2 E2.
    destruct (untouched_run _ _ _ _
                (untouched_unstake_sn73_loop gw 3 (alpha_amount p)) E2)
      as (B2 & D2 & _).
    destruct r2 as [[|]|].
    + destruct (Qeq_bool (tao_invested p) 0) eqn:Z;
        [apply wp_raise; left; split; congruence|].
      apply wp_bind, wp_observe. apply wp_bind, wp_modify_bot.
      apply wp_bind, wp_save_state. apply wp_ret.
      right. right. exists p, q. eexists.
      split; [reflexivity|]. split; [exact Hact|].
      split; [intro E; apply Qeq_bool_iff in E; congruence|].
      split; [exact Ht|]. split; [exact Hband|].
      split; [|reflexivity]. cbn [bot step]. f_equal. congruence.
    + apply wp_bind, wp_modify_bot. apply wp_ret. right. left.
      cbn [bot disk]. split; [|congruence]. now rewrite B2, B1.
    + left. split; congruence.
  - destruct (stop_loss_percent cfg) as [sl|]; [|apply wp_ret; now left].
    destruct (Qltb 0 sl); [|apply wp_ret; now left].
    destruct (Qle_bool price _); apply wp_ret; now left.
Qed.

End Guards.

(** ** Invariants of the gated cycle *)

Section StepInvariant.

Variable cfg : Config.
Variable gw : Gateway.

(** [G] is what is known of the ledger when a purchase is recorded; [I] is
    the invariant. *)
Variable G : Bot -> Prop.
Variable I : Bot -> option Snapshot -> Prop.

Hypothesis SI_purchase : forall now t tq price b d,
  I b d -> G b -> ~ price == 0 ->
  all_subnets gw tq = Returned (Some price) ->
  I (record_purchase cfg now (wall_clock gw t) price (dca_amount cfg / price) b)
    (Some (snapshot (record_purchase cfg now (wall_clock gw t) price
                       (dca_amount cfg / price) b))).
Hypothesis SI_sale : forall i p carried price sold_at b d,
  I b d -> nth_error (active_positions b) i = Some p -> status p = Active ->
  ~ tao_invested p == 0 ->
  sell_target_price p <= carried ->
  carried * (1 - getattr (price_check_tolerance cfg) 1 / 100) <= price ->
  I (record_sale i p price sold_at b)
    (Some (snapshot (record_sale i p price sold_at b))).
Hypothesis SI_failed : forall b d,
  I b d -> I (set_failed_sells (failed_sells b + 1)%Z b) d.
Hypothesis SI_remove : forall p l b d,
  I b d -> status p = Sold -> list_remove p (active_positions b) = Some l ->
  I (set_active_positions l b) d.
Hypothesis SI_restart : forall b d, I b d -> I (saved_bot d) d.

Let inv (w : World) : Prop := I (bot w) (disk w).

Lemma si_same_ledger (w w' : World) :
  bot w' = bot w -> disk w' = disk w -> inv w -> inv w'.
Proof.
  unfold inv. intros -> ->. exact (fun H => H).
Qed.

Lemma si_execute_dca_purchase (w : World) :
  inv w -> G (bot w) -> inv (snd (execute_dca_purchase cfg gw w)).
Proof.
  intros H HG. destruct (execute_dca_purchase_stamp cfg gw w)
    as [[Hb Hd] | (now & t & tq & price & Hb & Hp & NZ & Hq)].
  - exact (si_same_ledger _ _ Hb Hd H).
  - unfold inv, persisted in *. rewrite Hp, Hb.
    now apply SI_purchase with (tq := tq) (d := disk w).
Qed.

Lemma si_sell_iteration (i : nat) (st : Q * list position) (w : World) :
  inv w ->
  inv (snd (sell_iteration cfg gw i st w)) /\
  (forall st', fst (sell_iteration cfg gw i st w) = Ok st' ->
               all_sold (snd st) -> all_sold (snd st')).
Proof.
  intro H. split.
  - destruct (sell_iteration_guarded cfg gw i st w)
      as [[Hb Hd] | [[Hb Hd] | (p & q & sold_at & Hnth & Hact & NZ & Ht & Hq & Hb & Hp)]].
    + exact (si_same_ledger _ _ Hb Hd H).
    + unfold inv in *. rewrite Hb, Hd. now apply SI_failed.
    + unfold inv, persisted in *. rewrite Hp, Hb.
      now apply SI_sale with (carried := fst st) (d := disk w).
  - destruct (sell_iteration_outcome cfg gw i st w)
      as [_ _ Hr | _ _ Hr | p price sold_at _ _ _ _ _ Hr].
    + intros st' E S. now rewrite (Hr st' E).
    + intros st' E S. now rewrite (Hr st' E).
    + intros st' E S. rewrite Hr in E. injection E as <-.
      cbn [snd]. apply Forall_app. split; [exact S|].
      constructor; [reflexivity | constructor].
Qed.

Lemma si_sell_loop (indices : list nat) :
  forall (st : Q * list position) (w : World),
    inv w ->
    inv (snd (sell_loop cfg gw indices st w)) /\
    (forall st', fst (sell_loop cfg gw indices st w) = Ok st' ->
                 all_sold (snd st) -> all_sold (snd st')).
Proof.
  induction indices as [|i rest IH]; intros st w H; cbn [sell_loop].
  - split; [exact H|]. intros st' [= <-] S. exact S.
  - unfold bind.
    destruct (si_sell_iteration i st w H) as [H1 H2].
    destruct (sell_iteration cfg gw i st w) as [[st1|] w1]; cbn [fst snd] in *.
    + destruct (IH st1 w1 H1) as [H3 H4]. split; [exact H3|].
      intros st' E S. apply (H4 st' E). now apply H2.
    + split; [exact H1|]. discriminate.
Qed.

Lemma si_remove_sold (l : list position) :
  forall w, all_sold l -> inv w -> inv (snd (remove_sold l w)).
Proof.
  induction l as [|p rest IH]; intros w S H; cbn [remove_sold].
  - exact H.
  - inversion S as [|? ? Hp Hrest]; subst.
    unfold bind, get_bot, modify_bot.
    destruct (list_remove p (active_positions (bot w))) as [l'|] eqn:E;
      cbn [raise snd]; [|exact H].
    apply IH; [exact Hrest|].
    unfold inv in *. cbn [bot disk]. now apply (SI_remove p).
Qed.

Lemma si_check_and_execute_sells (w : World) :
  inv w -> inv (snd (check_and_execute_sells cfg gw w)).
Proof.
  intro H.
  change (wp (check_and_execute_sells cfg gw) (fun _ w' => inv w') w).
  unfold check_and_execute_sells.
  apply wp_bind, wp_get_bot.
  destruct (active_positions (bot w)) as [|p0 l0]; [exact H|].
  apply wp_try_except.
  apply wp_bind. apply wp_untouched; [apply untouched_get_subnet_info|].
  intros r w1 Hb Hd _.
  pose proof (si_same_ledger _ _ Hb Hd H) as H1.
  destruct r as [[current_price|]|]; [ | exact H1 | exact H1 ].
  apply wp_bind. unfold wp at 1.
  match goal with
  | |- context [sell_loop cfg gw ?ix ?st w1] =>
      destruct (si_sell_loop ix st w1 H1) as [H2 H3];
      destruct (sell_loop cfg gw ix st w1) as [[st'|] w2]
  end; cbn [fst snd] in *; [|exact H2].
  assert (S : all_sold (snd st')) by (apply H3; [reflexivity | constructor]).
  unfold wp. pose proof (si_remove_sold (snd st') w2 S H2) as H4.
  destruct (remove_sold (snd st') w2) as [[u|] w3]; exact H4.
Qed.

Lemma si_dca_phase (w : World) :
  (forall b, gates_open cfg b -> G b) ->
  inv w -> inv (snd (dca_phase cfg gw w)).
Proof.
  intros HG H.
  change (wp (dca_phase cfg gw) (fun _ w' => inv w') w). unfold dca_phase.
  apply wp_bind, wp_get_bot.
  destruct (is_at_investment_cap cfg (bot w)) eqn:Hcap; cbn [negb]; [exact H|].
  destruct (_ <? _)%Z eqn:Hcount; [|exact H].
  apply Z.ltb_lt in Hcount.
  apply wp_bind. apply wp_untouched; [apply untouched_is_time_for_dca|].
  intros r w1 Hb Hd _.
  pose proof (si_same_ledger _ _ Hb Hd H) as H1.
  destruct r as [[|]|]; [ | | exact H1 ].
  - apply wp_bind. unfold wp at 1.
    assert (HG1 : G (bot w1)) by (rewrite Hb; apply HG; now split).
    pose proof (si_execute_dca_purchase w1 H1 HG1) as H2.
    destruct (execute_dca_purchase cfg gw w1) as [[u|] w2]; exact H2.
  - apply wp_bind. apply wp_untouched; [apply untouched_get_time_until_next_dca|].
    intros r w2 Hb2 Hd2 _.
    pose proof (si_same_ledger _ _ Hb2 Hd2 H1) as H2.
    destruct r; exact H2.
Qed.

Lemma si_micro_grid_cycle (w : World) :
  (forall b, gates_open cfg b -> G b) ->
  inv w -> inv (snd (micro_grid_cycle cfg gw w)).
Proof.
  intros HG H.
  change (wp (micro_grid_cycle cfg gw) (fun _ w' => inv w') w).
  unfold micro_grid_cycle.
  apply wp_try_except. apply wp_bind. unfold wp at 1.
  pose proof (si_dca_phase w HG H) as H1.
  destruct (dca_phase cfg gw w) as [[u|] w1]; cbn [fst snd] in *; [|exact H1].
  apply wp_bind. unfold wp at 1.
  pose proof (si_check_and_execute_sells w1 H1) as H2.
  destruct (check_and_execute_sells cfg gw w1) as [[u'|] w2];
    cbn [fst snd] in *; [|exact H2].
  apply wp_bind. apply wp_untouched; [apply untouched_print_status|].
  intros r w3 Hb Hd _.
  pose proof (si_same_ledger _ _ Hb Hd H2) as H3.
  destruct r; exact H3.
Qed.

Lemma si_restart (w : World) : inv w -> inv (restart w).
Proof.
  unfold inv. destruct (restart_ledger w) as [-> ->]. apply SI_restart.
Qed.

(** The invariant along the cycles of the running bot. *)
Lemma cycle_reachable_invariant (w : World) :
  I init_bot None ->
  (forall b, gates_open cfg b -> G b) ->
  cycle_reachable cfg gw w -> I (bot w) (disk w).
Proof.
  intros H0 HG. induction 1 as [t | w _ IH | w _ IH].
  - exact H0.
  - now apply si_micro_grid_cycle.
  - now apply si_restart.
Qed.

(** The invariant along every run, when it needs no gate. *)
Lemma reachable_step_invariant (w : World) :
  I init_bot None ->
  (forall b, G b) ->
  reachable cfg gw w -> I (bot w) (disk w).
Proof.
  intros H0 HG.
  induction 1 as [t | w _ IH | w _ IH | w i st _ IH | w _ IH | w _ IH | w _ IH].
  - exact H0.
  - exact IH.
  - apply si_execute_dca_purchase; [exact IH | apply HG].
  - now apply si_sell_iteration.
  - now apply si_check_and_execute_sells.
  - apply si_micro_grid_cycle; [intros; apply HG | exact IH].
  - now apply si_restart.
Qed.

End StepInvariant.

Lemma cycle_reachable_reachable (cfg : Config) (gw : Gateway) (w : World) :
  cycle_reachable cfg gw w -> reachable cfg gw w.
Proof.
  induction 1; [apply reach_start | now apply reach_cycle | now apply reach_restart].
Qed.

Lemma length_list_set {A : Type} (l : list A) :
  forall (i : nat) (x : A), List.length (list_set i x l) = List.length l.
Proof.
  induction l as [|y l IH]; intros [|i] x; simpl; auto.
Qed.

Lemma length_list_remove (p : position) (l : list position) :
  forall l', list_remove p l = Some l' -> List.length l = S (List.length l').
Proof.
  induction l as [|y l IH]; intros l' H; simpl in H; [discriminate|].
  destruct (position_eqb y p).
  - now injection H as <-.
  - destruct (list_remove p l) as [r|]; [|discriminate].
    injection H as <-. simpl. now rewrite (IH r eq_refl).
Qed.

Lemma Forall_tao_same_core (l l' : list position) :
  Forall2 same_core l l' ->
  Forall (fun p => 0 <= tao_invested p) l ->
  Forall (fun p => 0 <= tao_invested p) l'.
Proof.
  induction 1 as [|p q l l' (_ & _ & Ht) _ IH]; intro F; [constructor|].
  inversion F; subst. constructor; [now rewrite <- Ht | auto].
Qed.

Lemma commitment_bounded_restore (cfg : Config) (b : Bot) :
  commitment_bounded cfg b -> commitment_bounded cfg (restore (snapshot b)).
Proof.
  intros [H1 H2]. split.
  - now destruct (restore_scalars (snapshot b)) as (-> & _).
  - exact (Forall_tao_same_core _ _ (restore_snapshot_active b) H2).
Qed.

(** X17.  Along the cycles of the running bot, restarts included, the
    committed total stays strictly below
    [max_investment + cap_tolerance + dca_amount]: the cap gate is tested
    before a purchase, so the total can pass [max_investment + cap_tolerance]
    by less than one purchase, never by more (for a purchase amount that is
    not negative and a bound that is positive). *)
Theorem committed_total_is_bounded (cfg : Config) (gw : Gateway) (w : World) :
  0 <= dca_amount cfg ->
  0 < max_investment cfg + cap_tolerance cfg + dca_amount cfg ->
  cycle_reachable cfg gw w ->
  total_invested (bot w) <
  max_investment cfg + cap_tolerance cfg + dca_amount cfg.
Proof.
  intros Hd Hb R.
  refine (proj1 (proj1 (cycle_reachable_invariant cfg gw
            (fun b => is_at_investment_cap cfg b = false)
            (kept (commitment_bounded cfg)) _ _ _ _ _ w _ _ R))).
  - intros now t tq price b d [[H1 H2] _] Hcap NZ _.
    assert (B : commitment_bounded cfg
                  (record_purchase cfg now (wall_clock gw t) price
                     (dca_amount cfg / price) b)).
    { split; cbn [record_purchase total_invested active_positions].
      - unfold is_at_investment_cap in Hcap.
        assert (T : total_invested b < max_investment cfg + cap_tolerance cfg).
        { apply Qnot_le_lt. intro L. apply Qle_bool_iff in L. congruence. }
        unfold commitment_bound. lra.
      - apply Forall_app. split; [exact H2|].
        constructor; [exact Hd | constructor]. }
    split; [exact B | now apply commitment_bounded_restore].
  - intros i p carried price sold_at b d [[H1 H2] _] Hnth Hact _ _ _.
    assert (B : commitment_bounded cfg (record_sale i p price sold_at b)).
    { assert (Hp : 0 <= tao_invested p).
      { rewrite Forall_forall in H2. apply H2. eapply nth_error_In. exact Hnth. }
      split; cbn [record_sale total_invested active_positions].
      - lra.
      - apply Forall_list_set; [exact H2 | exact Hp]. }
    split; [exact B | now apply commitment_bounded_restore].
  - intros b d H. exact H.
  - intros p l b d [[H1 H2] H3] _ Hrem. split; [|exact H3].
    split; [exact H1|]. exact (Forall_list_remove _ p _ l Hrem H2).
  - intros b d [_ H]. now split.
  - assert (B : commitment_bounded cfg init_bot).
    { split; [exact Hb | constructor]. }
    now split.
  - intros b [H _]. exact H.
Qed.

Lemma committed_total_is_bounded_witness :
  0 <= dca_amount Scenario.cfg /\
  cycle_reachable Scenario.cfg Scenario.filling_market Scenario.paused /\
  total_invested (bot Scenario.paused) <
  max_investment Scenario.cfg + cap_tolerance Scenario.cfg + dca_amount Scenario.cfg.
Proof.
  assert (Hd : 0 <= dca_amount Scenario.cfg) by discriminate.
  assert (R : cycle_reachable Scenario.cfg Scenario.filling_market Scenario.paused).
  { unfold Scenario.paused.
    generalize (cyc_start Scenario.cfg Scenario.filling_market 0).
    change (mkWorld init_bot None 0 []) with Scenario.start.
    generalize Scenario.start. generalize 102%nat.
    intro n. induction n as [|n IH]; intros w0 R0; [exact R0|].
    apply IH. apply cyc_cycle. exact R0. }
  split; [exact Hd|]. split; [exact R|].
  apply (committed_total_is_bounded Scenario.cfg Scenario.filling_market
           Scenario.paused Hd); [reflexivity | exact R].
Defined.

(** X18.  Along the cycles of the running bot, restarts included, the active
    list never holds more than [max_positions] entries (none when
    [max_positions] is negative): a purchase is recorded only while the list
    is shorter than the limit. *)
Theorem active_positions_are_bounded (cfg : Config) (gw : Gateway) (w : World) :
  cycle_reachable cfg gw w ->
  (Z.of_nat (List.length (active_positions (bot w))) <=
   Z.max 0 (max_positions cfg))%Z.
Proof.
  intro R.
  assert (Hrestore : forall b, positions_bounded cfg b ->
                               positions_bounded cfg (restore (snapshot b))).
  { intros b H. unfold positions_bounded in *.
    now rewrite <- (Forall2_length (restore_snapshot_active b)). }
  refine (proj1 (cycle_reachable_invariant cfg gw
            (fun b => (Z.of_nat (List.length (active_positions b)) <
                       max_positions cfg)%Z)
            (kept (positions_bounded cfg)) _ _ _ _ _ w _ _ R)).
  - intros now t tq price b d _ Hlt _ _.
    assert (B : positions_bounded cfg
                  (record_purchase cfg now (wall_clock gw t) price
                     (dca_amount cfg / price) b)).
    { unfold positions_bounded.
      cbn [record_purchase active_positions]. rewrite length_app. simpl. lia. }
    split; [exact B | now apply Hrestore].
  - intros i p carried price sold_at b d [H _] _ _ _ _ _.
    assert (B : positions_bounded cfg (record_sale i p price sold_at b)).
    { unfold positions_bounded in *.
      cbn [record_sale active_positions]. now rewrite length_list_set. }
    split; [exact B | now apply Hrestore].
  - intros b d H. exact H.
  - intros p l b d [H1 H2] _ Hrem. split; [|exact H2].
    unfold positions_bounded in *. cbn [set_active_positions active_positions].
    rewrite (length_list_remove p _ l Hrem) in H1. lia.
  - intros b d [_ H]. now split.
  - split; unfold positions_bounded; simpl; lia.
  - intros b [_ H]. exact H.
Qed.

Lemma active_positions_are_bounded_witness :
  cycle_reachable Scenario.cfg (Scenario.market 1)
    (snd (micro_grid_cycle Scenario.cfg (Scenario.market 1) Scenario.start)) /\
  (Z.of_nat (List.length (active_positions
       (bot (snd (micro_grid_cycle Scenario.cfg (Scenario.market 1) Scenario.start))))) <=
   Z.max 0 (max_positions Scenario.cfg))%Z.
Proof.
  assert (R : cycle_reachable Scenario.cfg (Scenario.market 1)
                (snd (micro_grid_cycle Scenario.cfg (Scenario.market 1) Scenario.start)))
    by (apply cyc_cycle, cyc_start).
  split; [exact R|].
  exact (active_positions_are_bounded Scenario.cfg (Scenario.market 1) _ R).
Defined.

(** ** The status report *)

Lemma failed_sells_never_negative (cfg : Config) (gw : Gateway) (w : World) :
  reachable cfg gw w -> (0 <= failed_sells (bot w))%Z.
Proof.
  intro R.
  assert (Hrestore : forall b, failed_sells_counted b ->
                               failed_sells_counted (restore (snapshot b))).
  { intros b H. unfold failed_sells_counted.
    now destruct (restore_scalars (snapshot b)) as (_ & _ & _ & _ & -> & _). }
  refine (proj1 (reachable_step_invariant cfg gw (fun _ => True)
            (kept failed_sells_counted) _ _ _ _ _ w _ _ R)).
  - intros now t tq price b d [H _] _ _ _.
    assert (B : failed_sells_counted
                  (record_purchase cfg now (wall_clock gw t) price
                     (dca_amount cfg / price) b))
      by exact H.
    split; [exact B | now apply Hrestore].
  - intros i p carried price sold_at b d [H _] _ _ _ _ _.
    assert (B : failed_sells_counted (record_sale i p price sold_at b)) by exact H.
    split; [exact B | now apply Hrestore].
  - intros b d [H1 H2]. split; [|exact H2].
    unfold failed_sells_counted in *. cbn. lia.
  - intros p l b d H _ _. exact H.
  - intros b d [_ H]. now split.
  - split; unfold failed_sells_counted; simpl; lia.
  - intros b. exact Logic.I.
Qed.

(** X19.  In every reachable state the status report fails only for the
    two reasons outside the ledger: [print_status] raises exactly when
    [max_investment] is zero (the progress percentage divides by it) or its
    balance query fails three times.  The success-rate division never raises,
    because a completed trade implies a positive count of successful sells. *)
Theorem print_status_raises_only_outside_ledger (cfg : Config) (gw : Gateway)
  (w : World) :
  reachable cfg gw w ->
  (fst (print_status cfg gw w) = Exn <->
   max_investment cfg == 0 \/ fst (get_wallet_balance gw w) = Exn).
Proof.
  intro R.
  destruct (proj1 (reachable_invariant (holds books_balanced) cfg gw w R))
    as (_ & Hcount & _).
  pose proof (failed_sells_never_negative cfg gw w R) as Hfailed.
  unfold print_status, bind at 1, get_bot.
  destruct (Qeq_bool (max_investment cfg) 0) eqn:Z.
  - apply Qeq_bool_iff in Z. split; [now left | reflexivity].
  - assert (NZ : ~ max_investment cfg == 0).
    { intro E. apply Qeq_bool_iff in E. congruence. }
    unfold bind. destruct (get_wallet_balance gw w) as [[bal|] w1]; cbn [fst].
    + assert (E : match completed_trades (bot w) with
                  | [] => ret tt
                  | _ :: _ =>
                      if (successful_sells (bot w) + failed_sells (bot w) =? 0)%Z
                      then raise else ret tt
                  end = ret tt).
      { destruct (completed_trades (bot w)) as [|p l]; [reflexivity|].
        cbn [List.length] in Hcount.
        destruct (Z.eqb_spec (successful_sells (bot w) + failed_sells (bot w)) 0);
          [lia | reflexivity]. }
      rewrite E. cbn. split; [discriminate|].
      intros [H | H]; [contradiction | discriminate].
    + split; [now right | reflexivity].
Qed.

Lemma print_status_raises_only_outside_ledger_witness :
  reachable Scenario.cfg (Scenario.market (116 # 100)) Scenario.after_sale /\
  (fst (print_status Scenario.cfg (Scenario.market (116 # 100)) Scenario.after_sale) = Exn <->
   max_investment Scenario.cfg == 0 \/
   fst (get_wallet_balance (Scenario.market (116 # 100)) Scenario.after_sale) = Exn).
Proof.
  assert (R : reachable Scenario.cfg (Scenario.market (116 # 100)) Scenario.after_sale)
    by (apply reach_sells, reach_purchase, reach_start).
  split; [exact R|].
  exact (print_status_raises_only_outside_ledger Scenario.cfg
           (Scenario.market (116 # 100)) Scenario.after_sale R).
Defined.


(** ** The deposits of one cycle *)

Section Spends.

Context {A B : Type}.
Variable amount : Q.

Lemma spends_nothing (m : M A) (w : World) (n : nat) :
  calls (snd (m w)) = calls w -> spends_at w n amount m.
Proof.
  intro E. exists []. rewrite E, app_nil_r.
  split; [reflexivity|]. split; [constructor | simpl; lia].
Qed.

Lemma spends_bind (a b : nat) (m : M A) (k : A -> M B) (w : World) (n : nat) :
  spends_at w a amount m ->
  (forall x w', m w = (Ok x, w') -> spends_at w' b amount (k x)) ->
  (a + b <= n)%nat ->
  spends_at w n amount (bind m k).
Proof.
  intros (l1 & E1 & F1 & N1) Hk Hn. unfold spends_at, bind.
  destruct (m w) as [[x|] w1] eqn:E; cbn [snd] in *.
  - destruct (Hk x w1 eq_refl) as (l2 & E2 & F2 & N2).
    exists (l1 ++ l2). rewrite E2, E1, app_assoc. split; [reflexivity|].
    split; [apply Forall_app; now split|].
    rewrite stake_attempts_app. lia.
  - exists l1. split; [exact E1|]. split; [exact F1 | lia].
Qed.

Lemma spends_try_except (a b : nat) (m h : M A) (w : World) (n : nat) :
  spends_at w a amount m ->
  (forall w', m w = (Exn, w') -> spends_at w' b amount h) ->
  (a + b <= n)%nat ->
  spends_at w n amount (try_except m h).
Proof.
  intros (l1 & E1 & F1 & N1) Hh Hn. unfold spends_at, try_except.
  destruct (m w) as [[x|] w1] eqn:E; cbn [snd] in *.
  - exists l1. split; [exact E1|]. split; [exact F1 | lia].
  - destruct (Hh w1 eq_refl) as (l2 & E2 & F2 & N2).
    exists (l1 ++ l2). rewrite E2, E1, app_assoc. split; [reflexivity|].
    split; [apply Forall_app; now split|].
    rewrite stake_attempts_app. lia.
Qed.

Lemma spends_quiet (allowed : Call -> Prop) (m : M A) (w : World) (n : nat) :
  (forall c, allowed c -> forall a, c <> CallAddStake a) ->
  emits_at w allowed m -> spends_at w n amount m.
Proof.
  intros Hq (l & E & F). exists l. split; [exact E|]. clear E.
  induction F as [|c l Hc _ [IH1 IH2]]; [split; [constructor | simpl; lia]|].
  split.
  - constructor; [|exact IH1]. intros a ->. now destruct (Hq _ Hc a).
  - destruct c as [a| |]; [now destruct (Hq _ Hc a) | exact IH2 | exact IH2].
Qed.

End Spends.

Lemma is_sleep_quiet (c : Call) : is_sleep c -> forall a, c <> CallAddStake a.
Proof. intros [n ->] a. discriminate. Qed.

Lemma sleep_or_unstake_quiet (amounts : list Q) (c : Call) :
  sleep_or_unstake amounts c -> forall a, c <> CallAddStake a.
Proof. intros [[n ->] | (x & _ & ->)] a; discriminate. Qed.

Lemma spends_stake_sn73_loop (gw : Gateway) (amount : Q) (n : nat) :
  forall w, spends_at w n amount (stake_sn73_loop gw n amount).
Proof.
  induction n as [|n IH]; intro w; cbn [stake_sn73_loop].
  - now apply spends_nothing.
  - apply (spends_try_except amount 1 n); [| |lia].
    + apply (spends_bind amount 1 0); [| |lia].
      * exists [CallAddStake amount]. split; [reflexivity|].
        split; [|simpl; lia]. constructor; [|constructor].
        now intros a [= <-].
      * intros _ w' _. apply (spends_bind amount 0 0); [| |lia].
        -- apply spends_nothing. unfold ask. now destruct (add_stake gw (tick w')).
        -- intros; now apply spends_nothing.
    + intros w' _. destruct n; [now apply spends_nothing|].
      apply (spends_bind amount 0 (S n)); [| |lia].
      * apply (spends_quiet amount is_sleep); [exact is_sleep_quiet|].
        apply emits_at_log_call, is_sleep_sleep.
      * intros _ w'' _. apply IH.
Qed.

Lemma spends_execute_dca_purchase (cfg : Config) (gw : Gateway) (w : World) :
  spends_at w 3 (dca_amount cfg) (execute_dca_purchase cfg gw).
Proof.
  unfold execute_dca_purchase.
  apply (spends_try_except _ 3 0); [| intros; now apply spends_nothing | lia].
  apply (spends_bind _ 0 3); [| |lia].
  { apply (spends_quiet _ is_sleep); [exact is_sleep_quiet|].
    apply emits_get_subnet_info_loop. }
  intros [p|] w1 _; [|now apply spends_nothing].
  destruct (match max_entry_price cfg with
            | Some ceiling => Qltb ceiling p
            | None => false
            end); [now apply spends_nothing|].
  apply (spends_bind _ 0 3); [| |lia].
  { apply (spends_quiet _ is_sleep); [exact is_sleep_quiet|].
    apply emits_get_wallet_balance_loop. }
  intros bal w2 _.
  destruct (Qltb _ (dca_amount cfg)); [now apply spends_nothing|].
  destruct (Qeq_bool p 0); [now apply spends_nothing|].
  apply (spends_bind _ 0 3); [| |lia].
  { apply (spends_quiet _ is_sleep); [exact is_sleep_quiet|].
    apply emits_check_price_slippage. }
  intros [q|why] w3 _; [|now apply spends_nothing].
  destruct (Qeq_bool q 0); [now apply spends_nothing|].
  apply (spends_bind _ 3 0); [apply spends_stake_sn73_loop | | lia].
  intros [|] w4 _; now apply spends_nothing.
Qed.

Lemma is_time_for_dca_calls (cfg : Config) (gw : Gateway) (w : World) :
  calls (snd (is_time_for_dca cfg gw w)) = calls w.
Proof.
  unfold is_time_for_dca, bind, observe, get_bot. cbn.
  now destruct (Qeq_bool _ _).
Qed.

Lemma get_time_until_next_dca_calls (cfg : Config) (gw : Gateway) (w : World) :
  calls (snd (get_time_until_next_dca cfg gw w)) = calls w.
Proof.
  unfold get_time_until_next_dca, bind, observe, get_bot. cbn.
  now destruct (Qeq_bool _ _).
Qed.

Lemma spends_print_status (cfg : Config) (gw : Gateway) (amount : Q) (w : World) :
  spends_at w 0 amount (print_status cfg gw).
Proof.
  apply (spends_quiet amount is_sleep); [exact is_sleep_quiet|].
  unfold print_status.
  apply emits_at_bind; [now apply emits_nothing|].
  intros b w0 [= <- <-].
  destruct (Qeq_bool _ _); [now apply emits_nothing|].
  apply emits_at_bind; [apply emits_get_wallet_balance_loop|].
  intros bal w1 _. destruct (completed_trades (bot w)); [now apply emits_nothing|].
  destruct (_ =? 0)%Z; now apply emits_nothing.
Qed.

Lemma spends_dca_phase (cfg : Config) (gw : Gateway) (w : World) :
  spends_at w 3 (dca_amount cfg) (dca_phase cfg gw) /\
  (gate_closed cfg gw w -> spends_at w 0 (dca_amount cfg) (dca_phase cfg gw)).
Proof.
  assert (Hq : forall n, spends_at w n (dca_amount cfg) (is_time_for_dca cfg gw)).
  { intro n. apply spends_nothing, is_time_for_dca_calls. }
  split; [|intro Hc]; unfold dca_phase.
  - apply (spends_bind _ 0 3); [now apply spends_nothing | | lia].
    intros b w0 [= <- <-].
    destruct (is_at_investment_cap cfg (bot w)); cbn [negb];
      [now apply spends_nothing|].
    destruct (_ <? _)%Z; [|now apply spends_nothing].
    apply (spends_bind _ 0 3); [apply Hq | | lia].
    intros [|] w1 _.
    + apply (spends_bind _ 3 0); [apply spends_execute_dca_purchase | | lia].
      intros; now apply spends_nothing.
    + apply (spends_bind _ 0 0); [| | lia].
      * apply spends_nothing, get_time_until_next_dca_calls.
      * intros; now apply spends_nothing.
  - apply (spends_bind _ 0 0); [now apply spends_nothing | | lia].
    intros b w0 [= <- <-].
    destruct (is_at_investment_cap cfg (bot w)) eqn:Hcap; cbn [negb];
      [now apply spends_nothing|].
    destruct (Z.ltb_spec (Z.of_nat (List.length (active_positions (bot w))))
                         (max_positions cfg)) as [Hlt | Hge];
      [|now apply spends_nothing].
    destruct Hc as [H | [H | H]]; [congruence | lia |].
    apply (spends_bind _ 0 0); [apply Hq | | lia].
    intros due w1 E. rewrite E in H. cbn [fst] in H. injection H as ->.
    apply (spends_bind _ 0 0); [| | lia].
    + apply spends_nothing, get_time_until_next_dca_calls.
    + intros; now apply spends_nothing.
Qed.

Lemma spends_micro_grid_cycle (cfg : Config) (gw : Gateway) (w : World) (n : nat) :
  spends_at w n (dca_amount cfg) (dca_phase cfg gw) ->
  spends_at w n (dca_amount cfg) (micro_grid_cycle cfg gw).
Proof.
  intro H. unfold micro_grid_cycle.
  apply (spends_try_except _ n 0); [| intros; now apply spends_nothing | lia].
  apply (spends_bind _ n 0); [exact H | | lia].
  intros _ w1 _. apply (spends_bind _ 0 0); [| | lia].
  { apply (spends_quiet _ (sleep_or_unstake (alphas (bot w1))));
      [apply sleep_or_unstake_quiet | apply check_and_execute_sells_emits]. }
  intros _ w2 _. apply (spends_bind _ 0 0); [apply spends_print_status | | lia].
  intros; now apply spends_nothing.
Qed.

(** X20.  The deposits of one cycle.  [micro_grid_cycle] only adds to the
    call log; every [add_stake] it makes is of exactly [dca_amount]; it makes
    at most three of them (one purchase and its retries); and it makes none at
    all when the cap gate is closed, the position limit is reached, or the
    DCA interval has not elapsed. *)
Theorem cycle_deposits_behind_gates (cfg : Config) (gw : Gateway) (w : World) :
  (exists l, calls (snd (micro_grid_cycle cfg gw w)) = calls w ++ l /\
             Forall (stakes_only (dca_amount cfg)) l) /\
  (stake_attempts (calls w) <=
     stake_attempts (calls (snd (micro_grid_cycle cfg gw w))) <=
     stake_attempts (calls w) + 3)%nat /\
  (gate_closed cfg gw w ->
   stake_attempts (calls (snd (micro_grid_cycle cfg gw w))) =
   stake_attempts (calls w)).
Proof.
  destruct (spends_dca_phase cfg gw w) as [H3 H0].
  destruct (spends_micro_grid_cycle cfg gw w 3 H3) as (l & E & F & N).
  split; [now exists l|]. split.
  - rewrite E, stake_attempts_app. lia.
  - intro Hc.
    destruct (spends_micro_grid_cycle cfg gw w 0 (H0 Hc)) as (l0 & E0 & _ & N0).
    rewrite E0, stake_attempts_app. lia.
Qed.

Lemma cycle_deposits_behind_gates_witness :
  gate_closed Scenario.cfg (Scenario.market 1) (Scenario.after_purchase 1) /\
  stake_attempts (calls (snd (micro_grid_cycle Scenario.cfg (Scenario.market 1)
                                (Scenario.after_purchase 1)))) =
  stake_attempts (calls (Scenario.after_purchase 1)).
Proof.
  assert (H : gate_closed Scenario.cfg (Scenario.market 1) (Scenario.after_purchase 1)).
  { right. right. vm_compute. reflexivity. }
  split; [exact H|].
  exact (proj2 (proj2 (cycle_deposits_behind_gates Scenario.cfg (Scenario.market 1)
                         (Scenario.after_purchase 1))) H).
Defined.


(** ** Stopping and starting *)




(** X22.  A purchase never breaks the state file round trip.  If the wall
    clock gives dates [datetime] can hold, the ledger is as the bot holds it
    between two sell scans, and a restart would give back the ledger in
    memory, then after [execute_dca_purchase], whatever it did, the same is
    true again: the snapshot the purchase wrote restores to exactly the
    ledger in memory, the new position's timestamp included. *)
Theorem purchase_keeps_the_round_trip (cfg : Config) (gw : Gateway) (w : World) :
  (forall t, valid_datetimeb (wall_clock gw t) = true) ->
  settled (bot w) ->
  bot (restart w) = bot w ->
  settled (bot (snd (execute_dca_purchase cfg gw w))) /\
  bot (restart (snd (execute_dca_purchase cfg gw w))) =
  bot (snd (execute_dca_purchase cfg gw w)).
Proof.
  intros Hclock Hs Hr.
  pose proof (execute_dca_purchase_stamp cfg gw w) as H. unfold wp in H.
  destruct (restart_ledger (snd (execute_dca_purchase cfg gw w))) as [-> _].
  destruct (restart_ledger w) as [Hw _]. rewrite Hw in Hr.
  destruct H as [[Hb Hd] | (now & t & tq & price & Hb & Hp & _ & _)].
  - rewrite Hb, Hd. now split.
  - assert (S' : settled (bot (snd (execute_dca_purchase cfg gw w)))).
    { rewrite Hb. destruct Hs as [Ha Hc]. split; [|exact Hc].
      cbn [record_purchase active_positions]. apply Forall_app. split; [exact Ha|].
      constructor; [|constructor]. split; [|reflexivity].
      split; [apply Hclock | exact Logic.I]. }
    split; [exact S'|].
    unfold persisted in Hp. rewrite Hp. cbn [saved_bot].
    now apply restore_snapshot_settled.
Qed.

Lemma purchase_keeps_the_round_trip_witness :
  (forall t, valid_datetimeb (wall_clock (Scenario.market 1) t) = true) /\
  settled (bot Scenario.start) /\
  bot (restart (Scenario.after_purchase 1)) = bot (Scenario.after_purchase 1).
Proof.
  assert (Hc : forall t, valid_datetimeb (wall_clock (Scenario.market 1) t) = true).
  { intro t. cbn [Scenario.market wall_clock]. now destruct (t <? 6)%nat. }
  assert (Hs : settled (bot Scenario.start)) by (split; constructor).
  split; [exact Hc|]. split; [exact Hs|].
  exact (proj2 (purchase_keeps_the_round_trip Scenario.cfg (Scenario.market 1)
                  Scenario.start Hc Hs eq_refl)).
Defined.


(** ** The configuration check *)






(** ** Sales and losses *)

Lemma same_numbers_revive_active (p : position) :
  same_numbers p (fst (revive_active p)).
Proof.
  unfold revive_active.
  destruct (revive (created_timestamp p)); [|apply same_numbers_refl].
  unfold same_numbers. cbn. destruct (sale_info p); now repeat split.
Qed.

Lemma restore_snapshot_active_numbers (b : Bot) :
  Forall2 same_numbers (active_positions b)
          (active_positions (restore (snapshot b))).
Proof.
  rewrite restore_active. cbn [snapshot s_active_positions].
  eapply (Forall2_related_trans same_numbers same_numbers_trans);
    [apply (Forall2_related_json same_numbers same_numbers_json)|].
  apply (revive_all_related same_numbers same_numbers_refl).
  exact same_numbers_revive_active.
Qed.

Lemma covered_same_numbers (cfg : Config) (l l' : list position) :
  Forall2 same_numbers l l' ->
  Forall (fun p => status p = Active -> covered cfg p) l ->
  Forall (fun p => status p = Active -> covered cfg p) l'.
Proof.
  induction 1 as [|p q l l' Hpq _ IH]; intro F; [constructor|].
  inversion F as [|? ? Hp Hl]; subst. constructor; [|auto].
  destruct Hpq as (_ & Hb & Ht & Ha & Hi & Hs & _).
  unfold covered. rewrite <- Hs, <- Hb, <- Ht, <- Ha, <- Hi. exact Hp.
Qed.

Lemma profit_same_numbers (l l' : list position) :
  Forall2 same_numbers l l' ->
  Forall (fun p => 0 <= profit_of p) l -> Forall (fun p => 0 <= profit_of p) l'.
Proof.
  induction 1 as [|p q l l' Hpq _ IH]; intro F; [constructor|].
  inversion F; subst. constructor; [|auto].
  now rewrite <- (profit_of_same_numbers p q Hpq).
Qed.

Lemma never_at_a_loss_restore (cfg : Config) (b : Bot) :
  never_at_a_loss cfg b -> never_at_a_loss cfg (restore (snapshot b)).
Proof.
  intros (Ha & Hc & Ht). split; [|split].
  - exact (covered_same_numbers cfg _ _ (restore_snapshot_active_numbers b) Ha).
  - refine (profit_same_numbers _ _ _ Hc).
    exact (restore_snapshot_completed_related same_numbers same_numbers_refl
             same_numbers_trans same_numbers_json b same_numbers_revive_trade).
  - now destruct (restore_scalars (snapshot b)) as (_ & _ & -> & _).
Qed.

Lemma covered_sale_profit (cfg : Config) (p : position) (carried q : Q) :
  0 <= sell_floor cfg -> covered cfg p ->
  sell_target_price p <= carried -> carried * sell_floor cfg <= q ->
  0 <= alpha_amount p * q - tao_invested p.
Proof.
  intros Hf (Hb & Ha & Hi & Hc) Ht Hq.
  assert (Hbq : buy_price p <= q).
  { apply Qle_trans with (sell_target_price p * sell_floor cfg); [exact Hc|].
    apply Qle_trans with (carried * sell_floor cfg); [|exact Hq].
    now apply Qmult_le_compat_r. }
  rewrite Hi.
  assert (H : alpha_amount p * buy_price p <= alpha_amount p * q).
  { rewrite (Qmult_comm _ (buy_price p)), (Qmult_comm _ q).
    now apply Qmult_le_compat_r. }
  lra.
Qed.

Lemma covered_purchase (cfg : Config) (price : Q) :
  0 <= dca_amount cfg ->
  1 <= (1 + profit_target_percent cfg / 100) * sell_floor cfg ->
  0 < price ->
  0 <= dca_amount cfg / price /\
  dca_amount cfg == dca_amount cfg / price * price /\
  price <= price * (1 + profit_target_percent cfg / 100) * sell_floor cfg.
Proof.
  intros Hd Hm Hp. split; [|split].
  - apply Qle_shift_div_l; [exact Hp | lra].
  - field. intro E. rewrite E in Hp. discriminate.
  - rewrite <- Qmult_assoc.
    setoid_replace price with (price * 1) at 1 by ring.
    rewrite (Qmult_comm price 1),
            (Qmult_comm price ((1 + profit_target_percent cfg / 100) * sell_floor cfg)).
    apply Qmult_le_compat_r; [exact Hm | now apply Qlt_le_weak].
Qed.

(** X24.  No trade closes at a loss.  When the quoted prices are positive,
    the purchase amount is not negative, the tolerance of the sell-side guard
    is at most 100 percent and the profit target outweighs it
    ([(1 + profit_target_percent/100) * (1 - price_check_tolerance/100) >= 1]),
    then in every reachable state, restarts included, every completed trade
    has [profit_tao >= 0], and so has the realized total. *)
Theorem no_trade_closes_at_a_loss (cfg : Config) (gw : Gateway) (w : World) :
  positive_quotes gw ->
  0 <= dca_amount cfg ->
  0 <= sell_floor cfg ->
  1 <= (1 + profit_target_percent cfg / 100) * sell_floor cfg ->
  reachable cfg gw w ->
  (forall p s, In p (completed_trades (bot w)) -> sale_info p = Some s ->
               0 <= profit_tao s) /\
  0 <= total_profit_realized (bot w).
Proof.
  intros Hpos Hd Hf Hm R.
  assert (H : never_at_a_loss cfg (bot w)).
  { refine (proj1 (reachable_step_invariant cfg gw (fun _ => True)
              (kept (never_at_a_loss cfg)) _ _ _ _ _ w _ _ R)).
    - intros now t tq price b d [(Ha & Hc & Ht) _] _ NZ Hq.
      assert (B : never_at_a_loss cfg
                    (record_purchase cfg now (wall_clock gw t) price
                       (dca_amount cfg / price) b)).
      { destruct (covered_purchase cfg price Hd Hm (Hpos _ _ Hq)) as (C1 & C2 & C3).
        split; [|split; [exact Hc | exact Ht]].
        cbn [record_purchase active_positions]. apply Forall_app. split; [exact Ha|].
        constructor; [|constructor]. intros _. unfold covered. cbn.
        split; [exact (Hpos _ _ Hq)|]. split; [exact C1|]. split; [exact C2 | exact C3]. }
      split; [exact B | now apply never_at_a_loss_restore].
    - intros i p carried price sold_at b d [(Ha & Hc & Ht) _] Hnth Hact _ Htarget Hprice.
      assert (Hp : covered cfg p).
      { rewrite Forall_forall in Ha. apply Ha; [|exact Hact].
        eapply nth_error_In. exact Hnth. }
      pose proof (covered_sale_profit cfg p carried price Hf Hp Htarget Hprice) as Hprofit.
      assert (B : never_at_a_loss cfg (record_sale i p price sold_at b)).
      { split; [|split]; cbn [record_sale active_positions completed_trades
                               total_profit_realized].
        - apply Forall_list_set; [exact Ha|]. discriminate.
        - apply Forall_app. split; [exact Hc|].
          constructor; [exact Hprofit | constructor].
        - lra. }
      split; [exact B | now apply never_at_a_loss_restore].
    - intros b d H. exact H.
    - intros p l b d [(Ha & Hc & Ht) H2] _ Hrem. split; [|exact H2].
      split; [|split; [exact Hc | exact Ht]].
      exact (Forall_list_remove _ p _ l Hrem Ha).
    - intros b d [_ H]. now split.
    - assert (B : never_at_a_loss cfg init_bot).
      { split; [constructor|]. split; [constructor | discriminate]. }
      now split.
    - intros b. exact Logic.I. }
  destruct H as (_ & Hc & Ht). split; [|exact Ht].
  intros p s Hin Hs. rewrite Forall_forall in Hc. specialize (Hc p Hin).
  unfold profit_of in Hc. now rewrite Hs in Hc.
Qed.

Lemma no_trade_closes_at_a_loss_witness :
  positive_quotes (Scenario.market (116 # 100)) /\
  reachable Scenario.cfg (Scenario.market (116 # 100)) Scenario.after_sale /\
  0 <= total_profit_realized (bot Scenario.after_sale).
Proof.
  assert (Hq : positive_quotes (Scenario.market (116 # 100))).
  { intros t p. cbn [Scenario.market all_subnets].
    destruct (t <? 6)%nat; intros [= <-]; reflexivity. }
  assert (R : reachable Scenario.cfg (Scenario.market (116 # 100)) Scenario.after_sale)
    by (apply reach_sells, reach_purchase, reach_start).
  split; [exact Hq|]. split; [exact R|].
  apply (no_trade_closes_at_a_loss Scenario.cfg (Scenario.market (116 # 100))
           Scenario.after_sale Hq); [discriminate | discriminate | discriminate | exact R].
Defined.


(** ** The duration of the session summary *)

Lemma Qfloor_unique (x : Q) (z : Z) :
  inject_Z z <= x -> x < inject_Z (z + 1) -> Qfloor x = z.
Proof.
  intros Hl Hu.
  assert (A : (z <= Qfloor x)%Z).
  { rewrite <- (Qfloor_Z z). now apply Qfloor_resp_le. }
  assert (B : (Qfloor x < z + 1)%Z).
  { rewrite Zlt_Qlt. apply Qle_lt_trans with x; [apply Qfloor_le | exact Hu]. }
  lia.
Qed.

Lemma Qfloor_div_Z (x : Q) (k : Z) :
  (0 < k)%Z -> Qfloor (x / inject_Z k) = (Qfloor x / k)%Z.
Proof.
  intro Hk.
  assert (Hq : inject_Z 0 < inject_Z k) by (rewrite <- Zlt_Qlt; exact Hk).
  change (inject_Z 0) with 0 in Hq.
  pose proof (Qfloor_le x) as Hl. pose proof (Qlt_floor x) as Hu.
  apply Qfloor_unique.
  - apply Qle_shift_div_l; [exact Hq|]. rewrite <- inject_Z_mult.
    apply Qle_trans with (inject_Z (Qfloor x)); [|exact Hl].
    rewrite <- Zle_Qle. pose proof (Z.mul_div_le (Qfloor x) k Hk). lia.
  - apply Qlt_shift_div_r; [exact Hq|]. rewrite <- inject_Z_mult.
    apply Qlt_le_trans with (inject_Z (Qfloor x + 1)); [exact Hu|].
    rewrite <- Zle_Qle. pose proof (Z.mod_pos_bound (Qfloor x) k Hk).
    pose proof (Z.div_mod (Qfloor x) k). nia.
Qed.

Lemma Qfloor_minus_Z (x : Q) (z : Z) :
  Qfloor (x - inject_Z z) = (Qfloor x - z)%Z.
Proof.
  pose proof (Qfloor_le x) as Hl. pose proof (Qlt_floor x) as Hu.
  apply Qfloor_unique.
  - unfold Z.sub. rewrite inject_Z_plus, inject_Z_opp. lra.
  - replace (Qfloor x - z + 1)%Z with (Qfloor x + 1 + - z)%Z by lia.
    rewrite inject_Z_plus, inject_Z_opp. lra.
Qed.

Lemma py_int_Z (z : Z) : py_int (inject_Z z) = z.
Proof.
  unfold py_int. destruct (Qle_bool 0 (inject_Z z)); [apply Qfloor_Z | apply Qceiling_Z].
Qed.

(** X25.  The duration shown by [print_session_summary] adds up: the hours,
    minutes and seconds it computes from [session_duration] with [//], [%]
    and [int] make up the whole seconds of the duration, and the minutes and
    the seconds are between 0 and 59. *)
Theorem session_clock_adds_up (d : Q) :
  let '(hours, minutes, seconds) := session_clock d in
  (hours * 3600 + minutes * 60 + seconds = Qfloor d /\
   0 <= minutes < 60 /\ 0 <= seconds < 60)%Z.
Proof.
  unfold session_clock, py_floordiv. rewrite !py_int_Z.
  change 3600 with (inject_Z 3600). change 60 with (inject_Z 60).
  unfold py_mod, py_floordiv.
  rewrite !Qfloor_div_Z by lia.
  rewrite <- !inject_Z_mult, !Qfloor_minus_Z.
  assert (Hs : py_int (d - inject_Z (60 * (Qfloor d / 60))) =
               (Qfloor d - 60 * (Qfloor d / 60))%Z).
  { unfold py_int.
    assert (H0 : 0 <= d - inject_Z (60 * (Qfloor d / 60))).
    { pose proof (Qfloor_le d) as Hl.
      assert (H : inject_Z (60 * (Qfloor d / 60)) <= inject_Z (Qfloor d)).
      { rewrite <- Zle_Qle. apply Z.mul_div_le. lia. }
      lra. }
    apply Qle_bool_iff in H0. rewrite H0. apply Qfloor_minus_Z. }
  rewrite Hs.
  generalize (Qfloor d). intro n.
  Z.to_euclidean_division_equations. lia.
Qed.
